(** * Binomial lattice option pricer

    A shallow embedding of [binomial_option_pricer] from
    "Binomial Lattice Options Pricer.py", and the properties of the lattice
    engine proved about it.

    Numbers.  The pricer computes in NumPy double precision.  The embedding
    is the real-arithmetic idealisation of that computation: a finite float
    is a real number, [np.exp], [np.sqrt], [*], [/] are the exact
    operations, and rounding and overflow are left out.  What NumPy does
    where the exact operation has no value is kept: [np.sqrt] of a negative
    number and a division by zero give a non-finite float (nan or inf) and
    a warning, not an exception.  A non-finite value is [None] in an
    [option R]; in this program every non-finite factor reaches the root of
    the value grid as nan (inf * 0, inf - inf and np.maximum(0, nan) are all
    nan, and with N >= 1 there is at least one backward step), so the
    returned float is then [NaN].

    Two things the exact operations do not show.  In double precision
    [np.exp] overflows for a large exponent, and [u] and [d] round to the
    same float for a tiny one (sigma = 2000 and sigma = 1e-17 with T = 1):
    the program then returns nan although the exact factors are finite.
    And for [q] outside [[0, 1]] (R < d or u < R) the backward loop
    amplifies the rounding errors from layer to layer, so that the float
    returned can be far from the exact value; for [q] in [[0, 1]] every
    node is a weighted mean of two later nodes and the errors stay at the
    level of rounding.

    Names follow the source, except that the spot price [S] is written [S0]
    and the per-step factor [R] is written [Rf], since [S] and [R] are the
    successor of [nat] and the type of real numbers. *)

From Stdlib Require Import String ZArith Reals Lra Lia List.
Import ListNotations.
Open Scope R_scope.

(** ** Python and NumPy values *)

Inductive exn : Type :=
| ZeroDivisionError                (* T / N with N = 0 *)
| IndexError                       (* index into an empty array *)
| ValueError (msg : string).       (* np.zeros of a negative size; raise ValueError(...) *)

(** A float returned to the caller: a number, or nan. *)
Inductive npfloat : Type :=
| Num (x : R)
| NaN.

Inductive outcome : Type :=
| Returned (v : npfloat)
| Raised (e : exn).

(** ** Two-dimensional arrays *)

Module Np.

Definition grid : Type := list (list R).

(** [np.zeros((rows, cols))] *)
Definition zeros (rows cols : nat) : grid := repeat (repeat 0 cols) rows.

Fixpoint set_nth {A : Type} (l : list A) (n : nat) (x : A) : list A :=
  match l, n with
  | [], _ => []
  | _ :: t, O => x :: t
  | h :: t, S n' => h :: set_nth t n' x
  end.

(** [g[i, :]] *)
Definition row (g : grid) (i : nat) : list R := nth i g [].

(** [g[i, j]].  The pricer reads [(i-1, j-1)] for [1 <= j <= i <= N] and
    [(i+1, j)], [(i+1, j+1)] for [j <= i < N], all inside its
    [(N+1) x (N+1)] arrays, so the default is never read. *)
Definition get (g : grid) (i j : nat) : R := nth j (row g i) 0.

(** [g[i, :] = l] *)
Definition set_row (g : grid) (i : nat) (l : list R) : grid := set_nth g i l.

(** [g[i, j] = x].  The pricer writes [(i, j)] for [j <= i <= N] only,
    inside the array; outside it NumPy would raise and this leaves [g]
    as it is. *)
Definition set (g : grid) (i j : nat) (x : R) : grid :=
  set_row g i (set_nth (row g i) j x).

(** An [n] by [n] array. *)
Definition square (n : nat) (g : grid) : Prop :=
  length g = n /\ forall i, (i < n)%nat -> length (row g i) = n.

(** [np.sqrt]: nan below zero. *)
Definition sqrt (x : R) : option R :=
  if Rlt_dec x 0 then None else Some (R_sqrt.sqrt x).

(** [x / y] on floats: inf or nan when [y] is zero. *)
Definition div (x y : R) : option R :=
  if Req_dec_T y 0 then None else Some (x / y).

End Np.

(** ** The pricer *)

Inductive kind : Type := Call | Put.

(** The test [option_type == 'call'], [elif option_type == 'put'], [else]. *)
Definition parse_option_type (option_type : string) : option kind :=
  if String.eqb option_type "call" then Some Call
  else if String.eqb option_type "put" then Some Put
  else None.

(** [delta_t = T / N], for [N <> 0]. *)
Definition delta_t (T : R) (N : Z) : R := T / IZR N.

(** [u = np.exp(sigma * np.sqrt(delta_t))], [d = np.exp(-sigma * np.sqrt(delta_t))] *)
Definition up_down (T sigma : R) (N : Z) : option (R * R) :=
  match Np.sqrt (delta_t T N) with
  | Some s => Some (exp (sigma * s), exp (- sigma * s))
  | None => None
  end.

(** [R = np.exp(r * delta_t)] *)
Definition discount (T r : R) (N : Z) : R := exp (r * delta_t T N).

(** [q = (R - d) / (u - d)] *)
Definition risk_neutral (T r sigma : R) (N : Z) : option R :=
  match up_down T sigma N with
  | Some (u, d) => Np.div (discount T r N - d) (u - d)
  | None => None
  end.

(** The stock price loop:
<<
    stock_prices = np.zeros((N+1, N+1))
    stock_prices[0, 0] = S
    for i in range(1, N+1):
        stock_prices[i, 0] = stock_prices[i-1, 0] * u
        for j in range(1, i+1):
            stock_prices[i, j] = stock_prices[i-1, j-1] * d
>> *)
Definition down_moves (d : R) (i : nat) (g : Np.grid) : Np.grid :=
  fold_left (fun g j => Np.set g i j (Np.get g (i - 1) (j - 1) * d)) (seq 1 i) g.

Definition price_layer (u d : R) (g : Np.grid) (i : nat) : Np.grid :=
  down_moves d i (Np.set g i 0 (Np.get g (i - 1) 0 * u)).

Definition price_grid (S0 u d : R) (N : nat) : Np.grid :=
  fold_left (price_layer u d) (seq 1 N) (Np.set (Np.zeros (N + 1) (N + 1)) 0 0 S0).

(** The payoff at maturity, [np.maximum(0, s - K)] or [np.maximum(0, K - s)]. *)
Definition payoff (k : kind) (K s : R) : R :=
  match k with
  | Call => Rmax 0 (s - K)
  | Put => Rmax 0 (K - s)
  end.

(** [option_values = np.zeros((N+1, N+1))] and
    [option_values[N, :] = np.maximum(0, ...)] over the whole row [N]. *)
Definition terminal_payoff (k : kind) (K : R) (stock_prices : Np.grid) (N : nat) : Np.grid :=
  Np.set_row (Np.zeros (N + 1) (N + 1)) N (map (payoff k K) (Np.row stock_prices N)).

(** The backward loop:
<<
    for i in range(N-1, -1, -1):
        for j in range(i+1):
            option_values[i, j] = (q * option_values[i+1, j]
                                   + (1 - q) * option_values[i+1, j+1]) / R
>> *)
Definition continuation (q Rf : R) (g : Np.grid) (i j : nat) : R :=
  (q * Np.get g (i + 1) j + (1 - q) * Np.get g (i + 1) (j + 1)) / Rf.

Definition discount_layer (q Rf : R) (g : Np.grid) (i : nat) : Np.grid :=
  fold_left (fun g j => Np.set g i j (continuation q Rf g i j)) (seq 0 (i + 1)) g.

Definition discount_backward (q Rf : R) (N : nat) (option_values : Np.grid) : Np.grid :=
  fold_left (discount_layer q Rf) (rev (seq 0 N)) option_values.

(** The two grids as the pricer holds them when it returns, for [N >= 1]
    and a recognised option type.  [None]: the entries are not finite. *)
Definition stock_prices (S0 T sigma : R) (N : Z) : option Np.grid :=
  match up_down T sigma N with
  | Some (u, d) => Some (price_grid S0 u d (Z.to_nat N))
  | None => None
  end.

Definition option_values
    (sp : option Np.grid) (K T r sigma : R) (N : Z) (k : kind) : option Np.grid :=
  match sp, risk_neutral T r sigma N with
  | Some sp, Some q =>
      Some (discount_backward q (discount T r N) (Z.to_nat N)
              (terminal_payoff k K sp (Z.to_nat N)))
  | _, _ => None
  end.

(** [binomial_option_pricer(S, K, T, r, sigma, N, option_type)].
    The statements run in the order of the source: the division [T / N],
    the factors, the allocation and filling of [stock_prices], the test of
    [option_type], the backward loop, [return option_values[0, 0]].  The
    call to [visualize_binomial_tree] only reads the grids and plots them;
    it is left out. *)
Definition binomial_option_pricer
    (S0 K T r sigma : R) (N : Z) (option_type : string) : outcome :=
  if (N =? 0)%Z then Raised ZeroDivisionError
  else if (N + 1 <? 0)%Z then Raised (ValueError "negative dimensions are not allowed")
  else if (N + 1 =? 0)%Z then Raised IndexError
  else
    let sp := stock_prices S0 T sigma N in
    match parse_option_type option_type with
    | None => Raised (ValueError "Option type must be 'call' or 'put'")
    | Some k =>
        match option_values sp K T r sigma N k with
        | Some g => Returned (Num (Np.get g 0 0))
        | None => Returned NaN
        end
    end.

(** ** The pricer where its factors are finite *)

(** The option type strings the pricer accepts. *)
Definition option_type_of (k : kind) : string :=
  match k with
  | Call => "call"
  | Put => "put"
  end.

(** The factors as real numbers, where they are finite. *)
Definition up (T sigma : R) (N : Z) : R := exp (sigma * sqrt (delta_t T N)).
Definition down (T sigma : R) (N : Z) : R := exp (- sigma * sqrt (delta_t T N)).
Definition prob (T r sigma : R) (N : Z) : R :=
  (discount T r N - down T sigma N) / (up T sigma N - down T sigma N).

(** The two grids of the pricer where every factor is finite. *)
Definition lattice_prices (S0 T sigma : R) (N : Z) : Np.grid :=
  price_grid S0 (up T sigma N) (down T sigma N) (Z.to_nat N).

Definition lattice_values (S0 K T r sigma : R) (N : Z) (k : kind) : Np.grid :=
  discount_backward (prob T r sigma N) (discount T r N) (Z.to_nat N)
    (terminal_payoff k K (lattice_prices S0 T sigma N) (Z.to_nat N)).

(** ** American exercise *)

(** Modelled from the spec: the American node rule of [discount_backward],
    [max(C, intrinsic(i, j))], where [C] is the continuation value and
    [intrinsic] is the payoff rule of the last layer at the stock price of
    the node.  The source has no exercise parameter and no such rule: its
    backward loop stores the continuation value at every node. *)
Definition american_node
    (k : kind) (K q Rf : R) (sp g : Np.grid) (i j : nat) : R :=
  Rmax (continuation q Rf g i j) (payoff k K (Np.get sp i j)).

(** Modelled from the spec: one layer of the backward pass under American
    exercise, nodes [j = 0 .. i], which the source does not have. *)
Definition american_layer
    (k : kind) (K q Rf : R) (sp g : Np.grid) (i : nat) : Np.grid :=
  fold_left (fun g j => Np.set g i j (american_node k K q Rf sp g i j)) (seq 0 (i + 1)) g.

(** Modelled from the spec: [discount_backward] with [exercise == american],
    layers [N-1] down to [0], which the source does not have. *)
Definition discount_backward_american
    (k : kind) (K q Rf : R) (sp : Np.grid) (N : nat) (option_values : Np.grid) : Np.grid :=
  fold_left (american_layer k K q Rf sp) (rev (seq 0 N)) option_values.

(** Modelled from the spec: the value grid of [price] with American
    exercise, built as the source builds the European one (same price grid,
    same payoff on the last layer, same factors), with the American rule in
    the backward pass.  The source has no such mode. *)
Definition american_values (S0 K T r sigma : R) (N : Z) (k : kind) : Np.grid :=
  discount_backward_american k K (prob T r sigma N) (discount T r N)
    (lattice_prices S0 T sigma N) (Z.to_nat N)
    (terminal_payoff k K (lattice_prices S0 T sigma N) (Z.to_nat N)).

(** ** Vocabulary of the proofs *)

Module Lattice.
Import Np.

(** The price after [i - j] up-moves and [j] down-moves. *)
Definition node_price (S0 u d : R) (i j : nat) : R := S0 * u ^ (i - j) * d ^ j.

(** Layers [0 .. k-1] of the price grid are filled. *)
Definition priced (S0 u d : R) (N k : nat) (g : grid) : Prop :=
  square (N + 1) g /\
  forall i j, (j <= i < k)%nat -> get g i j = node_price S0 u d i j.

(** Both inner loops of the pricer write the entries [s .. s+n-1] of row
    [i], each from entries of another row. *)
Definition fill (F : grid -> nat -> R) (i s n : nat) (g : grid) : grid :=
  fold_left (fun g j => set g i j (F g j)) (seq s n) g.

(** [F] reads no entry of row [i]. *)
Definition reads_other_rows (F : grid -> nat -> R) (i : nat) : Prop :=
  forall g1 g2 j,
    (forall i' j', i' <> i -> get g1 i' j' = get g2 i' j') -> F g1 j = F g2 j.

Record filled (F : grid -> nat -> R) (N i s m : nat) (g g' : grid) : Prop := {
  filled_square : square N g';
  filled_other : forall i' j', i' <> i -> get g' i' j' = get g i' j';
  filled_done : forall j, (s <= j < m)%nat -> get g' i j = F g j;
  filled_rest : forall j, ~ (s <= j < m)%nat -> get g' i j = get g i j
}.

(** A backward pass with node rule [F]: layer [i] from [N-1] down to [0],
    node [j] from [0] to [i], [g[i, j] = F g i j]. *)
Definition backward (F : grid -> nat -> nat -> R) (N : nat) (g : grid) : grid :=
  fold_left (fun g i => fill (fun g j => F g i j) i 0 (i + 1) g) (rev (seq 0 N)) g.

(** The rule of layer [i] reads later layers only. *)
Definition reads_later_rows (F : grid -> nat -> nat -> R) : Prop :=
  forall g1 g2 i j,
    (forall i' j', (i < i')%nat -> get g1 i' j' = get g2 i' j') -> F g1 i j = F g2 i j.

Record valued (F : grid -> nat -> nat -> R) (N k : nat) (g0 g : grid) : Prop := {
  valued_square : square (N + 1) g;
  valued_terminal : forall j, get g N j = get g0 N j;
  valued_node : forall i j, (k <= i < N)%nat -> (j <= i)%nat -> get g i j = F g i j
}.

End Lattice.

(** ** The price as an expectation *)

Module Expectation.
Import Lattice.

(** Pascal's triangle: the number of paths with [k] down-moves among [n]. *)
Fixpoint binomial (n k : nat) : nat :=
  match n, k with
  | _, O => 1
  | O, S _ => 0
  | S n', S k' => binomial n' k' + binomial n' (S k')
  end.

(** The risk-neutral weight of [k] down-moves among [m] moves. *)
Definition weight (q : R) (m k : nat) : R :=
  INR (binomial m k) * q ^ (m - k) * (1 - q) ^ k.

(** The weighted sum of [f] over the nodes [j .. j+m] reached in [m]
    moves from node [j]. *)
Definition expected (q : R) (f : nat -> R) (m j : nat) : R :=
  sum_f_R0 (fun l => weight q m l * f (j + l)%nat) m.

End Expectation.

(** ** The plot of the two trees *)

Module Plot.

Inductive axis : Type := Ax0 | Ax1.

Definition axis_eqb (a b : axis) : bool :=
  match a, b with
  | Ax0, Ax0 | Ax1, Ax1 => true
  | _, _ => false
  end.

(** The matplotlib calls of [visualize_binomial_tree], in the order they
    are made.  Sizes, fonts and alignments are left out; [Text] carries the
    number that [f'{...:.2f}'] formats into the label. *)
Inductive call : Type :=
| Subplots (rows cols : nat)
| SetTitle (a : axis) (title : string)
| Scatter (a : axis) (x : nat) (y : R) (color : string)
| Text (a : axis) (x : nat) (y : R) (label : R)
| SetXlabel (a : axis) (label : string)
| SetYlabel (a : axis) (label : string)
| TightLayout
| Show.

(** [str.capitalize] on ASCII text: the first letter upper case, the rest
    lower case. *)
Definition upper (c : Ascii.ascii) : Ascii.ascii :=
  let n := Ascii.nat_of_ascii c in
  if andb (Nat.leb 97 n) (Nat.leb n 122) then Ascii.ascii_of_nat (n - 32) else c.

Definition lower (c : Ascii.ascii) : Ascii.ascii :=
  let n := Ascii.nat_of_ascii c in
  if andb (Nat.leb 65 n) (Nat.leb n 90) then Ascii.ascii_of_nat (n + 32) else c.

Fixpoint lower_all (s : string) : string :=
  match s with
  | EmptyString => EmptyString
  | String c t => String (lower c) (lower_all t)
  end.

Definition capitalize (s : string) : string :=
  match s with
  | EmptyString => EmptyString
  | String c t => String (upper c) (lower_all t)
  end.

(** The two nested loops over one grid:
<<
    for i in range(N+1):
        for j in range(i+1):
            ax.scatter(i, g[i, j], color=...)
            ax.text(i, g[i, j], f'{g[i, j]:.2f}', ...)
>> *)
Definition draw_nodes (a : axis) (color : string) (g : Np.grid) (N : nat) : list call :=
  flat_map
    (fun i => flat_map
                (fun j => [Scatter a i (Np.get g i j) color;
                           Text a i (Np.get g i j) (Np.get g i j)])
                (seq 0 (i + 1)))
    (seq 0 (N + 1)).

(** [visualize_binomial_tree(stock_prices, option_values, N, option_type)] *)
Definition visualize_binomial_tree
    (stock_prices option_values : Np.grid) (N : nat) (option_type : string) : list call :=
  [Subplots 1 2; SetTitle Ax0 "Stock Price Binomial Tree"]
  ++ draw_nodes Ax0 "blue" stock_prices N
  ++ [SetXlabel Ax0 "Steps"; SetYlabel Ax0 "Stock Price";
      SetTitle Ax1 ("Option Price Binomial Tree (" ++ capitalize option_type ++ ")")]
  ++ draw_nodes Ax1 "green" option_values N
  ++ [SetXlabel Ax1 "Steps"; SetYlabel Ax1 "Option Price"; TightLayout; Show].

(** The points scattered on one panel, in drawing order. *)
Definition scatter_point (a : axis) (c : call) : list (nat * R) :=
  match c with
  | Scatter a' x y _ => if axis_eqb a a' then [(x, y)] else []
  | _ => []
  end.

Definition scattered (a : axis) (calls : list call) : list (nat * R) :=
  flat_map (scatter_point a) calls.

(** The nodes of a tree of [N] steps: layer [i] has the nodes [0 .. i]. *)
Definition tree_nodes (N : nat) (value : nat -> nat -> R) : list (nat * R) :=
  flat_map (fun i => map (fun j => (i, value i j)) (seq 0 (i + 1))) (seq 0 (N + 1)).

End Plot.

(** ** Python numbers *)

Module PyNum.

(** Sequencing of partial results. *)
Definition bind {A B : Type} (x : option A) (f : A -> option B) : option B :=
  match x with
  | Some a => f a
  | None => None
  end.

(** [np.log]: -inf at zero and nan below, both [None]. *)
Definition log (x : R) : option R :=
  if Rlt_dec 0 x then Some (ln x) else None.

(** The nearest integer, ties to the even one. *)
Definition round_half_even (x : R) : Z :=
  let f := Zfloor x in
  if Rlt_dec (x - IZR f) (1 / 2) then f
  else if Rlt_dec (1 / 2) (x - IZR f) then (f + 1)%Z
  else if Z.even f then f else (f + 1)%Z.

(** [round(x, ndigits)] *)
Definition round (x : R) (ndigits : nat) : R :=
  IZR (round_half_even (x * 10 ^ ndigits)) / 10 ^ ndigits.

End PyNum.

Notation "x <- e ;; k" := (PyNum.bind e (fun x => k))
  (at level 61, e at next level, right associativity).

(** ** The closed-form pricers

    The three Black-Scholes classes call [scipy.stats.norm.cdf] and
    [norm.pdf]; these are parameters [cdf] and [pdf] here.  Each method is
    modelled where all its intermediate floats are finite: a result is
    [None] where the source divides by zero, takes the logarithm of a
    number that is not positive or the square root of a negative number
    (NumPy then yields inf or nan with a warning, Python raises
    ZeroDivisionError, depending on the types of the arguments).  A [None]
    of one class and a [None] of another need not be the same behaviour:
    at [K = 0] with Python numbers [BlackScholes._d1] raises on [S/K],
    while [BlackScholesPeriodicDividend._d1] divides a NumPy float and goes
    on with inf.  The classes are compared only where both return a
    number. *)

Module BlackScholes.
Section Normal.
Variable cdf : R -> R.

(** [(1 / (sigma * np.sqrt(T))) * (np.log(S/K) + (r + sigma**2 / 2) * T)] *)
Definition _d1 (S0 K T r sigma : R) : option R :=
  s <- Np.sqrt T ;;
  inv <- Np.div 1 (sigma * s) ;;
  ratio <- Np.div S0 K ;;
  l <- PyNum.log ratio ;;
  Some (inv * (l + (r + sigma ^ 2 / 2) * T)).

(** [self._d1(S, K, T, r, sigma) - sigma * np.sqrt(T)] *)
Definition _d2 (S0 K T r sigma : R) : option R :=
  d1 <- _d1 S0 K T r sigma ;;
  s <- Np.sqrt T ;;
  Some (d1 - sigma * s).

(** [norm.cdf(d1) * S - norm.cdf(d2) * K * np.exp(-r*T)] *)
Definition call_price (S0 K T r sigma : R) : option R :=
  d1 <- _d1 S0 K T r sigma ;;
  d2 <- _d2 S0 K T r sigma ;;
  Some (cdf d1 * S0 - cdf d2 * K * exp (- r * T)).

(** [norm.cdf(-d2) * K * np.exp(-r*T) - norm.cdf(-d1) * S] *)
Definition put_price (S0 K T r sigma : R) : option R :=
  d1 <- _d1 S0 K T r sigma ;;
  d2 <- _d2 S0 K T r sigma ;;
  Some (cdf (- d2) * K * exp (- r * T) - cdf (- d1) * S0).

Definition call_in_the_money (S0 K T r sigma : R) : option R :=
  d2 <- _d2 S0 K T r sigma ;;
  Some (cdf d2).

Definition put_in_the_money (S0 K T r sigma : R) : option R :=
  d2 <- _d2 S0 K T r sigma ;;
  Some (1 - cdf d2).

(** The inner function of [implied_volatility]: every option type other
    than ["call"] is priced as a put. *)
Definition option_price_function
    (S0 K T r : R) (option_type : string) (sigma : R) : option R :=
  if String.eqb option_type "call" then call_price S0 K T r sigma
  else put_price S0 K T r sigma.

Inductive volatility : Type :=
| Volatility (v : R)          (* the value returned *)
| UnboundLocalError           (* [sigma_mid] read before the loop assigned it *)
| Undefined                   (* a price that is not a finite number *)
| OutOfFuel.

Definition sigma_low_0 : R := 1 / 10000.
Definition sigma_high_0 : R := 1.
Definition tolerance : R := 1 / 10000.

(** The bisection loop:
<<
    while sigma_high - sigma_low > tolerance:
        sigma_mid = (sigma_low + sigma_high) / 2
        price_mid = option_price_function(sigma_mid)
        if price_mid < option_price:
            sigma_low = sigma_mid
        else:
            sigma_high = sigma_mid
    return round(sigma_mid, 4)
>> *)
Fixpoint bisect (fuel : nat) (price : R -> option R) (option_price : R)
    (sigma_low sigma_high : R) (sigma_mid : option R) : volatility :=
  match fuel with
  | O => OutOfFuel
  | S fuel' =>
      if Rlt_dec tolerance (sigma_high - sigma_low) then
        let mid := (sigma_low + sigma_high) / 2 in
        match price mid with
        | None => Undefined
        | Some price_mid =>
            if Rlt_dec price_mid option_price
            then bisect fuel' price option_price mid sigma_high (Some mid)
            else bisect fuel' price option_price sigma_low mid (Some mid)
        end
      else
        match sigma_mid with
        | Some mid => Volatility (PyNum.round mid 4)
        | None => UnboundLocalError
        end
  end.

(** [implied_volatility(option_price, S, K, T, r, option_type)] *)
Definition implied_volatility (fuel : nat)
    (option_price S0 K T r : R) (option_type : string) : volatility :=
  bisect fuel (option_price_function S0 K T r option_type) option_price
    sigma_low_0 sigma_high_0 None.

End Normal.
End BlackScholes.

Module BlackScholesPeriodicDividend.
Section Normal.
Variable cdf : R -> R.

(** [S * np.exp(-q / periods) ** (periods * T)]; the base of the power is
    positive. *)
Definition _discount_for_dividends (S0 q T periods : R) : option R :=
  e <- Np.div (- q) periods ;;
  let dividend_factor := exp e in
  let num_periods := periods * T in
  Some (S0 * Rpower dividend_factor num_periods).

Definition _d1 (S0 K T r sigma q periods : R) : option R :=
  dividends <- _discount_for_dividends S0 q T periods ;;
  s <- Np.sqrt T ;;
  inv <- Np.div 1 (sigma * s) ;;
  ratio <- Np.div dividends K ;;
  l <- PyNum.log ratio ;;
  Some (inv * (l + (r + sigma ^ 2 / 2) * T)).

Definition _d2 (S0 K T r sigma q periods : R) : option R :=
  d1 <- _d1 S0 K T r sigma q periods ;;
  s <- Np.sqrt T ;;
  Some (d1 - sigma * s).

Definition call_price (S0 K T r sigma q periods : R) : option R :=
  d1 <- _d1 S0 K T r sigma q periods ;;
  d2 <- _d2 S0 K T r sigma q periods ;;
  discounted_S <- _discount_for_dividends S0 q T periods ;;
  Some (cdf d1 * discounted_S - cdf d2 * K * exp (- r * T)).

Definition put_price (S0 K T r sigma q periods : R) : option R :=
  d1 <- _d1 S0 K T r sigma q periods ;;
  d2 <- _d2 S0 K T r sigma q periods ;;
  discounted_S <- _discount_for_dividends S0 q T periods ;;
  Some (cdf (- d2) * K * exp (- r * T) - cdf (- d1) * discounted_S).

Definition call_in_the_money (S0 K T r sigma q periods : R) : option R :=
  d2 <- _d2 S0 K T r sigma q periods ;;
  Some (cdf d2).

Definition put_in_the_money (S0 K T r sigma q periods : R) : option R :=
  d2 <- _d2 S0 K T r sigma q periods ;;
  Some (1 - cdf d2).

End Normal.
End BlackScholesPeriodicDividend.

Module BlackScholesGreeks.

(** The fields set by [__init__]; [S] is written [S0]. *)
Record greeks : Type := {
  S0 : R;
  K : R;
  T : R;
  r : R;
  sigma : R;
  q : R
}.

Section Normal.
Variables cdf pdf : R -> R.
Variable self : greeks.

(** [(np.log(S / K) + (r - q + 0.5 * sigma ** 2) * T) / (sigma * np.sqrt(T))] *)
Definition _d1 : option R :=
  ratio <- Np.div (S0 self) (K self) ;;
  l <- PyNum.log ratio ;;
  s <- Np.sqrt (T self) ;;
  Np.div (l + (r self - q self + 5 / 10 * sigma self ^ 2) * T self) (sigma self * s).

Definition _d2 : option R :=
  d1 <- _d1 ;;
  s <- Np.sqrt (T self) ;;
  Some (d1 - sigma self * s).

Definition call_delta : option R :=
  d1 <- _d1 ;;
  Some (exp (- q self * T self) * cdf d1).

Definition call_gamma : option R :=
  d1 <- _d1 ;;
  s <- Np.sqrt (T self) ;;
  Np.div (pdf d1) (S0 self * sigma self * s).

Definition call_vega : option R :=
  d1 <- _d1 ;;
  s <- Np.sqrt (T self) ;;
  Some (S0 self * pdf d1 * s).

Definition call_theta : option R :=
  d1 <- _d1 ;;
  d2 <- _d2 ;;
  s <- Np.sqrt (T self) ;;
  first_term <- Np.div (- (S0 self * pdf d1 * sigma self)) (2 * s) ;;
  let second_term := r self * K self * exp (- r self * T self) * cdf d2 in
  Some (first_term - second_term).

Definition call_rho : option R :=
  d2 <- _d2 ;;
  Some (K self * T self * exp (- r self * T self) * cdf d2).

Definition put_delta : option R :=
  d1 <- _d1 ;;
  Some (exp (- q self * T self) * (cdf d1 - 1)).

Definition put_gamma : option R := call_gamma.

Definition put_vega : option R := call_vega.

Definition put_theta : option R :=
  d1 <- _d1 ;;
  d2 <- _d2 ;;
  s <- Np.sqrt (T self) ;;
  first_term <- Np.div (- (S0 self * pdf d1 * sigma self)) (2 * s) ;;
  let second_term := r self * K self * exp (- r self * T self) * cdf (- d2) in
  Some (first_term + second_term).

Definition put_rho : option R :=
  d2 <- _d2 ;;
  Some (- K self * T self * exp (- r self * T self) * cdf (- d2)).

End Normal.
End BlackScholesGreeks.

(** ** The interest calculator

    [calculate_missing] of "Interest.py" reads four entry boxes and the
    interest type, and writes the missing value into the empty box or shows
    an error.  Floats are real numbers here (no overflow, no inf or nan
    typed into a box), and [math.ceil] is taken of the exact quotient.  The
    quotient of the floats can differ from the exact one in its last bits;
    where the exact quotient is a whole number the computed one may lie
    just above it, and [math.ceil] then gives the next integer (pv = 1000,
    r = 10, fv = 1300, simple interest: 3.0000000000000004, so 4 years). *)

Module Interest.

(** The exceptions the callback can meet. *)
Inductive error : Type := ValueError | ZeroDivisionError | TypeError.

Inductive py (A : Type) : Type :=
| Ok (a : A)
| Raise (e : error).
Arguments Ok {A} a.
Arguments Raise {A} e.

Definition bind {A B : Type} (x : py A) (f : A -> py B) : py B :=
  match x with
  | Ok a => f a
  | Raise e => Raise e
  end.

(** [x / y] on Python floats *)
Definition div (x y : R) : py R :=
  if Req_dec_T y 0 then Raise ZeroDivisionError else Ok (x / y).

(** [math.log] *)
Definition log (x : R) : py R :=
  if Rlt_dec 0 x then Ok (ln x) else Raise ValueError.

(** [b ** e] on Python floats.  A negative base with an exponent that is
    not a whole number gives a complex number; every use below passes it
    through [/], [-] or [*] into [round], which raises TypeError on it. *)
Definition pow (b e : R) : py R :=
  if Rlt_dec 0 b then Ok (Rpower b e)
  else if Req_dec_T b 0 then
    (if Rlt_dec 0 e then Ok 0
     else if Req_dec_T e 0 then Ok 1
     else Raise ZeroDivisionError)
  else if Req_dec_T (IZR (Zfloor e)) e then Ok (powerRZ b (Zfloor e))
  else Raise TypeError.

(** The content of an entry box: empty, the text of a number, other text. *)
Inductive entry : Type := Blank | Number (x : R) | Garbage.

(** [float(value) if value else None] *)
Definition parse (e : entry) : py (option R) :=
  match e with
  | Blank => Ok None
  | Number x => Ok (Some x)
  | Garbage => Raise ValueError
  end.

Inductive box : Type := a_entry | b_entry | c_entry | d_entry.

(** What [str(...)] is applied to: the int of [math.ceil] or a float. *)
Inductive shown : Type := IntText (n : Z) | FloatText (x : R).

Inductive effect : Type :=
| Insert (b : box) (text : shown)             (* [entry.insert(0, str(...))] *)
| ShowError (title message : string)          (* [messagebox.showerror] *)
| Uncaught (e : error).                       (* leaves [calculate_missing] *)

Definition three_values : effect :=
  ShowError "Input Error" "Please enter exactly three values into the interest calculator.".

End Interest.

Notation "x <~ e ;; k" := (Interest.bind e (fun x => k))
  (at level 61, e at next level, right associativity).

Module InterestCalculator.
Import Interest.

Definition simple (pv n r fv : option R) : py effect :=
  match pv, n, r, fv with
  | None, Some n, Some r, Some fv =>
      (* round(fv / (1 + (r / 100) * n), 2) *)
      x <~ div fv (1 + r / 100 * n) ;;
      Ok (Insert a_entry (FloatText (PyNum.round x 2)))
  | Some pv, None, Some r, Some fv =>
      (* math.ceil((fv / pv - 1) / (r / 100)) *)
      g <~ div fv pv ;;
      x <~ div (g - 1) (r / 100) ;;
      Ok (Insert b_entry (IntText (Zceil x)))
  | Some pv, Some n, None, Some fv =>
      (* round(100 * (fv / pv - 1) / n, 3) *)
      g <~ div fv pv ;;
      x <~ div (100 * (g - 1)) n ;;
      Ok (Insert c_entry (FloatText (PyNum.round x 3)))
  | Some pv, Some n, Some r, None =>
      (* round((1 + (r / 100) * n) * pv, 2) *)
      Ok (Insert d_entry (FloatText (PyNum.round ((1 + r / 100 * n) * pv) 2)))
  | _, _, _, _ => Ok three_values
  end.

Definition compound (pv n r fv : option R) : py effect :=
  match pv, n, r, fv with
  | None, Some n, Some r, Some fv =>
      (* round(fv / (1 + (r / 100)) ** n, 2) *)
      f <~ pow (1 + r / 100) n ;;
      x <~ div fv f ;;
      Ok (Insert a_entry (FloatText (PyNum.round x 2)))
  | Some pv, None, Some r, Some fv =>
      (* math.ceil(math.log(fv / pv) / (math.log(1 + r / 100))) *)
      g <~ div fv pv ;;
      l <~ log g ;;
      m <~ log (1 + r / 100) ;;
      x <~ div l m ;;
      Ok (Insert b_entry (IntText (Zceil x)))
  | Some pv, Some n, None, Some fv =>
      (* round(100 * ((fv / pv) ** (1 / n) - 1), 2) *)
      g <~ div fv pv ;;
      e <~ div 1 n ;;
      x <~ pow g e ;;
      Ok (Insert c_entry (FloatText (PyNum.round (100 * (x - 1)) 2)))
  | Some pv, Some n, Some r, None =>
      (* round(pv * (1 + (r / 100)) ** n, 2) *)
      f <~ pow (1 + r / 100) n ;;
      Ok (Insert d_entry (FloatText (PyNum.round (pv * f) 2)))
  | _, _, _, _ => Ok three_values
  end.

Definition monthly_compound (pv n r fv : option R) : py effect :=
  match pv, n, r, fv with
  | None, Some n, Some r, Some fv =>
      (* round(fv / (1 + (r / 1200))**(12 * n), 2) *)
      f <~ pow (1 + r / 1200) (12 * n) ;;
      x <~ div fv f ;;
      Ok (Insert a_entry (FloatText (PyNum.round x 2)))
  | Some pv, None, Some r, Some fv =>
      (* math.ceil(math.log(fv / pv) / (12 * math.log(1 + r / 1200)) - 1) *)
      g <~ div fv pv ;;
      l <~ log g ;;
      m <~ log (1 + r / 1200) ;;
      x <~ div l (12 * m) ;;
      Ok (Insert b_entry (IntText (Zceil (x - 1))))
  | Some pv, Some n, None, Some fv =>
      (* round(((fv / pv) ** (1 / (12 * n)) - 1) * 1200, 3) *)
      g <~ div fv pv ;;
      e <~ div 1 (12 * n) ;;
      x <~ pow g e ;;
      Ok (Insert c_entry (FloatText (PyNum.round ((x - 1) * 1200) 3)))
  | Some pv, Some n, Some r, None =>
      (* round(((1 + (r / 1200))**(12 * n)) * pv, 2) *)
      f <~ pow (1 + r / 1200) (12 * n) ;;
      Ok (Insert d_entry (FloatText (PyNum.round (f * pv) 2)))
  | _, _, _, _ => Ok three_values
  end.

(** The body of the [try]: the four conversions, then the interest type. *)
Definition body (a b c d : entry) (it : string) : py effect :=
  pv <~ parse a ;;
  n <~ parse b ;;
  r <~ parse c ;;
  fv <~ parse d ;;
  if String.eqb it "Simple" then simple pv n r fv
  else if String.eqb it "Compound" then compound pv n r fv
  else if String.eqb it "Monthly Compound" then monthly_compound pv n r fv
  else Ok (ShowError "Operation Error" "Please select a valid operation.").

(** [calculate_missing()] on the contents of the four boxes and of the
    dropdown; [except ValueError] shows an error, other exceptions leave
    the callback. *)
Definition calculate_missing (a b c d : entry) (it : string) : effect :=
  match body a b c d it with
  | Ok eff => eff
  | Raise ValueError => ShowError "Input Error" "Please enter valid numbers."
  | Raise e => Uncaught e
  end.

End InterestCalculator.

(** The number of empty boxes among the four. *)
Definition blank_boxes (a b c d : Interest.entry) : nat :=
  length (filter (fun e => match e with Interest.Blank => true | _ => false end)
            [a; b; c; d]).

(** ** Arrays: reading after writing *)

Module NpFacts.
Import Np.

Lemma set_nth_length {A : Type} (l : list A) (n : nat) (x : A) :
  length (set_nth l n x) = length l.
Proof.
  revert n; induction l as [|h t IH]; intros [|n]; simpl; auto.
Qed.

Lemma nth_set_nth_eq {A : Type} (l : list A) (n : nat) (x dflt : A) :
  (n < length l)%nat -> nth n (set_nth l n x) dflt = x.
Proof.
  revert n; induction l as [|h t IH]; intros [|n] Hn; simpl in *; try lia; auto.
  apply IH; lia.
Qed.

Lemma nth_set_nth_neq {A : Type} (l : list A) (n m : nat) (x dflt : A) :
  n <> m -> nth m (set_nth l n x) dflt = nth m l dflt.
Proof.
  revert n m; induction l as [|h t IH]; intros [|n] [|m] Hnm; simpl; auto; try lia.
Qed.

Lemma repeat_nth {A : Type} (x dflt : A) (n i : nat) :
  (i < n)%nat -> nth i (repeat x n) dflt = x.
Proof.
  revert i; induction n as [|n IH]; intros [|i] Hi; simpl; try lia; auto.
  apply IH; lia.
Qed.

Lemma zeros_square (n : nat) : square n (zeros n n).
Proof.
  split.
  - apply repeat_length.
  - intros i Hi. unfold row, zeros. rewrite repeat_nth by assumption.
    apply repeat_length.
Qed.

Lemma set_row_square (n : nat) (g : grid) (i : nat) (l : list R) :
  square n g -> length l = n -> square n (set_row g i l).
Proof.
  intros [Hlen Hrows] Hl. split.
  - unfold set_row. rewrite set_nth_length. assumption.
  - intros i' Hi'. unfold row, set_row.
    destruct (Nat.eq_dec i i') as [->|Hne].
    + rewrite nth_set_nth_eq by lia. assumption.
    + rewrite nth_set_nth_neq by assumption. apply Hrows. assumption.
Qed.

Lemma set_square (n : nat) (g : grid) (i j : nat) (x : R) :
  square n g -> (i < n)%nat -> square n (set g i j x).
Proof.
  intros Hsq Hi. unfold set. apply set_row_square; [assumption|].
  rewrite set_nth_length. apply Hsq. assumption.
Qed.

Lemma row_set_row_eq (n : nat) (g : grid) (i : nat) (l : list R) :
  square n g -> (i < n)%nat -> row (set_row g i l) i = l.
Proof.
  intros [Hlen _] Hi. unfold row, set_row. apply nth_set_nth_eq. lia.
Qed.

Lemma row_set_row_neq (g : grid) (i i' : nat) (l : list R) :
  i <> i' -> row (set_row g i l) i' = row g i'.
Proof.
  intros Hne. unfold row, set_row. apply nth_set_nth_neq. assumption.
Qed.

Lemma get_set_eq (n : nat) (g : grid) (i j : nat) (x : R) :
  square n g -> (i < n)%nat -> (j < n)%nat -> get (set g i j x) i j = x.
Proof.
  intros Hsq Hi Hj. unfold get, set.
  rewrite (row_set_row_eq n) by assumption.
  apply nth_set_nth_eq. destruct Hsq as [_ Hrows]. rewrite Hrows; assumption.
Qed.

Lemma get_set_other_row (g : grid) (i j i' j' : nat) (x : R) :
  i <> i' -> get (set g i j x) i' j' = get g i' j'.
Proof.
  intros Hne. unfold get, set. rewrite row_set_row_neq by assumption. reflexivity.
Qed.

Lemma get_set_other_col (g : grid) (i j j' : nat) (x : R) :
  j <> j' -> get (set g i j x) i j' = get g i j'.
Proof.
  intros Hne. unfold get, set, row, set_row.
  destruct (Nat.lt_ge_cases i (length g)) as [Hi|Hi].
  - rewrite nth_set_nth_eq by assumption. apply nth_set_nth_neq. assumption.
  - assert (Hsame : forall (l : list (list R)) (k : nat) (y : list R),
               (length l <= k)%nat -> set_nth l k y = l).
    { induction l as [|h t IH]; intros [|k] y Hk; simpl in *; try lia; auto.
      f_equal. apply IH. lia. }
    rewrite Hsame by assumption. rewrite (nth_overflow g) by assumption.
    destruct j, j'; reflexivity.
Qed.

End NpFacts.

(** ** Loops: [for k in range(s, s+n)] and [for k in range(n-1, -1, -1)] *)

Section Loops.
Context {A : Type}.
Variable f : A -> nat -> A.

Lemma range_invariant (P : nat -> A -> Prop) (s n : nat) (a : A) :
  P s a ->
  (forall k x, (s <= k < s + n)%nat -> P k x -> P (S k) (f x k)) ->
  P (s + n)%nat (fold_left f (seq s n) a).
Proof.
  revert s a. induction n as [|n IH]; intros s a Hstart Hstep; simpl.
  - rewrite Nat.add_0_r. assumption.
  - replace (s + S n)%nat with (S s + n)%nat by lia.
    apply IH.
    + apply Hstep; [lia | assumption].
    + intros k x Hk. apply Hstep. lia.
Qed.

Lemma range_down_invariant (P : nat -> A -> Prop) (n : nat) (a : A) :
  P n a ->
  (forall k x, (k < n)%nat -> P (S k) x -> P k (f x k)) ->
  P 0%nat (fold_left f (rev (seq 0 n)) a).
Proof.
  revert a. induction n as [|n IH]; intros a Hstart Hstep.
  - assumption.
  - rewrite seq_S, rev_app_distr. simpl.
    apply IH.
    + apply Hstep; [lia | assumption].
    + intros k x Hk. apply Hstep. lia.
Qed.

End Loops.

(** ** Filling one row of an array *)

Module RowFill.
Import Np NpFacts Lattice.

Lemma fill_spec (F : grid -> nat -> R) (N i s n : nat) (g : grid) :
  square N g -> (i < N)%nat -> (s + n <= N)%nat -> reads_other_rows F i ->
  filled F N i s (s + n) g (fill F i s n g).
Proof.
  intros Hsq Hi Hn HF. unfold fill.
  apply (range_invariant (fun g j => set g i j (F g j))
           (fun m g' => (m <= s + n)%nat -> filled F N i s m g g')); [| |lia].
  - intros _. constructor; auto. intros j Hj. lia.
  - intros k x Hk IHk _. destruct IHk as [Hsqx Hother Hdone Hrest]; [lia|].
    constructor.
    + apply set_square; assumption.
    + intros i' j' Hne. rewrite get_set_other_row by auto. apply Hother. assumption.
    + intros j Hj. destruct (Nat.eq_dec k j) as [->|Hne].
      * rewrite (get_set_eq N) by (assumption || lia).
        apply HF. assumption.
      * rewrite get_set_other_col by assumption. apply Hdone. lia.
    + intros j Hj. rewrite get_set_other_col by lia. apply Hrest. lia.
Qed.

End RowFill.

(** ** The stock price grid *)

Module PriceGrid.
Import Np NpFacts Lattice RowFill.

Section Prices.
Variables (S0 u d : R) (N : nat).

Lemma node_price_up (i : nat) :
  node_price S0 u d i 0 * u = node_price S0 u d (S i) 0.
Proof.
  unfold node_price. rewrite !Nat.sub_0_r. simpl. ring.
Qed.

Lemma node_price_down (i j : nat) :
  node_price S0 u d i j * d = node_price S0 u d (S i) (S j).
Proof.
  unfold node_price. simpl. ring.
Qed.

Lemma node_price_up_any (i j : nat) :
  (j <= i)%nat -> node_price S0 u d (S i) j = u * node_price S0 u d i j.
Proof.
  intros Hj. unfold node_price.
  replace (S i - j)%nat with (S (i - j)) by lia. simpl. ring.
Qed.

Lemma down_moves_reads (i : nat) :
  (1 <= i)%nat -> reads_other_rows (fun g j => get g (i - 1) (j - 1) * d) i.
Proof.
  intros Hi g1 g2 j Hsame. rewrite Hsame by lia. reflexivity.
Qed.

Lemma price_layer_spec (g : grid) (i : nat) :
  (1 <= i <= N)%nat -> priced S0 u d N i g -> priced S0 u d N (S i) (price_layer u d g i).
Proof.
  intros Hi [Hsq Hdone]. unfold price_layer, down_moves.
  set (g1 := set g i 0 (get g (i - 1) 0 * u)).
  assert (Hsq1 : square (N + 1) g1) by (apply set_square; [assumption | lia]).
  destruct (fill_spec (fun g j => get g (i - 1) (j - 1) * d) (N + 1) i 1 i g1)
    as [Hsq' Hother Hfilled Hrest]; try assumption; try lia.
  { apply down_moves_reads. lia. }
  split; [exact Hsq'|].
  intros i' j [Hj Hi'].
  destruct (Nat.eq_dec i' i) as [->|Hne].
  - destruct j as [|j].
    + rewrite Hrest by lia. unfold g1.
      rewrite (get_set_eq (N + 1)) by (assumption || lia).
      rewrite Hdone by lia.
      rewrite node_price_up. f_equal. lia.
    + rewrite Hfilled by lia. unfold g1.
      rewrite get_set_other_row by lia.
      rewrite Hdone by lia.
      replace (S j - 1)%nat with j by lia.
      rewrite node_price_down. f_equal. lia.
  - rewrite Hother by assumption. unfold g1.
    rewrite get_set_other_row by auto. apply Hdone. lia.
Qed.

Lemma price_grid_spec : priced S0 u d N (S N) (price_grid S0 u d N).
Proof.
  unfold price_grid.
  change (S N) with (1 + N)%nat.
  apply (range_invariant (price_layer u d) (fun k g => priced S0 u d N k g)).
  - split.
    + apply set_square; [apply zeros_square | lia].
    + intros i j Hij. assert (i = 0%nat) by lia. assert (j = 0%nat) by lia. subst.
      rewrite (get_set_eq (N + 1)) by (try apply zeros_square; lia).
      unfold node_price. simpl. ring.
  - intros k x Hk Hp. apply price_layer_spec; [lia | assumption].
Qed.

End Prices.
End PriceGrid.

(** ** The option value grid *)

Module ValueGrid.
Import Np NpFacts Lattice RowFill.

Lemma discount_backward_is_backward (q Rf : R) (N : nat) (g : grid) :
  discount_backward q Rf N g = backward (continuation q Rf) N g.
Proof. reflexivity. Qed.

Lemma continuation_reads_later (q Rf : R) : reads_later_rows (continuation q Rf).
Proof.
  intros g1 g2 i j Hsame. unfold continuation.
  rewrite !Hsame by lia. reflexivity.
Qed.

Lemma discount_backward_american_is_backward
    (k : kind) (K q Rf : R) (sp : grid) (N : nat) (g : grid) :
  discount_backward_american k K q Rf sp N g = backward (american_node k K q Rf sp) N g.
Proof. reflexivity. Qed.

Lemma backward_spec (F : grid -> nat -> nat -> R) (N : nat) (g0 : grid) :
  square (N + 1) g0 -> reads_later_rows F ->
  valued F N 0 g0 (backward F N g0).
Proof.
  intros Hsq HF. unfold backward.
  apply (range_down_invariant
           (fun g i => fill (fun g j => F g i j) i 0 (i + 1) g)
           (fun k g => valued F N k g0 g)).
  - constructor; auto. intros i j Hi. lia.
  - intros k x Hk [Hsqx Hterm Hnode].
    destruct (fill_spec (fun g j => F g k j) (N + 1) k 0 (k + 1) x)
      as [Hsq' Hother Hfilled _]; try assumption; try lia.
    { intros g1 g2 j Hsame. apply HF. intros i' j' Hi'. apply Hsame. lia. }
    constructor.
    + exact Hsq'.
    + intros j. rewrite Hother by lia. apply Hterm.
    + intros i j Hi Hj.
      destruct (Nat.eq_dec i k) as [->|Hne].
      * rewrite Hfilled by lia. apply HF.
        intros i' j' Hi'. symmetry. apply Hother. lia.
      * rewrite Hother by assumption. rewrite Hnode by lia. apply HF.
        intros i' j' Hi'. symmetry. apply Hother. lia.
Qed.

Lemma terminal_payoff_square (k : kind) (K : R) (sp : grid) (N : nat) :
  square (N + 1) sp -> square (N + 1) (terminal_payoff k K sp N).
Proof.
  intros [_ Hrows]. unfold terminal_payoff.
  apply set_row_square; [apply zeros_square|].
  rewrite length_map. apply Hrows. lia.
Qed.

Lemma terminal_payoff_row (k : kind) (K : R) (sp : grid) (N j : nat) :
  square (N + 1) sp -> (j <= N)%nat ->
  get (terminal_payoff k K sp N) N j = payoff k K (get sp N j).
Proof.
  intros [_ Hrows] Hj. unfold terminal_payoff, get.
  rewrite (row_set_row_eq (N + 1)) by (try apply zeros_square; lia).
  rewrite (nth_indep _ 0 (payoff k K 0)) by (rewrite length_map, Hrows; lia).
  apply map_nth.
Qed.

(** The grid of a European pass over the price grid [sp]: the payoff on
    layer [N], the continuation value below. *)
Lemma european_grid (k : kind) (K q Rf : R) (sp : grid) (N : nat) :
  square (N + 1) sp ->
  let g := discount_backward q Rf N (terminal_payoff k K sp N) in
  (forall j, (j <= N)%nat -> get g N j = payoff k K (get sp N j)) /\
  (forall i j, (i < N)%nat -> (j <= i)%nat -> get g i j = continuation q Rf g i j).
Proof.
  intros Hsq g. unfold g. rewrite discount_backward_is_backward.
  destruct (backward_spec (continuation q Rf) N (terminal_payoff k K sp N))
    as [_ Hterm Hnode].
  - apply terminal_payoff_square. assumption.
  - apply continuation_reads_later.
  - split.
    + intros j Hj. rewrite Hterm. apply terminal_payoff_row; assumption.
    + intros i j Hi Hj. apply Hnode; lia.
Qed.

End ValueGrid.

(** ** The per-step factors *)

Module Factors.

Lemma parse_option_type_of (k : kind) : parse_option_type (option_type_of k) = Some k.
Proof. destruct k; reflexivity. Qed.

Lemma parse_option_type_none (s : string) :
  s <> "call"%string -> s <> "put"%string -> parse_option_type s = None.
Proof.
  intros Hc Hp. unfold parse_option_type.
  apply String.eqb_neq in Hc, Hp. rewrite Hc, Hp. reflexivity.
Qed.

Lemma IZR_steps_pos (N : Z) : (1 <= N)%Z -> 0 < IZR N.
Proof. intros HN. apply IZR_lt. lia. Qed.

Lemma delta_t_pos (T : R) (N : Z) : 0 < T -> (1 <= N)%Z -> 0 < delta_t T N.
Proof.
  intros HT HN. unfold delta_t. apply Rdiv_lt_0_compat; [assumption|].
  apply IZR_steps_pos. assumption.
Qed.

Lemma delta_t_sign (T : R) (N : Z) :
  (1 <= N)%Z -> (delta_t T N < 0 <-> T < 0) /\ (delta_t T N = 0 <-> T = 0).
Proof.
  intros HN. pose proof (IZR_steps_pos N HN) as Hpos.
  pose proof (Rinv_0_lt_compat _ Hpos) as Hinv.
  unfold delta_t, Rdiv. split; split; intros H; nra.
Qed.

Lemma discount_pos (T r : R) (N : Z) : 0 < discount T r N.
Proof. apply exp_pos. Qed.

Lemma up_down_some (T sigma : R) (N : Z) :
  0 <= delta_t T N -> up_down T sigma N = Some (up T sigma N, down T sigma N).
Proof.
  intros Hdt. unfold up_down, Np.sqrt.
  destruct (Rlt_dec (delta_t T N) 0) as [Hneg|_]; [lra | reflexivity].
Qed.

Lemma up_down_none (T sigma : R) (N : Z) :
  delta_t T N < 0 -> up_down T sigma N = None.
Proof.
  intros Hdt. unfold up_down, Np.sqrt.
  destruct (Rlt_dec (delta_t T N) 0) as [_|Hpos]; [reflexivity | lra].
Qed.

(** [u = d] exactly when the exponent [sigma * sqrt(delta_t)] is zero. *)
Lemma up_eq_down (T sigma : R) (N : Z) :
  up T sigma N = down T sigma N <-> sigma * sqrt (delta_t T N) = 0.
Proof.
  unfold up, down. split; intros H.
  - apply exp_inv in H. lra.
  - f_equal. lra.
Qed.

Lemma down_lt_up (T sigma : R) (N : Z) :
  0 < T -> 0 < sigma -> (1 <= N)%Z ->
  0 < down T sigma N < 1 /\ 1 < up T sigma N.
Proof.
  intros HT Hs HN.
  pose proof (sqrt_lt_R0 _ (delta_t_pos T N HT HN)) as Hsq.
  assert (Hx : 0 < sigma * sqrt (delta_t T N)) by (apply Rmult_lt_0_compat; assumption).
  unfold up, down. rewrite <- exp_0. repeat split.
  - apply exp_pos.
  - apply exp_increasing. lra.
  - apply exp_increasing. lra.
Qed.

Lemma up_neq_down (T sigma : R) (N : Z) :
  0 < T -> sigma <> 0 -> (1 <= N)%Z -> up T sigma N - down T sigma N <> 0.
Proof.
  intros HT Hs HN Heq.
  assert (H : up T sigma N = down T sigma N) by lra.
  apply up_eq_down in H.
  pose proof (sqrt_lt_R0 _ (delta_t_pos T N HT HN)) as Hsq.
  apply Rmult_integral in H. destruct H; lra.
Qed.

Lemma risk_neutral_some (T r sigma : R) (N : Z) :
  0 < T -> sigma <> 0 -> (1 <= N)%Z ->
  risk_neutral T r sigma N = Some (prob T r sigma N).
Proof.
  intros HT Hs HN. unfold risk_neutral.
  rewrite up_down_some by (left; apply delta_t_pos; assumption).
  unfold Np.div.
  destruct (Req_dec_T (up T sigma N - down T sigma N) 0) as [Hz|_].
  - exfalso. exact (up_neq_down T sigma N HT Hs HN Hz).
  - reflexivity.
Qed.

(** Without a positive [T] and a non-zero [sigma] there is no finite [q]. *)
Lemma risk_neutral_none (T r sigma : R) (N : Z) :
  (1 <= N)%Z -> T <= 0 \/ sigma = 0 -> risk_neutral T r sigma N = None.
Proof.
  intros HN Hdeg. unfold risk_neutral.
  destruct (Rlt_dec (delta_t T N) 0) as [Hneg|Hnn].
  - rewrite up_down_none by assumption. reflexivity.
  - rewrite up_down_some by lra. unfold Np.div.
    destruct (Req_dec_T (up T sigma N - down T sigma N) 0) as [_|Hnz]; [reflexivity|].
    exfalso. apply Hnz.
    assert (H : up T sigma N = down T sigma N); [|lra].
    apply up_eq_down.
    destruct Hdeg as [HT|Hs].
    + destruct (delta_t_sign T N HN) as [Hlt Heq].
      assert (HT0 : T = 0).
      { destruct HT as [HT|HT]; [|assumption]. apply Hlt in HT. lra. }
      apply Heq in HT0. rewrite HT0, sqrt_0. ring.
    + rewrite Hs. ring.
Qed.

(** The no-arbitrage identity [q * u + (1 - q) * d = R]. *)
Lemma prob_martingale (T r sigma : R) (N : Z) :
  up T sigma N - down T sigma N <> 0 ->
  prob T r sigma N * up T sigma N + (1 - prob T r sigma N) * down T sigma N
  = discount T r N.
Proof.
  intros Hne. unfold prob. field. assumption.
Qed.

(** [q] lies in [0, 1] exactly when [d <= R <= u], for [d < u]. *)
Lemma prob_bounds (T r sigma : R) (N : Z) :
  down T sigma N < up T sigma N ->
  (0 <= prob T r sigma N <= 1
   <-> down T sigma N <= discount T r N <= up T sigma N).
Proof.
  intros Hlt. unfold prob.
  set (w := up T sigma N - down T sigma N).
  assert (Hw : 0 < w) by (unfold w; lra).
  pose proof (Rinv_0_lt_compat _ Hw) as Hinv.
  assert (Hone : w * / w = 1) by (apply Rinv_r; lra).
  unfold Rdiv. split.
  - intros [H0 H1].
    assert (0 <= (discount T r N - down T sigma N) * / w * w) by nra.
    assert ((discount T r N - down T sigma N) * / w * w <= w) by nra.
    assert (E : (discount T r N - down T sigma N) * / w * w
                = discount T r N - down T sigma N) by (field; lra).
    rewrite E in *. unfold w in *. lra.
  - intros [H0 H1]. split.
    + apply Rmult_le_pos; lra.
    + assert ((discount T r N - down T sigma N) * / w <= w * / w); [|lra].
      apply Rmult_le_compat_r; [lra | unfold w; lra].
Qed.

(** A rate that is small against the volatility leaves no arbitrage:
    [|r| * sqrt(delta_t) <= sigma] gives [d <= R <= u]. *)
Lemma rate_between_factors (T r sigma : R) (N : Z) :
  0 < T -> (1 <= N)%Z -> Rabs r * sqrt (delta_t T N) <= sigma ->
  down T sigma N <= discount T r N <= up T sigma N.
Proof.
  intros HT HN Hr.
  pose proof (delta_t_pos T N HT HN) as Hdt.
  pose proof (sqrt_lt_R0 _ Hdt) as Hsq.
  assert (Hsquare : sqrt (delta_t T N) * sqrt (delta_t T N) = delta_t T N)
    by (apply sqrt_sqrt; lra).
  assert (Hle : forall x y, x <= y -> exp x <= exp y).
  { intros x y [Hlt| ->]; [left; apply exp_increasing; assumption | right; reflexivity]. }
  set (s := sqrt (delta_t T N)) in *.
  assert (Habs : - (sigma * s) <= r * delta_t T N <= sigma * s).
  { rewrite <- Hsquare. revert Hr. unfold Rabs. destruct (Rcase_abs r); intros Hr; nra. }
  unfold down, discount, up. fold s. split; apply Hle; lra.
Qed.

(** The parameters T = 1, r = 0.05, sigma = 0.2, N = 3 leave no arbitrage. *)
Lemma sample_rate_between_factors :
  down 1 (2 / 10) 3 <= discount 1 (5 / 100) 3 <= up 1 (2 / 10) 3.
Proof.
  apply rate_between_factors; [lra | lia |].
  assert (Hs : sqrt (delta_t 1 3) <= 1).
  { apply Rle_trans with (sqrt 1); [|rewrite sqrt_1; lra].
    apply sqrt_le_1_alt. unfold delta_t. lra. }
  pose proof (sqrt_pos (delta_t 1 3)) as Hp.
  rewrite Rabs_right by lra. nra.
Qed.

End Factors.

(** ** The pricer on its parameters *)

Module Pricer.
Import Np NpFacts Lattice Factors.

Lemma stock_prices_some (S0 T sigma : R) (N : Z) :
  0 < T -> (1 <= N)%Z ->
  stock_prices S0 T sigma N = Some (lattice_prices S0 T sigma N).
Proof.
  intros HT HN. unfold stock_prices.
  rewrite up_down_some by (left; apply delta_t_pos; assumption).
  reflexivity.
Qed.

Lemma option_values_some (S0 K T r sigma : R) (N : Z) (k : kind) :
  0 < T -> sigma <> 0 -> (1 <= N)%Z ->
  option_values (stock_prices S0 T sigma N) K T r sigma N k
  = Some (lattice_values S0 K T r sigma N k).
Proof.
  intros HT Hs HN. unfold option_values.
  rewrite stock_prices_some, risk_neutral_some by assumption.
  reflexivity.
Qed.

Lemma option_values_none (sp : option grid) (K T r sigma : R) (N : Z) (k : kind) :
  (1 <= N)%Z -> T <= 0 \/ sigma = 0 -> option_values sp K T r sigma N k = None.
Proof.
  intros HN Hdeg. unfold option_values.
  rewrite risk_neutral_none by assumption.
  destruct sp; reflexivity.
Qed.

Lemma steps_tests (N : Z) :
  (1 <= N)%Z -> (N =? 0)%Z = false /\ (N + 1 <? 0)%Z = false /\ (N + 1 =? 0)%Z = false.
Proof. intros HN. repeat split; lia. Qed.

Lemma pricer_numeric (S0 K T r sigma : R) (N : Z) (k : kind) :
  0 < T -> sigma <> 0 -> (1 <= N)%Z ->
  binomial_option_pricer S0 K T r sigma N (option_type_of k)
  = Returned (Num (get (lattice_values S0 K T r sigma N k) 0 0)).
Proof.
  intros HT Hs HN. unfold binomial_option_pricer.
  destruct (steps_tests N HN) as (-> & -> & ->).
  rewrite parse_option_type_of. cbv zeta.
  rewrite option_values_some by assumption. reflexivity.
Qed.

Lemma pricer_nan (S0 K T r sigma : R) (N : Z) (k : kind) :
  (1 <= N)%Z -> T <= 0 \/ sigma = 0 ->
  binomial_option_pricer S0 K T r sigma N (option_type_of k) = Returned NaN.
Proof.
  intros HN Hdeg. unfold binomial_option_pricer.
  destruct (steps_tests N HN) as (-> & -> & ->).
  rewrite parse_option_type_of. cbv zeta.
  rewrite option_values_none by assumption. reflexivity.
Qed.

Lemma pricer_bad_type (S0 K T r sigma : R) (N : Z) (s : string) :
  (1 <= N)%Z -> parse_option_type s = None ->
  binomial_option_pricer S0 K T r sigma N s
  = Raised (ValueError "Option type must be 'call' or 'put'").
Proof.
  intros HN Hs. unfold binomial_option_pricer.
  destruct (steps_tests N HN) as (-> & -> & ->).
  rewrite Hs. reflexivity.
Qed.

Lemma pricer_no_steps (S0 K T r sigma : R) (N : Z) (s : string) :
  (N < 1)%Z ->
  binomial_option_pricer S0 K T r sigma N s
  = Raised (if (N =? 0)%Z then ZeroDivisionError
            else if (N =? -1)%Z then IndexError
            else ValueError "negative dimensions are not allowed").
Proof.
  intros HN. unfold binomial_option_pricer.
  destruct (Z.eqb_spec N 0) as [->|H0]; [reflexivity|].
  destruct (Z.ltb_spec (N + 1) 0) as [Hlt|Hge].
  - destruct (Z.eqb_spec N (-1)); [lia | reflexivity].
  - destruct (Z.eqb_spec (N + 1) 0) as [H1|H1]; [|lia].
    destruct (Z.eqb_spec N (-1)); [reflexivity | lia].
Qed.

Lemma lattice_prices_spec (S0 T sigma : R) (N : Z) :
  priced S0 (up T sigma N) (down T sigma N) (Z.to_nat N)
    (S (Z.to_nat N)) (lattice_prices S0 T sigma N).
Proof. apply PriceGrid.price_grid_spec. Qed.

Lemma lattice_prices_square (S0 T sigma : R) (N : Z) :
  square (Z.to_nat N + 1) (lattice_prices S0 T sigma N).
Proof. apply lattice_prices_spec. Qed.

Lemma lattice_values_terminal (S0 K T r sigma : R) (N : Z) (k : kind) (j : nat) :
  (j <= Z.to_nat N)%nat ->
  get (lattice_values S0 K T r sigma N k) (Z.to_nat N) j
  = payoff k K (get (lattice_prices S0 T sigma N) (Z.to_nat N) j).
Proof.
  apply (ValueGrid.european_grid k K _ _ _ _ (lattice_prices_square S0 T sigma N)).
Qed.

Lemma lattice_values_node (S0 K T r sigma : R) (N : Z) (k : kind) (i j : nat) :
  (i < Z.to_nat N)%nat -> (j <= i)%nat ->
  get (lattice_values S0 K T r sigma N k) i j
  = (prob T r sigma N * get (lattice_values S0 K T r sigma N k) (S i) j
     + (1 - prob T r sigma N) * get (lattice_values S0 K T r sigma N k) (S i) (S j))
    / discount T r N.
Proof.
  intros Hi Hj.
  replace (S i) with (i + 1)%nat by lia.
  replace (S j) with (j + 1)%nat by lia.
  apply (ValueGrid.european_grid k K _ _ _ _ (lattice_prices_square S0 T sigma N));
    assumption.
Qed.

(** Induction from the last layer back to the root. *)
Lemma lattice_induction (n : nat) (P : nat -> nat -> Prop) :
  (forall j, (j <= n)%nat -> P n j) ->
  (forall i j, (i < n)%nat -> (j <= i)%nat -> P (S i) j -> P (S i) (S j) -> P i j) ->
  forall i j, (j <= i <= n)%nat -> P i j.
Proof.
  intros Hlast Hstep i j Hij.
  remember (n - i)%nat as m eqn:Hm.
  revert i j Hij Hm. induction m as [|m IH]; intros i j Hij Hm.
  - assert (i = n) by lia. subst i. apply Hlast. lia.
  - apply Hstep; try lia; apply IH; lia.
Qed.

End Pricer.

(** ** Values on the lattice *)

Module Values.
Import Np NpFacts Lattice Factors Pricer.

Lemma payoff_nonneg (k : kind) (K s : R) : 0 <= payoff k K s.
Proof. destruct k; apply Rmax_l. Qed.

Lemma lattice_prices_node (S0 T sigma : R) (N : Z) (i j : nat) :
  (j <= i <= Z.to_nat N)%nat ->
  get (lattice_prices S0 T sigma N) i j
  = node_price S0 (up T sigma N) (down T sigma N) i j.
Proof.
  intros Hij. apply (lattice_prices_spec S0 T sigma N). lia.
Qed.

Section Nonnegative.
Variables (S0 K T r sigma : R) (N : Z) (k : kind).
Hypothesis Hq : 0 <= prob T r sigma N <= 1.

Lemma lattice_values_nonneg (i j : nat) :
  (j <= i <= Z.to_nat N)%nat -> 0 <= get (lattice_values S0 K T r sigma N k) i j.
Proof.
  revert i j. apply lattice_induction.
  - intros j Hj. rewrite lattice_values_terminal by assumption. apply payoff_nonneg.
  - intros i j Hi Hj Hup Hdown. rewrite lattice_values_node by assumption.
    pose proof (discount_pos T r N) as HR.
    apply Rmult_le_pos.
    + apply Rplus_le_le_0_compat; apply Rmult_le_pos; lra.
    + left. apply Rinv_0_lt_compat. assumption.
Qed.

End Nonnegative.

(** Where no node of the last layer pays, every value is zero. *)
Lemma lattice_values_zero (S0 K T r sigma : R) (N : Z) (k : kind) :
  (forall j, (j <= Z.to_nat N)%nat ->
     payoff k K (get (lattice_prices S0 T sigma N) (Z.to_nat N) j) = 0) ->
  forall i j, (j <= i <= Z.to_nat N)%nat ->
    get (lattice_values S0 K T r sigma N k) i j = 0.
Proof.
  intros Hpay. apply lattice_induction.
  - intros j Hj. rewrite lattice_values_terminal by assumption. apply Hpay. assumption.
  - intros i j Hi Hj Hup Hdown. rewrite lattice_values_node by assumption.
    rewrite Hup, Hdown. unfold Rdiv. ring.
Qed.

(** A convex combination of two values, discounted by a positive factor,
    grows with each value. *)
Lemma discounted_mean_le (q Rf a b a' b' : R) :
  0 <= q <= 1 -> 0 < Rf -> a <= a' -> b <= b' ->
  (q * a + (1 - q) * b) / Rf <= (q * a' + (1 - q) * b') / Rf.
Proof.
  intros Hq HR Ha Hb. unfold Rdiv.
  apply Rmult_le_compat_r; [left; apply Rinv_0_lt_compat; assumption | nra].
Qed.

Lemma discounted_mean_lt (q Rf a b a' b' : R) :
  0 < Rf -> q * a + (1 - q) * b < q * a' + (1 - q) * b' ->
  (q * a + (1 - q) * b) / Rf < (q * a' + (1 - q) * b') / Rf.
Proof.
  intros HR Hlt. unfold Rdiv.
  apply Rmult_lt_compat_r; [apply Rinv_0_lt_compat; assumption | assumption].
Qed.

(** Two contracts on one lattice: the values are ordered as the payoffs of
    the last layer are. *)
Section Ordered.
Variables (S0 T r sigma : R) (N : Z).
Variables (k1 k2 : kind) (K1 K2 : R).
Hypothesis Hq : 0 <= prob T r sigma N <= 1.
Hypothesis Hpay : forall s, payoff k1 K1 s <= payoff k2 K2 s.

Let V1 := lattice_values S0 K1 T r sigma N k1.
Let V2 := lattice_values S0 K2 T r sigma N k2.
Let sp := lattice_prices S0 T sigma N.
Let n := Z.to_nat N.

Lemma lattice_values_le (i j : nat) :
  (j <= i <= n)%nat -> get V1 i j <= get V2 i j.
Proof.
  revert i j. apply lattice_induction.
  - intros j Hj. unfold V1, V2, n.
    rewrite (lattice_values_terminal S0 K1), (lattice_values_terminal S0 K2) by assumption. apply Hpay.
  - intros i j Hi Hj Hup Hdown. unfold V1, V2.
    rewrite (lattice_values_node S0 K1), (lattice_values_node S0 K2) by assumption.
    apply discounted_mean_le; try assumption. apply discount_pos.
Qed.

(** A strictly larger payoff at the all-up node of the last layer reaches
    the root when [q > 0]. *)
Lemma lattice_values_lt_top (i : nat) :
  0 < prob T r sigma N ->
  payoff k1 K1 (get sp n 0) < payoff k2 K2 (get sp n 0) ->
  (i <= n)%nat -> get V1 i 0 < get V2 i 0.
Proof.
  intros Hq0 Htop Hi.
  cut (forall i j, (j <= i <= n)%nat -> j = 0%nat -> get V1 i j < get V2 i j).
  { intros H. apply H; [lia | reflexivity]. }
  clear i Hi.
  apply (lattice_induction n (fun i j => j = 0%nat -> get V1 i j < get V2 i j)).
  - intros j Hj ->. unfold V1, V2, n.
    rewrite (lattice_values_terminal S0 K1), (lattice_values_terminal S0 K2) by lia. exact Htop.
  - intros i j Hi Hj Hup _ ->. unfold V1, V2.
    rewrite (lattice_values_node S0 K1), (lattice_values_node S0 K2) by (assumption || lia).
    apply discounted_mean_lt; [apply discount_pos|].
    specialize (Hup eq_refl).
    pose proof (lattice_values_le (S i) 1) as Hdown.
    fold V1 V2. unfold n in *. assert (H1 : get V1 (S i) 1 <= get V2 (S i) 1) by (apply Hdown; lia).
    nra.
Qed.

(** A strictly larger payoff at the all-down node of the last layer reaches
    the root when [q < 1]. *)
Lemma lattice_values_lt_bottom (i : nat) :
  prob T r sigma N < 1 ->
  payoff k1 K1 (get sp n n) < payoff k2 K2 (get sp n n) ->
  (i <= n)%nat -> get V1 i i < get V2 i i.
Proof.
  intros Hq1 Hbot Hi.
  cut (forall i j, (j <= i <= n)%nat -> j = i -> get V1 i j < get V2 i j).
  { intros H. apply H; [lia | reflexivity]. }
  clear i Hi.
  apply (lattice_induction n (fun i j => j = i -> get V1 i j < get V2 i j)).
  - intros j Hj ->. unfold V1, V2, n.
    rewrite (lattice_values_terminal S0 K1), (lattice_values_terminal S0 K2) by lia. exact Hbot.
  - intros i j Hi Hj _ Hdown ->. unfold V1, V2.
    rewrite (lattice_values_node S0 K1), (lattice_values_node S0 K2) by (assumption || lia).
    apply discounted_mean_lt; [apply discount_pos|].
    specialize (Hdown eq_refl).
    pose proof (lattice_values_le (S i) i) as Hup.
    fold V1 V2. unfold n in *. assert (H1 : get V1 (S i) i <= get V2 (S i) i) by (apply Hup; lia).
    nra.
Qed.

End Ordered.

(** The payoff rules in the strike. *)
Lemma payoff_call_le (K1 K2 s : R) : K1 <= K2 -> payoff Call K2 s <= payoff Call K1 s.
Proof.
  intros HK. simpl. apply Rmax_case; [apply Rmax_l|].
  apply Rle_trans with (s - K1); [lra | apply Rmax_r].
Qed.

Lemma payoff_put_le (K1 K2 s : R) : K1 <= K2 -> payoff Put K1 s <= payoff Put K2 s.
Proof.
  intros HK. simpl. apply Rmax_case; [apply Rmax_l|].
  apply Rle_trans with (K2 - s); [lra | apply Rmax_r].
Qed.

Lemma payoff_call_lt (K1 K2 s : R) :
  K1 < K2 -> K1 < s -> payoff Call K2 s < payoff Call K1 s.
Proof.
  intros HK Hs. simpl. rewrite (Rmax_right 0 (s - K1)) by lra.
  apply Rmax_case; lra.
Qed.

Lemma payoff_put_lt (K1 K2 s : R) :
  K1 < K2 -> s < K2 -> payoff Put K1 s < payoff Put K2 s.
Proof.
  intros HK Hs. simpl. rewrite (Rmax_right 0 (K2 - s)) by lra.
  apply Rmax_case; lra.
Qed.

Lemma payoff_parity (K s : R) : payoff Call K s - payoff Put K s = s - K.
Proof.
  simpl. destruct (Rle_dec K s) as [Hle|Hgt].
  - rewrite (Rmax_right 0 (s - K)), (Rmax_left 0 (K - s)) by lra. ring.
  - rewrite (Rmax_left 0 (s - K)), (Rmax_right 0 (K - s)) by lra. ring.
Qed.

(** Call minus put at every node: the stock price less the strike
    discounted over the layers that remain. *)
Lemma lattice_parity (S0 K T r sigma : R) (N : Z) (i j : nat) :
  up T sigma N - down T sigma N <> 0 ->
  (j <= i <= Z.to_nat N)%nat ->
  get (lattice_values S0 K T r sigma N Call) i j
  - get (lattice_values S0 K T r sigma N Put) i j
  = node_price S0 (up T sigma N) (down T sigma N) i j
    - K * / discount T r N ^ (Z.to_nat N - i).
Proof.
  intros Hud. revert i j.
  apply (lattice_induction (Z.to_nat N) (fun i j =>
    get (lattice_values S0 K T r sigma N Call) i j
    - get (lattice_values S0 K T r sigma N Put) i j
    = node_price S0 (up T sigma N) (down T sigma N) i j
      - K * / discount T r N ^ (Z.to_nat N - i))).
  - intros j Hj.
    rewrite (lattice_values_terminal S0 K T r sigma N Call),
            (lattice_values_terminal S0 K T r sigma N Put) by assumption.
    rewrite payoff_parity, lattice_prices_node by lia.
    rewrite Nat.sub_diag. simpl. field.
  - intros i j Hi Hj Hup Hdown.
    rewrite (lattice_values_node S0 K T r sigma N Call),
            (lattice_values_node S0 K T r sigma N Put) by assumption.
    pose proof (discount_pos T r N) as HR.
    pose proof (prob_martingale T r sigma N Hud) as Hm.
    rewrite PriceGrid.node_price_up_any in Hup by assumption.
    rewrite <- PriceGrid.node_price_down in Hdown.
    replace (Z.to_nat N - i)%nat with (S (Z.to_nat N - S i)) by lia.
    set (m := (Z.to_nat N - S i)%nat) in *.
    set (P := node_price S0 (up T sigma N) (down T sigma N) i j) in *.
    set (q := prob T r sigma N) in *.
    assert (Hpow : discount T r N ^ m <> 0) by (apply pow_nonzero; lra).
    transitivity ((q * (get (lattice_values S0 K T r sigma N Call) (S i) j
                        - get (lattice_values S0 K T r sigma N Put) (S i) j)
                   + (1 - q) * (get (lattice_values S0 K T r sigma N Call) (S i) (S j)
                        - get (lattice_values S0 K T r sigma N Put) (S i) (S j)))
                  / discount T r N).
    { field. lra. }
    rewrite Hup, Hdown.
    transitivity (((q * up T sigma N + (1 - q) * down T sigma N) * P
                   - K * / discount T r N ^ m) / discount T r N).
    { field. split; lra. }
    rewrite Hm. simpl. field. split; lra.
Qed.

(** The American grid of the specification: the payoff on layer [N], the
    larger of continuation and exercise below. *)
Lemma american_reads_later (k : kind) (K q Rf : R) (sp : grid) :
  reads_later_rows (american_node k K q Rf sp).
Proof.
  intros g1 g2 i j Hsame. unfold american_node.
  rewrite (ValueGrid.continuation_reads_later q Rf g1 g2 i j Hsame). reflexivity.
Qed.

Lemma american_values_terminal (S0 K T r sigma : R) (N : Z) (k : kind) (j : nat) :
  (j <= Z.to_nat N)%nat ->
  get (american_values S0 K T r sigma N k) (Z.to_nat N) j
  = payoff k K (get (lattice_prices S0 T sigma N) (Z.to_nat N) j).
Proof.
  intros Hj. unfold american_values.
  destruct (ValueGrid.backward_spec
              (american_node k K (prob T r sigma N) (discount T r N)
                 (lattice_prices S0 T sigma N))
              (Z.to_nat N)
              (terminal_payoff k K (lattice_prices S0 T sigma N) (Z.to_nat N)))
    as [_ Hterm _].
  - apply ValueGrid.terminal_payoff_square. apply lattice_prices_square.
  - apply american_reads_later.
  - etransitivity; [apply Hterm|].
    apply ValueGrid.terminal_payoff_row; [apply lattice_prices_square | assumption].
Qed.

Lemma american_values_node (S0 K T r sigma : R) (N : Z) (k : kind) (i j : nat) :
  (i < Z.to_nat N)%nat -> (j <= i)%nat ->
  get (american_values S0 K T r sigma N k) i j
  = Rmax ((prob T r sigma N * get (american_values S0 K T r sigma N k) (S i) j
           + (1 - prob T r sigma N) * get (american_values S0 K T r sigma N k) (S i) (S j))
          / discount T r N)
         (payoff k K (get (lattice_prices S0 T sigma N) i j)).
Proof.
  intros Hi Hj.
  replace (S i) with (i + 1)%nat by lia.
  replace (S j) with (j + 1)%nat by lia.
  unfold american_values.
  destruct (ValueGrid.backward_spec
              (american_node k K (prob T r sigma N) (discount T r N)
                 (lattice_prices S0 T sigma N))
              (Z.to_nat N)
              (terminal_payoff k K (lattice_prices S0 T sigma N) (Z.to_nat N)))
    as [_ _ Hnode].
  - apply ValueGrid.terminal_payoff_square. apply lattice_prices_square.
  - apply american_reads_later.
  - apply (Hnode i j); lia.
Qed.

Lemma american_ge_european (S0 K T r sigma : R) (N : Z) (k : kind) (i j : nat) :
  0 <= prob T r sigma N <= 1 ->
  (j <= i <= Z.to_nat N)%nat ->
  get (lattice_values S0 K T r sigma N k) i j
  <= get (american_values S0 K T r sigma N k) i j.
Proof.
  intros Hq. revert i j.
  apply (lattice_induction (Z.to_nat N) (fun i j =>
    get (lattice_values S0 K T r sigma N k) i j
    <= get (american_values S0 K T r sigma N k) i j)).
  - intros j Hj.
    rewrite lattice_values_terminal, american_values_terminal by assumption.
    apply Rle_refl.
  - intros i j Hi Hj Hup Hdown.
    rewrite lattice_values_node, american_values_node by assumption.
    eapply Rle_trans; [|apply Rmax_l].
    apply discounted_mean_le; try assumption. apply discount_pos.
Qed.

End Values.

(** ** The loops on a small lattice *)

(** Two steps of the stock price loop: row [i] holds [i + 1] prices, the
    all-up path first; the slots above the diagonal stay zero. *)
Example price_grid_two_steps (S0 u d : R) :
  price_grid S0 u d 2
  = [ [S0; 0; 0];
      [S0 * u; S0 * d; 0];
      [S0 * u * u; S0 * u * d; S0 * d * d] ].
Proof. reflexivity. Qed.

(** One step of the backward loop over the payoffs [a] and [b]. *)
Example discount_backward_one_step (q Rf a b : R) :
  discount_backward q Rf 1 [ [0; 0]; [a; b] ]
  = [ [(q * a + (1 - q) * b) / Rf; 0]; [a; b] ].
Proof. reflexivity. Qed.

(** ** Extreme strikes *)

Module Strike.
Import Np NpFacts Lattice Factors Pricer Values.

(** [0 < q < 1] between the factors, [d < R < u]. *)
Lemma prob_strict (T r sigma : R) (N : Z) :
  down T sigma N < discount T r N < up T sigma N ->
  0 < prob T r sigma N < 1.
Proof.
  intros [Hd Hu]. unfold prob.
  set (w := up T sigma N - down T sigma N).
  assert (Hw : 0 < w) by (unfold w; lra).
  pose proof (Rinv_0_lt_compat _ Hw) as Hinv.
  assert (Hone : w * / w = 1) by (apply Rinv_r; lra).
  unfold Rdiv. split.
  - apply Rmult_lt_0_compat; lra.
  - rewrite <- Hone. apply Rmult_lt_compat_r; [assumption | unfold w; lra].
Qed.

Section Extremes.
Variables (S0 u d : R) (n : nat).
Hypothesis HS : 0 < S0.
Hypothesis Hd : 0 < d.
Hypothesis Hdu : d <= u.

Lemma node_price_top : node_price S0 u d n 0 = S0 * u ^ n.
Proof. unfold node_price. rewrite Nat.sub_0_r. simpl. ring. Qed.

Lemma node_price_bottom : node_price S0 u d n n = S0 * d ^ n.
Proof. unfold node_price. rewrite Nat.sub_diag. simpl. ring. Qed.

Lemma node_price_le_top (j : nat) :
  (j <= n)%nat -> node_price S0 u d n j <= S0 * u ^ n.
Proof.
  intros Hj. unfold node_price.
  replace n with ((n - j) + j)%nat at 2 by lia. rewrite pow_add.
  assert (Hpow : d ^ j <= u ^ j) by (apply pow_incr; lra).
  assert (Hu : 0 < u ^ (n - j)) by (apply pow_lt; lra).
  rewrite Rmult_assoc. apply Rmult_le_compat_l; [lra|].
  apply Rmult_le_compat_l; lra.
Qed.

Lemma node_price_ge_bottom (j : nat) :
  (j <= n)%nat -> S0 * d ^ n <= node_price S0 u d n j.
Proof.
  intros Hj. unfold node_price.
  replace n with ((n - j) + j)%nat at 1 by lia. rewrite pow_add.
  assert (Hpow : d ^ (n - j) <= u ^ (n - j)) by (apply pow_incr; lra).
  assert (Hdj : 0 < d ^ j) by (apply pow_lt; lra).
  rewrite Rmult_assoc. apply Rmult_le_compat_l; [lra|].
  apply Rmult_le_compat_r; lra.
Qed.

End Extremes.

(** A call struck at or above the highest price of the last layer, and a
    put struck at or below the lowest, are worth nothing. *)
Lemma call_worthless (S0 K T r sigma : R) (N : Z) :
  0 < S0 -> 0 < T -> 0 < sigma -> (1 <= N)%Z ->
  S0 * up T sigma N ^ Z.to_nat N <= K ->
  get (lattice_values S0 K T r sigma N Call) 0 0 = 0.
Proof.
  intros HS HT Hs HN HK.
  destruct (down_lt_up T sigma N HT Hs HN) as [[Hd0 Hd1] Hu1].
  apply lattice_values_zero; [|lia].
  intros j Hj. rewrite lattice_prices_node by lia. simpl.
  apply Rmax_left.
  pose proof (node_price_le_top S0 (up T sigma N) (down T sigma N) (Z.to_nat N) HS Hd0) as Hle.
  specialize (Hle ltac:(lra) j Hj). lra.
Qed.

Lemma put_worthless (S0 K T r sigma : R) (N : Z) :
  0 < S0 -> 0 < T -> 0 < sigma -> (1 <= N)%Z ->
  K <= S0 * down T sigma N ^ Z.to_nat N ->
  get (lattice_values S0 K T r sigma N Put) 0 0 = 0.
Proof.
  intros HS HT Hs HN HK.
  destruct (down_lt_up T sigma N HT Hs HN) as [[Hd0 Hd1] Hu1].
  apply lattice_values_zero; [|lia].
  intros j Hj. rewrite lattice_prices_node by lia. simpl.
  apply Rmax_left.
  pose proof (node_price_ge_bottom S0 (up T sigma N) (down T sigma N) (Z.to_nat N) HS Hd0) as Hge.
  specialize (Hge ltac:(lra) j Hj). lra.
Qed.

End Strike.

(** ** Properties of the lattice pricer *)

(** C3.  For valid parameters (S > 0, K > 0, T > 0, sigma > 0, N >= 1) the
    stock price grid filled by the incremental loop holds, at every layer
    [i] in [0 .. N] and node [j] in [0 .. i], the price
    [S * u^(i-j) * d^j], with [u = exp(sigma * sqrt(T/N))] and
    [d = exp(-sigma * sqrt(T/N))] (in exact arithmetic). *)
Theorem stock_prices_recombine (S0 K T sigma : R) (N : Z) :
  0 < S0 -> 0 < K -> 0 < T -> 0 < sigma -> (1 <= N)%Z ->
  exists g, stock_prices S0 T sigma N = Some g /\
    forall i j, (j <= i <= Z.to_nat N)%nat ->
      Np.get g i j
      = S0 * exp (sigma * sqrt (T / IZR N)) ^ (i - j)
           * exp (- sigma * sqrt (T / IZR N)) ^ j.
Proof.
  intros _ _ HT _ HN. exists (lattice_prices S0 T sigma N). split.
  - apply Pricer.stock_prices_some; assumption.
  - intros i j Hij. apply Values.lattice_prices_node. assumption.
Qed.

Lemma stock_prices_recombine_witness :
  exists g, stock_prices 100 1 (2 / 10) 3 = Some g /\
    forall i j, (j <= i <= Z.to_nat 3)%nat ->
      Np.get g i j
      = 100 * exp (2 / 10 * sqrt (1 / IZR 3)) ^ (i - j)
            * exp (- (2 / 10) * sqrt (1 / IZR 3)) ^ j.
Proof.
  apply (stock_prices_recombine 100 105 1 (2 / 10) 3); lra || lia.
Defined.

(** C4.  For valid parameters with N >= 1, layer [N] of the option value
    grid is, node by node over [j = 0 .. N], [max(0, S_{N,j} - K)] for a
    call and [max(0, K - S_{N,j})] for a put, where [S_{N,j}] is the stock
    price at node [(N, j)]. *)
Theorem terminal_layer_is_payoff (S0 K T r sigma : R) (N : Z) (k : kind) :
  0 < S0 -> 0 < K -> 0 < T -> 0 < sigma -> (1 <= N)%Z ->
  exists sp g,
    stock_prices S0 T sigma N = Some sp /\
    option_values (Some sp) K T r sigma N k = Some g /\
    forall j, (j <= Z.to_nat N)%nat ->
      Np.get g (Z.to_nat N) j
      = match k with
        | Call => Rmax 0 (Np.get sp (Z.to_nat N) j - K)
        | Put => Rmax 0 (K - Np.get sp (Z.to_nat N) j)
        end.
Proof.
  intros _ _ HT Hs HN.
  exists (lattice_prices S0 T sigma N), (lattice_values S0 K T r sigma N k).
  repeat split.
  - apply Pricer.stock_prices_some; assumption.
  - rewrite <- (Pricer.stock_prices_some S0 T sigma N HT HN).
    apply Pricer.option_values_some; [assumption | lra | assumption].
  - intros j Hj. rewrite Pricer.lattice_values_terminal by assumption.
    destruct k; reflexivity.
Qed.

Lemma terminal_layer_is_payoff_witness :
  exists sp g,
    stock_prices 100 1 (2 / 10) 3 = Some sp /\
    option_values (Some sp) 105 1 (5 / 100) (2 / 10) 3 Put = Some g /\
    forall j, (j <= Z.to_nat 3)%nat ->
      Np.get g (Z.to_nat 3) j = Rmax 0 (105 - Np.get sp (Z.to_nat 3) j).
Proof.
  apply (terminal_layer_is_payoff 100 105 1 (5 / 100) (2 / 10) 3 Put); lra || lia.
Defined.

(** C2.  For S > 0, K > 0, T > 0, sigma > 0, N >= 1 and option type call
    or put, with [u = exp(sigma*sqrt(T/N))], [d = exp(-sigma*sqrt(T/N))],
    [R = exp(r*T/N)] and [q = (R-d)/(u-d)]: the last layer of the value
    grid holds the payoff at the node prices,
    [V(N,j) = payoff(S * u^(N-j) * d^j)] for [j] from [0] to [N]; every node
    below it holds the continuation value
    [V(i,j) = (q * V(i+1,j) + (1-q) * V(i+1,j+1)) / R], for [i] from [N-1]
    down to [0] and [j] from [0] to [i], with nothing else compared to it;
    and the pricer returns [V(0,0)].  The last layer and the recurrence
    together fix every [V(i,j)], [j <= i <= N], and so the returned
    price. *)
Theorem backward_pass_is_continuation (S0 K T r sigma : R) (N : Z) (k : kind) :
  0 < S0 -> 0 < K -> 0 < T -> 0 < sigma -> (1 <= N)%Z ->
  let u := exp (sigma * sqrt (T / IZR N)) in
  let d := exp (- sigma * sqrt (T / IZR N)) in
  let Rf := exp (r * (T / IZR N)) in
  let q := (Rf - d) / (u - d) in
  exists V,
    option_values (stock_prices S0 T sigma N) K T r sigma N k = Some V /\
    (forall j, (j <= Z.to_nat N)%nat ->
       Np.get V (Z.to_nat N) j = payoff k K (S0 * u ^ (Z.to_nat N - j) * d ^ j)) /\
    (forall i j, (i < Z.to_nat N)%nat -> (j <= i)%nat ->
       Np.get V i j
       = (q * Np.get V (i + 1) j + (1 - q) * Np.get V (i + 1) (j + 1)) / Rf) /\
    binomial_option_pricer S0 K T r sigma N (option_type_of k)
    = Returned (Num (Np.get V 0 0)).
Proof.
  intros _ _ HT Hs HN u d Rf q.
  exists (lattice_values S0 K T r sigma N k).
  split; [apply Pricer.option_values_some; [assumption | lra | assumption]|].
  split; [|split].
  - intros j Hj. rewrite Pricer.lattice_values_terminal by assumption.
    rewrite Values.lattice_prices_node by lia. reflexivity.
  - intros i j Hi Hj.
    replace (i + 1)%nat with (S i) by lia. replace (j + 1)%nat with (S j) by lia.
    apply Pricer.lattice_values_node; assumption.
  - apply Pricer.pricer_numeric; [assumption | lra | assumption].
Qed.

Lemma backward_pass_is_continuation_witness :
  exists V,
    option_values (stock_prices 100 1 (2 / 10) 3) 105 1 (5 / 100) (2 / 10) 3 Call = Some V /\
    Np.get V 3 0 = Rmax 0 (100 * exp (2 / 10 * sqrt (1 / 3)) ^ 3 - 105) /\
    binomial_option_pricer 100 105 1 (5 / 100) (2 / 10) 3 "call"
    = Returned (Num (Np.get V 0 0)).
Proof.
  destruct (backward_pass_is_continuation 100 105 1 (5 / 100) (2 / 10) 3 Call)
    as [V [HV [Hlast [_ Hret]]]]; try lra; try lia.
  exists V. split; [exact HV|]. split; [|exact Hret].
  etransitivity; [apply (Hlast 0%nat); simpl; lia|].
  simpl. f_equal. ring.
Defined.

(** C10.  For S > 0, K > 0, T > 0, sigma >= 0, N >= 1, option type call or
    put, and a risk-neutral probability [q = (R-d)/(u-d)] that lies in
    [[0,1]] (with R > 0), every entry [(i,j)], [j <= i], of the option value
    grid left by the payoff and the backward pass is nonnegative, and so is
    the returned price [V(0,0)]. *)
Theorem option_values_nonnegative (S0 K T r sigma : R) (N : Z) (k : kind) (q : R) :
  0 < S0 -> 0 < K -> 0 < T -> 0 <= sigma -> (1 <= N)%Z ->
  risk_neutral T r sigma N = Some q -> 0 <= q <= 1 -> 0 < discount T r N ->
  exists V,
    option_values (stock_prices S0 T sigma N) K T r sigma N k = Some V /\
    (forall i j, (j <= i <= Z.to_nat N)%nat -> 0 <= Np.get V i j) /\
    binomial_option_pricer S0 K T r sigma N (option_type_of k)
    = Returned (Num (Np.get V 0 0)) /\
    0 <= Np.get V 0 0.
Proof.
  intros _ _ HT Hs0 HN Hrn Hq _.
  assert (Hs : sigma <> 0).
  { intros Hz. rewrite Factors.risk_neutral_none in Hrn by (assumption || (right; exact Hz)).
    discriminate. }
  rewrite Factors.risk_neutral_some in Hrn by assumption.
  injection Hrn as <-.
  exists (lattice_values S0 K T r sigma N k). repeat split.
  - apply Pricer.option_values_some; assumption.
  - intros i j Hij. apply Values.lattice_values_nonneg; assumption.
  - apply Pricer.pricer_numeric; assumption.
  - apply Values.lattice_values_nonneg; [assumption | lia].
Qed.

Lemma option_values_nonnegative_witness :
  exists V,
    option_values (stock_prices 1 1 1 1) 1 1 0 1 1 Put = Some V /\
    binomial_option_pricer 1 1 1 0 1 1 "put" = Returned (Num (Np.get V 0 0)) /\
    0 <= Np.get V 0 0.
Proof.
  assert (HT : 0 < 1) by lra.
  assert (HN : (1 <= 1)%Z) by lia.
  destruct (Factors.down_lt_up 1 1 1 HT HT HN) as [[Hd0 Hd1] Hu1].
  assert (HR : discount 1 0 1 = 1).
  { unfold discount. rewrite Rmult_0_l. apply exp_0. }
  destruct (option_values_nonnegative 1 1 1 0 1 1 Put (prob 1 0 1 1))
    as [V [HV [_ [Hret Hroot]]]]; try lra; try lia.
  - apply Factors.risk_neutral_some; [lra | lra | lia].
  - apply Factors.prob_bounds; [lra | rewrite HR; lra].
  - exists V. repeat split; assumption.
Defined.

(** C5.  For shared valid parameters (S > 0, K > 0, T > 0, sigma > 0,
    N >= 1) the price of the call less the price of the put is
    [S - K * R^(-N)], with [R = exp(r*T/N)] (in exact arithmetic). *)
Theorem put_call_parity (S0 K T r sigma : R) (N : Z) :
  0 < S0 -> 0 < K -> 0 < T -> 0 < sigma -> (1 <= N)%Z ->
  exists call_price put_price,
    binomial_option_pricer S0 K T r sigma N "call" = Returned (Num call_price) /\
    binomial_option_pricer S0 K T r sigma N "put" = Returned (Num put_price) /\
    call_price - put_price = S0 - K * / exp (r * (T / IZR N)) ^ Z.to_nat N.
Proof.
  intros _ _ HT Hs HN.
  exists (Np.get (lattice_values S0 K T r sigma N Call) 0 0),
         (Np.get (lattice_values S0 K T r sigma N Put) 0 0).
  repeat split.
  - apply (Pricer.pricer_numeric S0 K T r sigma N Call); [assumption | lra | assumption].
  - apply (Pricer.pricer_numeric S0 K T r sigma N Put); [assumption | lra | assumption].
  - rewrite Values.lattice_parity.
    + unfold Lattice.node_price, discount, delta_t. rewrite !Nat.sub_0_r. simpl. ring.
    + apply Factors.up_neq_down; [assumption | lra | assumption].
    + lia.
Qed.

Lemma put_call_parity_witness :
  exists call_price put_price,
    binomial_option_pricer 100 105 1 (5 / 100) (2 / 10) 3 "call" = Returned (Num call_price) /\
    binomial_option_pricer 100 105 1 (5 / 100) (2 / 10) 3 "put" = Returned (Num put_price) /\
    call_price - put_price = 100 - 105 * / exp (5 / 100 * (1 / IZR 3)) ^ Z.to_nat 3.
Proof.
  apply (put_call_parity 100 105 1 (5 / 100) (2 / 10) 3); lra || lia.
Defined.

(** C9.  For identical valid parameters (S > 0, K > 0, T > 0, sigma > 0,
    N >= 1, no arbitrage [d <= R <= u], call or put) the price under
    American exercise, where every node below the last layer holds
    [max(C, intrinsic(i,j))], is never less than the price the pricer
    returns, where every such node holds the continuation value [C]. *)
Theorem american_not_below_european (S0 K T r sigma : R) (N : Z) (k : kind) :
  0 < S0 -> 0 < K -> 0 < T -> 0 < sigma -> (1 <= N)%Z ->
  down T sigma N <= discount T r N <= up T sigma N ->
  exists european_price,
    binomial_option_pricer S0 K T r sigma N (option_type_of k)
    = Returned (Num european_price) /\
    european_price <= Np.get (american_values S0 K T r sigma N k) 0 0.
Proof.
  intros _ _ HT Hs HN Hna.
  exists (Np.get (lattice_values S0 K T r sigma N k) 0 0). split.
  - apply Pricer.pricer_numeric; [assumption | lra | assumption].
  - apply Values.american_ge_european; [|lia].
    destruct (Factors.down_lt_up T sigma N HT Hs HN) as [[Hd0 Hd1] Hu1].
    apply Factors.prob_bounds; [lra | assumption].
Qed.

Lemma american_not_below_european_witness :
  exists european_price,
    binomial_option_pricer 1 1 1 0 1 1 "put" = Returned (Num european_price) /\
    european_price <= Np.get (american_values 1 1 1 0 1 1 Put) 0 0.
Proof.
  assert (HT : 0 < 1) by lra.
  assert (HN : (1 <= 1)%Z) by lia.
  destruct (Factors.down_lt_up 1 1 1 HT HT HN) as [[Hd0 Hd1] Hu1].
  assert (HR : discount 1 0 1 = 1).
  { unfold discount. rewrite Rmult_0_l. apply exp_0. }
  apply (american_not_below_european 1 1 1 0 1 1 Put); lra || lia.
Defined.

(** Where the parameters admit arbitrage, exercising early can lower the
    modelled American value: with S = 1, K = 1/2, T = 2, sigma = 1, N = 2
    and r = 2 the factor [R = e^2] exceeds [u = e], so [1 - q < 0]; the
    American put is worth 0 at the root and the price the pricer returns
    is positive.  Hence the bound on [R] in the comparison above. *)
Lemma american_below_european_under_arbitrage :
  up 2 1 2 < discount 2 2 2 /\
  exists european_price,
    binomial_option_pricer 1 (1 / 2) 2 2 1 2 "put" = Returned (Num european_price) /\
    Np.get (american_values 1 (1 / 2) 2 2 1 2 Put) 0 0 = 0 /\
    0 < european_price.
Proof.
  assert (HT : 0 < 2) by lra.
  assert (HN : (1 <= 2)%Z) by lia.
  assert (Hs : (1 : R) <> 0) by lra.
  assert (Hsq : sqrt (delta_t 2 2) = 1).
  { unfold delta_t. replace (2 / 2) with 1 by field. apply sqrt_1. }
  assert (Hu : up 2 1 2 = exp 1).
  { unfold up. rewrite Hsq. f_equal. ring. }
  assert (Hd : down 2 1 2 = / exp 1).
  { unfold down. rewrite Hsq, <- exp_Ropp. f_equal. ring. }
  assert (HR : exp 1 < discount 2 2 2).
  { unfold discount, delta_t. apply exp_increasing. lra. }
  assert (He : 2 < exp 1) by (pose proof (exp_ineq1 1 Hs); lra).
  assert (Hinv : 0 < / exp 1 < 1 / 2).
  { split; [apply Rinv_0_lt_compat; lra|].
    unfold Rdiv. rewrite Rmult_1_l. apply Rinv_lt_contravar; lra. }
  assert (Hone : exp 1 * / exp 1 = 1) by (apply Rinv_r; lra).
  assert (Hq : 1 < prob 2 2 1 2).
  { unfold prob. rewrite Hu, Hd.
    set (w := exp 1 - / exp 1). assert (Hw : 0 < w) by (unfold w; lra).
    pose proof (Rinv_0_lt_compat _ Hw) as Hwi.
    assert (Hw1 : w * / w = 1) by (apply Rinv_r; lra).
    assert (Hlt : w * / w < (discount 2 2 2 - / exp 1) * / w).
    { apply Rmult_lt_compat_r; [assumption | unfold w; lra]. }
    unfold Rdiv. lra. }
  pose proof (Factors.discount_pos 2 2 2) as HRpos.
  pose proof (Rinv_0_lt_compat _ HRpos) as HRi.
  set (q := prob 2 2 1 2) in *. set (Rf := discount 2 2 2) in *.
  set (d := / exp 1) in *.
  (* the stock prices that are read *)
  assert (P20 : Np.get (lattice_prices 1 2 1 2) 2 0 = exp 1 * exp 1).
  { rewrite Values.lattice_prices_node by (simpl; lia).
    unfold Lattice.node_price. rewrite Hu, Hd. simpl. ring. }
  assert (P21 : Np.get (lattice_prices 1 2 1 2) 2 1 = 1).
  { rewrite Values.lattice_prices_node by (simpl; lia).
    unfold Lattice.node_price. rewrite Hu, Hd. simpl. fold d.
    transitivity (exp 1 * d); [ring | exact Hone]. }
  assert (P22 : Np.get (lattice_prices 1 2 1 2) 2 2 = d * d).
  { rewrite Values.lattice_prices_node by (simpl; lia).
    unfold Lattice.node_price. rewrite Hu, Hd. simpl. fold d. ring. }
  assert (P10 : Np.get (lattice_prices 1 2 1 2) 1 0 = exp 1).
  { rewrite Values.lattice_prices_node by (simpl; lia).
    unfold Lattice.node_price. rewrite Hu, Hd. simpl. ring. }
  assert (P11 : Np.get (lattice_prices 1 2 1 2) 1 1 = d).
  { rewrite Values.lattice_prices_node by (simpl; lia).
    unfold Lattice.node_price. rewrite Hu, Hd. simpl. fold d. ring. }
  assert (P00 : Np.get (lattice_prices 1 2 1 2) 0 0 = 1).
  { rewrite Values.lattice_prices_node by (simpl; lia).
    unfold Lattice.node_price. simpl. ring. }
  assert (Hdd : 0 < d * d < 1 / 4) by nra.
  assert (Hee : 4 < exp 1 * exp 1) by nra.
  (* the payoffs of the last layer *)
  assert (F0 : payoff Put (1 / 2) (exp 1 * exp 1) = 0) by (simpl; apply Rmax_left; lra).
  assert (F1 : payoff Put (1 / 2) 1 = 0) by (simpl; apply Rmax_left; lra).
  assert (F2 : payoff Put (1 / 2) (d * d) = 1 / 2 - d * d) by (simpl; apply Rmax_right; lra).
  split; [rewrite Hu; exact HR|].
  exists (Np.get (lattice_values 1 (1 / 2) 2 2 1 2 Put) 0 0).
  split; [apply (Pricer.pricer_numeric _ _ _ _ _ _ Put); assumption|].
  split.
  - (* American *)
    assert (A20 : Np.get (american_values 1 (1 / 2) 2 2 1 2 Put) 2 0 = 0).
    { change 2%nat with (Z.to_nat 2) at 1.
      rewrite Values.american_values_terminal by (simpl; lia).
      change (Z.to_nat 2) with 2%nat. rewrite P20. exact F0. }
    assert (A21 : Np.get (american_values 1 (1 / 2) 2 2 1 2 Put) 2 1 = 0).
    { change 2%nat with (Z.to_nat 2) at 1.
      rewrite Values.american_values_terminal by (simpl; lia).
      change (Z.to_nat 2) with 2%nat. rewrite P21. exact F1. }
    assert (A22 : Np.get (american_values 1 (1 / 2) 2 2 1 2 Put) 2 2 = 1 / 2 - d * d).
    { change 2%nat with (Z.to_nat 2) at 1.
      rewrite Values.american_values_terminal by (simpl; lia).
      change (Z.to_nat 2) with 2%nat. rewrite P22. exact F2. }
    assert (A10 : Np.get (american_values 1 (1 / 2) 2 2 1 2 Put) 1 0 = 0).
    { rewrite Values.american_values_node by (simpl; lia).
      rewrite A20, A21, P10. fold q Rf. simpl payoff.
      rewrite (Rmax_left 0 (1 / 2 - exp 1)) by lra.
      apply Rmax_right. unfold Rdiv. nra. }
    assert (A11 : Np.get (american_values 1 (1 / 2) 2 2 1 2 Put) 1 1 = 1 / 2 - d).
    { rewrite Values.american_values_node by (simpl; lia).
      rewrite A21, A22, P11. fold q Rf. simpl payoff.
      rewrite (Rmax_right 0 (1 / 2 - d)) by lra.
      apply Rmax_right. unfold Rdiv.
      assert ((q * 0 + (1 - q) * (1 / 2 - d * d)) * / Rf <= 0); [|lra].
      assert (0 <= (q - 1) * (1 / 2 - d * d) * / Rf); [|lra].
      apply Rmult_le_pos; [apply Rmult_le_pos|]; lra. }
    rewrite Values.american_values_node by (simpl; lia).
    rewrite A10, A11, P00. fold q Rf. simpl payoff.
    rewrite (Rmax_left 0 (1 / 2 - 1)) by lra.
    apply Rmax_right. unfold Rdiv.
    assert (0 <= (q - 1) * (1 / 2 - d) * / Rf); [|lra].
    apply Rmult_le_pos; [apply Rmult_le_pos|]; lra.
  - (* European *)
    assert (V20 : Np.get (lattice_values 1 (1 / 2) 2 2 1 2 Put) 2 0 = 0).
    { change 2%nat with (Z.to_nat 2) at 1.
      rewrite Pricer.lattice_values_terminal by (simpl; lia).
      change (Z.to_nat 2) with 2%nat. rewrite P20. exact F0. }
    assert (V21 : Np.get (lattice_values 1 (1 / 2) 2 2 1 2 Put) 2 1 = 0).
    { change 2%nat with (Z.to_nat 2) at 1.
      rewrite Pricer.lattice_values_terminal by (simpl; lia).
      change (Z.to_nat 2) with 2%nat. rewrite P21. exact F1. }
    assert (V22 : Np.get (lattice_values 1 (1 / 2) 2 2 1 2 Put) 2 2 = 1 / 2 - d * d).
    { change 2%nat with (Z.to_nat 2) at 1.
      rewrite Pricer.lattice_values_terminal by (simpl; lia).
      change (Z.to_nat 2) with 2%nat. rewrite P22. exact F2. }
    rewrite Pricer.lattice_values_node by (simpl; lia).
    rewrite (Pricer.lattice_values_node _ _ _ _ _ _ _ 1 0) by (simpl; lia).
    rewrite (Pricer.lattice_values_node _ _ _ _ _ _ _ 1 1) by (simpl; lia).
    rewrite V20, V21, V22. fold q Rf.
    replace ((q * ((q * 0 + (1 - q) * 0) / Rf)
              + (1 - q) * ((q * 0 + (1 - q) * (1 / 2 - d * d)) / Rf)) / Rf)
      with ((q - 1) * (q - 1) * (1 / 2 - d * d) * / Rf * / Rf)
      by (unfold Rdiv; ring).
    repeat apply Rmult_lt_0_compat; lra.
Qed.

(** C8, as it holds: with S, T, r, sigma, N fixed and valid, no arbitrage
    included ([d < R < u]), and strikes [0 < K1 < K2], the call price at
    [K2] is not above the call price at [K1] and the put price at [K2] is
    not below the put price at [K1].  The call price falls strictly exactly
    when [K1 < S * u^N], the put price rises strictly exactly when
    [S * d^N < K2]; otherwise both prices are equal. *)
Theorem strike_monotone (S0 T r sigma : R) (N : Z) (K1 K2 : R) :
  0 < S0 -> 0 < T -> 0 < sigma -> (1 <= N)%Z -> 0 < K1 -> K1 < K2 ->
  down T sigma N < discount T r N < up T sigma N ->
  exists c1 c2 p1 p2,
    binomial_option_pricer S0 K1 T r sigma N "call" = Returned (Num c1) /\
    binomial_option_pricer S0 K2 T r sigma N "call" = Returned (Num c2) /\
    binomial_option_pricer S0 K1 T r sigma N "put" = Returned (Num p1) /\
    binomial_option_pricer S0 K2 T r sigma N "put" = Returned (Num p2) /\
    c2 <= c1 /\ p1 <= p2 /\
    (c2 < c1 <-> K1 < S0 * up T sigma N ^ Z.to_nat N) /\
    (p1 < p2 <-> S0 * down T sigma N ^ Z.to_nat N < K2).
Proof.
  intros HS HT Hs HN HK1 HK Hna.
  assert (Hs' : sigma <> 0) by lra.
  destruct (Strike.prob_strict T r sigma N Hna) as [Hq0 Hq1].
  assert (Hq : 0 <= prob T r sigma N <= 1) by lra.
  exists (Np.get (lattice_values S0 K1 T r sigma N Call) 0 0),
         (Np.get (lattice_values S0 K2 T r sigma N Call) 0 0),
         (Np.get (lattice_values S0 K1 T r sigma N Put) 0 0),
         (Np.get (lattice_values S0 K2 T r sigma N Put) 0 0).
  split; [apply (Pricer.pricer_numeric S0 K1 T r sigma N Call); assumption|].
  split; [apply (Pricer.pricer_numeric S0 K2 T r sigma N Call); assumption|].
  split; [apply (Pricer.pricer_numeric S0 K1 T r sigma N Put); assumption|].
  split; [apply (Pricer.pricer_numeric S0 K2 T r sigma N Put); assumption|].
  split; [|split; [|split]].
  - apply Values.lattice_values_le; [assumption | | lia].
    intros s. apply Values.payoff_call_le. lra.
  - apply Values.lattice_values_le; [assumption | | lia].
    intros s. apply Values.payoff_put_le. lra.
  - split.
    + intros Hlt.
      destruct (Rlt_le_dec K1 (S0 * up T sigma N ^ Z.to_nat N)) as [Hin|Hout];
        [assumption|].
      rewrite (Strike.call_worthless S0 K1), (Strike.call_worthless S0 K2) in Hlt
        by (assumption || lra).
      lra.
    + intros Hin.
      apply Values.lattice_values_lt_top; try assumption; try lia.
      * intros s. apply Values.payoff_call_le. lra.
      * rewrite Values.lattice_prices_node, Strike.node_price_top by lia.
        apply Values.payoff_call_lt; assumption.
  - split.
    + intros Hlt.
      destruct (Rlt_le_dec (S0 * down T sigma N ^ Z.to_nat N) K2) as [Hin|Hout];
        [assumption|].
      rewrite (Strike.put_worthless S0 K1), (Strike.put_worthless S0 K2) in Hlt
        by (assumption || lra).
      lra.
    + intros Hin.
      apply (Values.lattice_values_lt_bottom S0 T r sigma N Put Put K1 K2 Hq);
        try assumption; try lia.
      * intros s. apply Values.payoff_put_le. lra.
      * rewrite Values.lattice_prices_node, Strike.node_price_bottom by lia.
        apply Values.payoff_put_lt; assumption.
Qed.

Lemma strike_monotone_witness :
  exists c1 c2 p1 p2,
    binomial_option_pricer 1 1 1 0 1 1 "call" = Returned (Num c1) /\
    binomial_option_pricer 1 2 1 0 1 1 "call" = Returned (Num c2) /\
    binomial_option_pricer 1 1 1 0 1 1 "put" = Returned (Num p1) /\
    binomial_option_pricer 1 2 1 0 1 1 "put" = Returned (Num p2) /\
    c2 <= c1 /\ p1 <= p2.
Proof.
  assert (HT : 0 < 1) by lra.
  assert (HN : (1 <= 1)%Z) by lia.
  destruct (Factors.down_lt_up 1 1 1 HT HT HN) as [[Hd0 Hd1] Hu1].
  assert (HR : discount 1 0 1 = 1).
  { unfold discount. rewrite Rmult_0_l. apply exp_0. }
  destruct (strike_monotone 1 1 0 1 1 1 2)
    as (c1 & c2 & p1 & p2 & H1 & H2 & H3 & H4 & Hc & Hp & _); try lra; try lia.
  exists c1, c2, p1, p2. repeat split; assumption.
Defined.

(** C8, as stated, fails: with S = 1, T = 1, r = 0, sigma = 1, N = 1 the
    highest price of the last layer is [e < 3] and the lowest is
    [1/e > 0.2], so the calls struck at 3 and at 4 are both worth 0, and so
    are the puts struck at 0.1 and at 0.2. *)
Lemma strike_not_strictly_monotone :
  binomial_option_pricer 1 3 1 0 1 1 "call" = Returned (Num 0) /\
  binomial_option_pricer 1 4 1 0 1 1 "call" = Returned (Num 0) /\
  binomial_option_pricer 1 (1 / 10) 1 0 1 1 "put" = Returned (Num 0) /\
  binomial_option_pricer 1 (2 / 10) 1 0 1 1 "put" = Returned (Num 0).
Proof.
  assert (HT : 0 < 1) by lra.
  assert (HN : (1 <= 1)%Z) by lia.
  assert (Hs : (1 : R) <> 0) by lra.
  assert (Hsq : sqrt (delta_t 1 1) = 1).
  { unfold delta_t. replace (1 / 1) with 1 by field. apply sqrt_1. }
  assert (Hu : up 1 1 1 ^ Z.to_nat 1 <= 3).
  { unfold up. rewrite Hsq, Rmult_1_l. simpl. rewrite Rmult_1_r. apply exp_le_3. }
  assert (Hd : 1 / 3 <= down 1 1 1 ^ Z.to_nat 1).
  { unfold down. rewrite Hsq. simpl. rewrite Rmult_1_r.
    replace (- (1) * 1) with (- (1)) by ring. rewrite exp_Ropp.
    pose proof exp_le_3. pose proof (exp_pos 1).
    unfold Rdiv. rewrite Rmult_1_l. apply Rinv_le_contravar; assumption. }
  repeat split.
  - etransitivity; [apply (Pricer.pricer_numeric _ _ _ _ _ _ Call); assumption|].
    rewrite Strike.call_worthless by (lra || lia). reflexivity.
  - etransitivity; [apply (Pricer.pricer_numeric _ _ _ _ _ _ Call); assumption|].
    rewrite Strike.call_worthless by (lra || lia). reflexivity.
  - etransitivity; [apply (Pricer.pricer_numeric _ _ _ _ _ _ Put); assumption|].
    rewrite Strike.put_worthless by (lra || lia). reflexivity.
  - etransitivity; [apply (Pricer.pricer_numeric _ _ _ _ _ _ Put); assumption|].
    rewrite Strike.put_worthless by (lra || lia). reflexivity.
Qed.

(** Where the parameters admit arbitrage the order in the strike can turn
    round: with S = 1, T = 1, sigma = 1, N = 1 and r = 2 the factor
    [R = e^2] exceeds [u = e], so [q > 1], and the put struck at 2 is worth
    less than the put struck at 1.  The pricer does not reject such
    parameters. *)
Lemma put_falls_under_arbitrage :
  up 1 1 1 < discount 1 2 1 /\
  exists p1 p2,
    binomial_option_pricer 1 1 1 2 1 1 "put" = Returned (Num p1) /\
    binomial_option_pricer 1 2 1 2 1 1 "put" = Returned (Num p2) /\
    p2 < p1.
Proof.
  assert (HT : 0 < 1) by lra.
  assert (HN : (1 <= 1)%Z) by lia.
  assert (Hs : (1 : R) <> 0) by lra.
  assert (Hsq : sqrt (delta_t 1 1) = 1).
  { unfold delta_t. replace (1 / 1) with 1 by field. apply sqrt_1. }
  assert (Hu : up 1 1 1 = exp 1).
  { unfold up. rewrite Hsq. f_equal. ring. }
  assert (Hd : down 1 1 1 = / exp 1).
  { unfold down. rewrite Hsq, <- exp_Ropp. f_equal. ring. }
  assert (HR : exp 1 < discount 1 2 1).
  { unfold discount, delta_t. apply exp_increasing. lra. }
  assert (He : 2 < exp 1) by (pose proof (exp_ineq1 1 Hs); lra).
  assert (Hinv : 0 < / exp 1 < 1 / 2).
  { split; [apply Rinv_0_lt_compat; lra|].
    unfold Rdiv. rewrite Rmult_1_l. apply Rinv_lt_contravar; lra. }
  assert (Hq : 1 < prob 1 2 1 1).
  { unfold prob. rewrite Hu, Hd.
    set (w := exp 1 - / exp 1). assert (Hw : 0 < w) by (unfold w; lra).
    pose proof (Rinv_0_lt_compat _ Hw) as Hwi.
    assert (Hone : w * / w = 1) by (apply Rinv_r; lra).
    assert (Hlt : w * / w < (discount 1 2 1 - / exp 1) * / w).
    { apply Rmult_lt_compat_r; [assumption | unfold w; lra]. }
    unfold Rdiv. lra. }
  split; [rewrite Hu; exact HR|].
  exists (Np.get (lattice_values 1 1 1 2 1 1 Put) 0 0),
         (Np.get (lattice_values 1 2 1 2 1 1 Put) 0 0).
  split; [apply (Pricer.pricer_numeric _ _ _ _ _ _ Put); assumption|].
  split; [apply (Pricer.pricer_numeric _ _ _ _ _ _ Put); assumption|].
  assert (Hval : forall K, (/ exp 1) < K < exp 1 ->
            Np.get (lattice_values 1 K 1 2 1 1 Put) 0 0
            = (1 - prob 1 2 1 1) * (K - / exp 1) / discount 1 2 1).
  { intros K HK.
    rewrite Pricer.lattice_values_node by (simpl; lia).
    change 1%nat with (Z.to_nat 1).
    rewrite !Pricer.lattice_values_terminal by (simpl; lia).
    rewrite !Values.lattice_prices_node by (simpl; lia).
    unfold Lattice.node_price. rewrite Hu, Hd. simpl.
    rewrite Rmax_left, Rmax_right by lra. unfold Rdiv. ring. }
  rewrite !Hval by lra.
  pose proof (Rinv_0_lt_compat _ (Factors.discount_pos 1 2 1)) as HRi.
  unfold Rdiv. apply Rmult_lt_compat_r; [assumption | nra].
Qed.

(** C1, as it holds: the pricer validates none of S, K, T, sigma and the
    no-arbitrage condition.  With N >= 1 and option type call or put it
    raises nothing and returns a float for all other parameters (also for
    S <= 0, K <= 0, T <= 0, sigma < 0, and for d >= R or R >= u); the float
    is nan when T <= 0 or sigma = 0.  It raises for N < 1
    (ZeroDivisionError at N = 0 from [T / N], IndexError at N = -1 and
    ValueError for N < -1 from the allocation of the grid) and, with
    N >= 1, for an option type other than call and put (ValueError, after
    the stock price grid is filled). *)
Theorem pricer_outcomes (S0 K T r sigma : R) (N : Z) (option_type : string) :
  (N = 0%Z ->
     binomial_option_pricer S0 K T r sigma N option_type = Raised ZeroDivisionError) /\
  (N = (-1)%Z ->
     binomial_option_pricer S0 K T r sigma N option_type = Raised IndexError) /\
  ((N < -1)%Z ->
     binomial_option_pricer S0 K T r sigma N option_type
     = Raised (ValueError "negative dimensions are not allowed")) /\
  ((1 <= N)%Z -> option_type <> "call"%string -> option_type <> "put"%string ->
     binomial_option_pricer S0 K T r sigma N option_type
     = Raised (ValueError "Option type must be 'call' or 'put'")) /\
  ((1 <= N)%Z -> option_type = "call"%string \/ option_type = "put"%string ->
     exists v, binomial_option_pricer S0 K T r sigma N option_type = Returned v) /\
  ((1 <= N)%Z -> option_type = "call"%string \/ option_type = "put"%string ->
     T <= 0 \/ sigma = 0 ->
     binomial_option_pricer S0 K T r sigma N option_type = Returned NaN).
Proof.
  assert (Hkind : option_type = "call"%string \/ option_type = "put"%string ->
                  exists k, option_type = option_type_of k).
  { intros [->| ->]; [exists Call | exists Put]; reflexivity. }
  repeat split.
  - intros ->. reflexivity.
  - intros ->. reflexivity.
  - intros HN. rewrite Pricer.pricer_no_steps by lia.
    destruct (Z.eqb_spec N 0); [lia|]. destruct (Z.eqb_spec N (-1)); [lia | reflexivity].
  - intros HN Hc Hp. apply Pricer.pricer_bad_type; [assumption|].
    apply Factors.parse_option_type_none; assumption.
  - intros HN Hk. destruct (Hkind Hk) as [k ->].
    unfold binomial_option_pricer.
    destruct (Pricer.steps_tests N HN) as (-> & -> & ->).
    cbv zeta. rewrite Factors.parse_option_type_of.
    destruct (option_values _ K T r sigma N k); eexists; reflexivity.
  - intros HN Hk Hdeg. destruct (Hkind Hk) as [k ->].
    apply Pricer.pricer_nan; assumption.
Qed.

Lemma pricer_outcomes_witness :
  exists v, binomial_option_pricer (-5) (-1) (-1) 3 (-1) 2 "call" = Returned v.
Proof.
  apply (pricer_outcomes (-5) (-1) (-1) 3 (-1) 2 "call"); try lia.
  left. reflexivity.
Defined.

(** C1, as stated, fails: at S = 0 (K = 105, T = 1, r = 0.05, sigma = 0.2,
    N = 3, call) the pricer raises nothing and returns the number 0, and at
    sigma = -0.1 it returns a number as well. *)
Lemma no_validation_error :
  binomial_option_pricer 0 105 1 (5 / 100) (2 / 10) 3 "call" = Returned (Num 0) /\
  exists v,
    binomial_option_pricer 100 105 1 (5 / 100) (- (1 / 10)) 3 "call" = Returned (Num v).
Proof.
  split.
  - etransitivity; [apply (Pricer.pricer_numeric _ _ _ _ _ _ Call); lra || lia|].
    rewrite Values.lattice_values_zero; [reflexivity | | lia].
    intros j Hj. rewrite Values.lattice_prices_node by lia.
    unfold Lattice.node_price. simpl payoff. apply Rmax_left. 
    rewrite !Rmult_0_l. lra.
  - eexists. apply (Pricer.pricer_numeric _ _ _ _ _ _ Call); lra || lia.
Qed.

(** C6, as it holds: for every option type other than call and put, and all
    other parameters, the call raises an error and returns no price; with
    N >= 1 the error is ValueError("Option type must be 'call' or 'put'"),
    from the one test of the option type, which follows the filling of the
    stock price grid and precedes the backward loop; with N < 1 an earlier
    statement raises first.  For option type call or put this error is
    never raised. *)
Theorem option_type_checked (S0 K T r sigma : R) (N : Z) (option_type : string) :
  (option_type <> "call"%string -> option_type <> "put"%string ->
     exists e,
       binomial_option_pricer S0 K T r sigma N option_type = Raised e /\
       ((1 <= N)%Z -> e = ValueError "Option type must be 'call' or 'put'")) /\
  (option_type = "call"%string \/ option_type = "put"%string ->
     binomial_option_pricer S0 K T r sigma N option_type
     <> Raised (ValueError "Option type must be 'call' or 'put'")).
Proof.
  split.
  - intros Hc Hp.
    destruct (Z_lt_le_dec N 1) as [Hlow|HN].
    + eexists. split; [apply Pricer.pricer_no_steps; assumption | lia].
    + eexists. split; [|reflexivity].
      apply Pricer.pricer_bad_type; [assumption|].
      apply Factors.parse_option_type_none; assumption.
  - intros Hk.
    assert (Hparse : exists k, parse_option_type option_type = Some k).
    { destruct Hk as [->| ->]; [exists Call | exists Put]; reflexivity. }
    destruct Hparse as [k Hparse].
    destruct (Z_lt_le_dec N 1) as [Hlow|HN].
    + rewrite Pricer.pricer_no_steps by assumption.
      destruct (N =? 0)%Z; [discriminate|].
      destruct (N =? -1)%Z; discriminate.
    + unfold binomial_option_pricer.
      destruct (Pricer.steps_tests N HN) as (-> & -> & ->).
      cbv zeta. rewrite Hparse.
      destruct (option_values _ K T r sigma N k); discriminate.
Qed.

Lemma option_type_checked_witness :
  exists e,
    binomial_option_pricer 100 105 1 (5 / 100) (2 / 10) 3 "straddle" = Raised e /\
    e = ValueError "Option type must be 'call' or 'put'".
Proof.
  destruct (option_type_checked 100 105 1 (5 / 100) (2 / 10) 3 "straddle") as [Hbad _].
  destruct Hbad as [e [He Hname]]; try discriminate.
  exists e. split; [exact He | apply Hname; lia].
Defined.

(** C6, as stated, fails: with N = 0 the option type "straddle" is never
    looked at; the division [T / N] raises ZeroDivisionError. *)
Lemma option_type_error_preempted :
  binomial_option_pricer 100 105 1 (5 / 100) (2 / 10) 0 "straddle"
  = Raised ZeroDivisionError.
Proof. reflexivity. Qed.

(** C7, as it holds: inputs with sigma = 0 (and S > 0, K > 0, T > 0,
    N >= 1, call or put) are taken but not priced: the factors are
    [u = d = 1], so the divisor [u - d] of the risk-neutral probability
    [q = (R-d)/(u-d)] is zero and [q] is not a finite number, and the
    pricer raises nothing and returns nan, not the price of the single
    path. *)
Theorem zero_sigma_returns_nan (S0 K T r : R) (N : Z) (k : kind) :
  0 < S0 -> 0 < K -> 0 < T -> (1 <= N)%Z ->
  up_down T 0 N = Some (1, 1) /\
  risk_neutral T r 0 N = None /\
  binomial_option_pricer S0 K T r 0 N (option_type_of k) = Returned NaN.
Proof.
  intros _ _ HT HN.
  split; [|split].
  - rewrite Factors.up_down_some
      by (left; apply Factors.delta_t_pos; assumption).
    unfold up, down. rewrite Ropp_0, !Rmult_0_l, exp_0. reflexivity.
  - apply Factors.risk_neutral_none; [assumption | right; reflexivity].
  - apply Pricer.pricer_nan; [assumption | right; reflexivity].
Qed.

Lemma zero_sigma_returns_nan_witness :
  up_down 2 0 4 = Some (1, 1) /\
  binomial_option_pricer 50 40 2 (3 / 100) 0 4 "put" = Returned NaN.
Proof.
  destruct (zero_sigma_returns_nan 50 40 2 (3 / 100) 4 Put)
    as [Hud [_ Hnan]]; try lra; try lia.
  split; [exact Hud | exact Hnan].
Defined.

(** C7, as stated, fails: at sigma = 0 (S = 100, K = 105, T = 1, r = 0.05,
    N = 3) the factors are [u = d = 1], the division in [q] is by zero, and
    the pricer returns nan, for the call and for the put. *)
Lemma zero_sigma_not_priced :
  up 1 0 3 - down 1 0 3 = 0 /\
  risk_neutral 1 (5 / 100) 0 3 = None /\
  binomial_option_pricer 100 105 1 (5 / 100) 0 3 "call" = Returned NaN /\
  binomial_option_pricer 100 105 1 (5 / 100) 0 3 "put" = Returned NaN.
Proof.
  repeat split.
  - unfold up, down. rewrite Ropp_0, !Rmult_0_l. ring.
  - apply Factors.risk_neutral_none; [lia | right; reflexivity].
  - apply (Pricer.pricer_nan _ _ _ _ _ _ Call); [lia | right; reflexivity].
  - apply (Pricer.pricer_nan _ _ _ _ _ _ Put); [lia | right; reflexivity].
Qed.

(** ** Further properties of the lattice pricer *)

Module ExpectationFacts.
Import Np NpFacts Lattice Expectation Factors Pricer Values.

Lemma binomial_above (n k : nat) : (n < k)%nat -> binomial n k = 0%nat.
Proof.
  revert k. induction n as [|n IH]; intros [|k] Hk; simpl; try lia.
  rewrite !IH by lia. reflexivity.
Qed.

Lemma weight_first (q : R) (m : nat) : weight q (S m) 0 = q * weight q m 0.
Proof.
  unfold weight. rewrite !Nat.sub_0_r.
  replace (binomial (S m) 0) with 1%nat by reflexivity.
  replace (binomial m 0) with 1%nat by (destruct m; reflexivity).
  simpl. ring.
Qed.

Lemma weight_next (q : R) (m l : nat) :
  (l <= m)%nat ->
  weight q (S m) (S l) = q * weight q m (S l) + (1 - q) * weight q m l.
Proof.
  intros Hl. unfold weight.
  replace (binomial (S m) (S l)) with (binomial m l + binomial m (S l))%nat
    by reflexivity.
  rewrite plus_INR.
  replace (S m - S l)%nat with (m - l)%nat by lia.
  destruct (Nat.eq_dec l m) as [->|Hne].
  - rewrite (binomial_above m (S m)) by lia. simpl. ring.
  - replace (m - l)%nat with (S (m - S l)) by lia. simpl. ring.
Qed.

Lemma weight_above (q : R) (m : nat) : weight q m (S m) = 0.
Proof.
  unfold weight. rewrite binomial_above by lia. simpl. ring.
Qed.

(** One more move: an up-move with weight [q], a down-move with [1 - q]. *)
Lemma expected_step (q : R) (f : nat -> R) (m j : nat) :
  expected q f (S m) j = q * expected q f m j + (1 - q) * expected q f m (S j).
Proof.
  unfold expected.
  rewrite (decomp_sum (fun l => weight q (S m) l * f (j + l)%nat) (S m)) by lia.
  simpl pred.
  rewrite (sum_eq (fun i => weight q (S m) (S i) * f (j + S i)%nat)
             (fun i => q * (weight q m (S i) * f (j + S i)%nat)
                       + (1 - q) * (weight q m i * f (S j + i)%nat)) m).
  2:{ intros i Hi. rewrite weight_next by assumption.
      replace (S j + i)%nat with (j + S i)%nat by lia. ring. }
  rewrite plus_sum.
  assert (Hup : sum_f_R0 (fun l => weight q m l * f (j + l)%nat) m
                = weight q m 0 * f (j + 0)%nat
                  + sum_f_R0 (fun i => weight q m (S i) * f (j + S i)%nat) m).
  { transitivity (sum_f_R0 (fun l => weight q m l * f (j + l)%nat) (S m)).
    - simpl. rewrite weight_above. ring.
    - rewrite (decomp_sum _ (S m)) by lia. reflexivity. }
  rewrite Hup, weight_first.
  rewrite (sum_eq (fun i => q * (weight q m (S i) * f (j + S i)%nat))
             (fun i => weight q m (S i) * f (j + S i)%nat * q) m)
    by (intros; ring).
  rewrite (sum_eq (fun i => (1 - q) * (weight q m i * f (S j + i)%nat))
             (fun i => weight q m i * f (S j + i)%nat * (1 - q)) m)
    by (intros; ring).
  rewrite <- !scal_sum.
  ring.
Qed.

(** The weights of [m] moves sum to 1: the expectation of a constant is
    the constant. *)
Lemma expected_const (q c : R) (m j : nat) : expected q (fun _ => c) m j = c.
Proof.
  revert j. induction m as [|m IH]; intros j.
  - unfold expected, weight. simpl. ring.
  - rewrite expected_step, !IH. ring.
Qed.

Lemma weights_sum (q : R) (m : nat) :
  sum_f_R0 (fun l => INR (binomial m l) * q ^ (m - l) * (1 - q) ^ l) m = 1.
Proof.
  transitivity (expected q (fun _ => 1) m 0); [|apply expected_const].
  unfold expected, weight. apply sum_eq. intros l _. ring.
Qed.

(** Every node of the value grid is the discounted expectation of the
    payoffs it can reach. *)
Lemma lattice_values_expected (S0 K T r sigma : R) (N : Z) (k : kind) (i j : nat) :
  (j <= i <= Z.to_nat N)%nat ->
  get (lattice_values S0 K T r sigma N k) i j
  = expected (prob T r sigma N)
      (fun l => payoff k K (node_price S0 (up T sigma N) (down T sigma N) (Z.to_nat N) l))
      (Z.to_nat N - i) j
    / discount T r N ^ (Z.to_nat N - i).
Proof.
  revert i j.
  set (f := fun l => payoff k K
                       (node_price S0 (up T sigma N) (down T sigma N) (Z.to_nat N) l)).
  apply (lattice_induction (Z.to_nat N) (fun i j =>
    get (lattice_values S0 K T r sigma N k) i j
    = expected (prob T r sigma N) f (Z.to_nat N - i) j
      / discount T r N ^ (Z.to_nat N - i))).
  - intros j Hj. rewrite lattice_values_terminal by assumption.
    rewrite lattice_prices_node by lia.
    rewrite Nat.sub_diag. unfold expected, weight, f. simpl.
    rewrite Nat.add_0_r. field.
  - intros i j Hi Hj Hup Hdown.
    rewrite lattice_values_node by assumption.
    rewrite Hup, Hdown.
    replace (Z.to_nat N - i)%nat with (S (Z.to_nat N - S i)) by lia.
    rewrite expected_step.
    pose proof (discount_pos T r N) as HR.
    assert (Hpow : discount T r N ^ (Z.to_nat N - S i) <> 0) by (apply pow_nonzero; lra).
    simpl. field. split; lra.
Qed.

End ExpectationFacts.

Module LatticeFacts.
Import Np NpFacts Lattice RowFill Factors Pricer Values.

Lemma get_zeros (n i j : nat) : get (zeros n n) i j = 0.
Proof.
  unfold get, row, zeros.
  destruct (Nat.lt_ge_cases i n) as [Hi|Hi].
  - rewrite repeat_nth by assumption.
    destruct (Nat.lt_ge_cases j n) as [Hj|Hj].
    + apply repeat_nth; assumption.
    + apply nth_overflow. rewrite repeat_length. assumption.
  - rewrite (nth_overflow (repeat _ _)) by (rewrite repeat_length; assumption).
    destruct j; reflexivity.
Qed.

(** *** The slots above the diagonal *)

Lemma price_layer_above (u d : R) (N : nat) (g : grid) (i : nat) :
  square (N + 1) g -> (1 <= i <= N)%nat ->
  (forall a b, (a < b)%nat -> get g a b = 0) ->
  forall a b, (a < b)%nat -> get (price_layer u d g i) a b = 0.
Proof.
  intros Hsq Hi Hzero a b Hab. unfold price_layer, down_moves.
  set (g1 := set g i 0 (get g (i - 1) 0 * u)).
  assert (Hsq1 : square (N + 1) g1) by (apply set_square; [assumption | lia]).
  destruct (fill_spec (fun g j => get g (i - 1) (j - 1) * d) (N + 1) i 1 i g1)
    as [_ Hother _ Hrest]; try assumption; try lia.
  { apply PriceGrid.down_moves_reads. lia. }
  destruct (Nat.eq_dec a i) as [->|Hne].
  - rewrite Hrest by lia. unfold g1.
    rewrite get_set_other_col by lia. apply Hzero. assumption.
  - rewrite Hother by assumption. unfold g1.
    rewrite get_set_other_row by auto. apply Hzero. assumption.
Qed.

Lemma price_grid_above (S0 u d : R) (N : nat) (a b : nat) :
  (a < b)%nat -> get (price_grid S0 u d N) a b = 0.
Proof.
  revert a b. unfold price_grid.
  apply (range_invariant (price_layer u d)
           (fun k g => (k <= 1 + N)%nat ->
                       priced S0 u d N k g /\
                       forall a b, (a < b)%nat -> get g a b = 0) 1 N); [| |lia].
  - intros _. split.
    + split.
      * apply set_square; [apply zeros_square | lia].
      * intros i j Hij. assert (i = 0%nat) by lia. assert (j = 0%nat) by lia. subst.
        rewrite (get_set_eq (N + 1)) by (try apply zeros_square; lia).
        unfold node_price. simpl. ring.
    + intros a b Hab. destruct (Nat.eq_dec 0 a) as [<-|Hne].
      * rewrite get_set_other_col by lia. apply get_zeros.
      * rewrite get_set_other_row by assumption. apply get_zeros.
  - intros k x Hk IH Hk'. destruct IH as [Hp Hzero]; [lia|]. split.
    + apply PriceGrid.price_layer_spec; [lia | assumption].
    + apply (price_layer_above u d N); [apply Hp | lia | assumption].
Qed.

Lemma terminal_payoff_above (k : kind) (K : R) (sp : grid) (N : nat) (a b : nat) :
  (a < b <= N)%nat -> get (terminal_payoff k K sp N) a b = 0.
Proof.
  intros Hab. unfold terminal_payoff, get.
  rewrite row_set_row_neq by lia. apply get_zeros.
Qed.

Lemma backward_above_in (F : grid -> nat -> nat -> R) (N : nat) (g0 : grid) :
  square (N + 1) g0 -> reads_later_rows F ->
  (forall a b, (a < b <= N)%nat -> get g0 a b = 0) ->
  forall a b, (a < b <= N)%nat -> get (backward F N g0) a b = 0.
Proof.
  intros Hsq HF Hzero. unfold backward.
  apply (range_down_invariant
           (fun g i => fill (fun g j => F g i j) i 0 (i + 1) g)
           (fun k g => square (N + 1) g /\
                       forall a b, (a < b <= N)%nat -> get g a b = 0)).
  - split; assumption.
  - intros k x Hk [Hsqx Hzx].
    destruct (fill_spec (fun g j => F g k j) (N + 1) k 0 (k + 1) x)
      as [Hsq' Hother _ Hrest]; try assumption; try lia.
    { intros g1 g2 j Hsame. apply HF. intros i' j' Hi'. apply Hsame. lia. }
    split; [exact Hsq'|].
    intros a b Hab. destruct (Nat.eq_dec a k) as [->|Hne].
    + rewrite Hrest by lia. apply Hzx. assumption.
    + rewrite Hother by assumption. apply Hzx. assumption.
Qed.

Lemma lattice_values_above (S0 K T r sigma : R) (N : Z) (k : kind) (a b : nat) :
  (a < b <= Z.to_nat N)%nat -> get (lattice_values S0 K T r sigma N k) a b = 0.
Proof.
  unfold lattice_values. rewrite ValueGrid.discount_backward_is_backward.
  revert a b. apply backward_above_in.
  - apply ValueGrid.terminal_payoff_square. apply lattice_prices_square.
  - apply ValueGrid.continuation_reads_later.
  - intros a b Hab. apply terminal_payoff_above. assumption.
Qed.

Lemma lattice_values_square (S0 K T r sigma : R) (N : Z) (k : kind) :
  square (Z.to_nat N + 1) (lattice_values S0 K T r sigma N k).
Proof.
  unfold lattice_values. rewrite ValueGrid.discount_backward_is_backward.
  apply ValueGrid.backward_spec.
  - apply ValueGrid.terminal_payoff_square. apply lattice_prices_square.
  - apply ValueGrid.continuation_reads_later.
Qed.

End LatticeFacts.

Module PriceFacts.
Import Np NpFacts Lattice Factors Pricer Values.

(** *** Scaling the spot and the strike *)

Lemma node_price_scale (c S0 u d : R) (i j : nat) :
  node_price (c * S0) u d i j = c * node_price S0 u d i j.
Proof. unfold node_price. ring. Qed.

Lemma payoff_scale (k : kind) (c K s : R) :
  0 <= c -> payoff k (c * K) (c * s) = c * payoff k K s.
Proof.
  intros Hc. destruct k; simpl.
  - rewrite <- RmaxRmult by assumption. f_equal; ring.
  - rewrite <- RmaxRmult by assumption. f_equal; ring.
Qed.

Lemma lattice_values_scale (c S0 K T r sigma : R) (N : Z) (k : kind) (i j : nat) :
  0 <= c -> (j <= i <= Z.to_nat N)%nat ->
  get (lattice_values (c * S0) (c * K) T r sigma N k) i j
  = c * get (lattice_values S0 K T r sigma N k) i j.
Proof.
  intros Hc. revert i j.
  apply (lattice_induction (Z.to_nat N) (fun i j =>
    get (lattice_values (c * S0) (c * K) T r sigma N k) i j
    = c * get (lattice_values S0 K T r sigma N k) i j)).
  - intros j Hj.
    rewrite (lattice_values_terminal (c * S0)), (lattice_values_terminal S0) by assumption.
    rewrite !lattice_prices_node by lia.
    rewrite node_price_scale. apply payoff_scale. assumption.
  - intros i j Hi Hj Hup Hdown.
    rewrite (lattice_values_node (c * S0)), (lattice_values_node S0) by assumption.
    rewrite Hup, Hdown. unfold Rdiv. ring.
Qed.

(** *** Two spots on one tree *)

Lemma node_price_pos (S0 u d : R) (i j : nat) :
  0 <= S0 -> 0 < u -> 0 < d -> 0 <= node_price S0 u d i j.
Proof.
  intros HS Hu Hd. unfold node_price.
  pose proof (pow_lt u (i - j) Hu). pose proof (pow_lt d j Hd).
  apply Rmult_le_pos; [apply Rmult_le_pos|]; lra.
Qed.

Lemma node_price_le (S1 S2 u d : R) (i j : nat) :
  S1 <= S2 -> 0 < u -> 0 < d -> node_price S1 u d i j <= node_price S2 u d i j.
Proof.
  intros HS Hu Hd. unfold node_price.
  pose proof (pow_lt u (i - j) Hu). pose proof (pow_lt d j Hd).
  rewrite !Rmult_assoc. apply Rmult_le_compat_r; [|assumption].
  apply Rmult_le_pos; lra.
Qed.

Lemma up_pos (T sigma : R) (N : Z) : 0 < up T sigma N.
Proof. apply exp_pos. Qed.

Lemma down_pos (T sigma : R) (N : Z) : 0 < down T sigma N.
Proof. apply exp_pos. Qed.

Lemma lattice_values_le_terminal
    (S1 K1 S2 K2 T r sigma : R) (N : Z) (k1 k2 : kind) :
  0 <= prob T r sigma N <= 1 ->
  (forall j, (j <= Z.to_nat N)%nat ->
     get (lattice_values S1 K1 T r sigma N k1) (Z.to_nat N) j
     <= get (lattice_values S2 K2 T r sigma N k2) (Z.to_nat N) j) ->
  forall i j, (j <= i <= Z.to_nat N)%nat ->
    get (lattice_values S1 K1 T r sigma N k1) i j
    <= get (lattice_values S2 K2 T r sigma N k2) i j.
Proof.
  intros Hq Hlast.
  apply (lattice_induction (Z.to_nat N) (fun i j =>
    get (lattice_values S1 K1 T r sigma N k1) i j
    <= get (lattice_values S2 K2 T r sigma N k2) i j)).
  - exact Hlast.
  - intros i j Hi Hj Hup Hdown.
    rewrite (lattice_values_node S1), (lattice_values_node S2) by assumption.
    apply discounted_mean_le; try assumption. apply discount_pos.
Qed.

Lemma payoff_call_spot (K s1 s2 : R) : s1 <= s2 -> payoff Call K s1 <= payoff Call K s2.
Proof.
  intros Hs. simpl. apply Rmax_case; [apply Rmax_l|].
  apply Rle_trans with (s2 - K); [lra | apply Rmax_r].
Qed.

Lemma payoff_put_spot (K s1 s2 : R) : s1 <= s2 -> payoff Put K s2 <= payoff Put K s1.
Proof.
  intros Hs. simpl. apply Rmax_case; [apply Rmax_l|].
  apply Rle_trans with (K - s1); [lra | apply Rmax_r].
Qed.

(** *** The call against the stock *)

Lemma call_le_stock (S0 K T r sigma : R) (N : Z) (i j : nat) :
  0 <= S0 -> 0 <= K ->
  up T sigma N - down T sigma N <> 0 -> 0 <= prob T r sigma N <= 1 ->
  (j <= i <= Z.to_nat N)%nat ->
  get (lattice_values S0 K T r sigma N Call) i j
  <= node_price S0 (up T sigma N) (down T sigma N) i j.
Proof.
  intros HS HK Hud Hq. revert i j.
  apply (lattice_induction (Z.to_nat N) (fun i j =>
    get (lattice_values S0 K T r sigma N Call) i j
    <= node_price S0 (up T sigma N) (down T sigma N) i j)).
  - intros j Hj. rewrite lattice_values_terminal by assumption.
    rewrite lattice_prices_node by lia. simpl.
    pose proof (node_price_pos S0 (up T sigma N) (down T sigma N) (Z.to_nat N) j
                  HS (up_pos T sigma N) (down_pos T sigma N)).
    apply Rmax_case; lra.
  - intros i j Hi Hj Hup Hdown.
    rewrite lattice_values_node by assumption.
    rewrite PriceGrid.node_price_up_any in Hup by assumption.
    rewrite <- PriceGrid.node_price_down in Hdown.
    pose proof (discount_pos T r N) as HR.
    pose proof (prob_martingale T r sigma N Hud) as Hm.
    set (P := node_price S0 (up T sigma N) (down T sigma N) i j) in *.
    set (q := prob T r sigma N) in *.
    apply Rle_trans with ((q * (up T sigma N * P) + (1 - q) * (P * down T sigma N))
                          / discount T r N).
    + apply discounted_mean_le; assumption.
    + replace (q * (up T sigma N * P) + (1 - q) * (P * down T sigma N))
        with ((q * up T sigma N + (1 - q) * down T sigma N) * P) by ring.
      rewrite Hm. right. field. lra.
Qed.

(** *** The sign of sigma *)

Lemma up_opp (T sigma : R) (N : Z) : up T (- sigma) N = down T sigma N.
Proof. reflexivity. Qed.

Lemma down_opp (T sigma : R) (N : Z) : down T (- sigma) N = up T sigma N.
Proof. unfold down, up. rewrite Ropp_involutive. reflexivity. Qed.

Lemma prob_opp (T r sigma : R) (N : Z) :
  up T sigma N - down T sigma N <> 0 ->
  prob T r (- sigma) N = 1 - prob T r sigma N.
Proof.
  intros Hud. unfold prob. rewrite up_opp, down_opp. field. split; lra.
Qed.

Lemma node_price_mirror (S0 u d : R) (i j : nat) :
  (j <= i)%nat -> node_price S0 d u i j = node_price S0 u d i (i - j).
Proof.
  intros Hj. unfold node_price.
  replace (i - (i - j))%nat with j by lia. ring.
Qed.

Lemma lattice_values_mirror (S0 K T r sigma : R) (N : Z) (k : kind) (i j : nat) :
  up T sigma N - down T sigma N <> 0 ->
  (j <= i <= Z.to_nat N)%nat ->
  get (lattice_values S0 K T r (- sigma) N k) i j
  = get (lattice_values S0 K T r sigma N k) i (i - j).
Proof.
  intros Hud. revert i j.
  apply (lattice_induction (Z.to_nat N) (fun i j =>
    get (lattice_values S0 K T r (- sigma) N k) i j
    = get (lattice_values S0 K T r sigma N k) i (i - j))).
  - intros j Hj.
    rewrite (lattice_values_terminal S0 K T r (- sigma)),
            (lattice_values_terminal S0 K T r sigma) by lia.
    rewrite !lattice_prices_node by lia.
    rewrite up_opp, down_opp. rewrite node_price_mirror by assumption. reflexivity.
  - intros i j Hi Hj Hup Hdown.
    rewrite (lattice_values_node S0 K T r (- sigma)) by assumption.
    rewrite (lattice_values_node S0 K T r sigma) by lia.
    rewrite Hup, Hdown, prob_opp by assumption.
    replace (S i - j)%nat with (S (i - j)) by lia.
    replace (S i - S j)%nat with (i - j)%nat by lia.
    unfold Rdiv. ring.
Qed.

End PriceFacts.

(** X1.  Without arbitrage ([d <= R <= u], with T > 0, sigma > 0, N >= 1,
    call or put) the number returned is the discounted risk-neutral
    expectation of the payoff over the last layer: [q] lies in [[0, 1]],
    the weights [binomial(N, l) * q^(N-l) * (1-q)^l] of [l = 0 .. N]
    down-moves sum to 1, and the price is the sum of
    [binomial(N, l) * q^(N-l) * (1-q)^l * payoff(S * u^(N-l) * d^l)],
    divided by [R^N]. *)
Theorem price_is_binomial_expectation (S0 K T r sigma : R) (N : Z) (k : kind) :
  0 < T -> 0 < sigma -> (1 <= N)%Z ->
  down T sigma N <= discount T r N <= up T sigma N ->
  0 <= prob T r sigma N <= 1 /\
  sum_f_R0
    (fun l => INR (Expectation.binomial (Z.to_nat N) l)
              * prob T r sigma N ^ (Z.to_nat N - l)
              * (1 - prob T r sigma N) ^ l)
    (Z.to_nat N) = 1 /\
  binomial_option_pricer S0 K T r sigma N (option_type_of k)
  = Returned (Num
      (sum_f_R0
         (fun l => INR (Expectation.binomial (Z.to_nat N) l)
                   * prob T r sigma N ^ (Z.to_nat N - l)
                   * (1 - prob T r sigma N) ^ l
                   * payoff k K (S0 * up T sigma N ^ (Z.to_nat N - l)
                                    * down T sigma N ^ l))
         (Z.to_nat N)
       / discount T r N ^ Z.to_nat N)).
Proof.
  intros HT Hs HN Hna.
  destruct (Factors.down_lt_up T sigma N HT Hs HN) as [[Hd0 Hd1] Hu1].
  split; [apply Factors.prob_bounds; [lra | assumption]|].
  split; [apply ExpectationFacts.weights_sum|].
  rewrite Pricer.pricer_numeric by (assumption || lra).
  rewrite ExpectationFacts.lattice_values_expected by lia.
  rewrite Nat.sub_0_r. reflexivity.
Qed.

Lemma price_is_binomial_expectation_witness :
  0 <= prob 1 (5 / 100) (2 / 10) 3 <= 1 /\
  binomial_option_pricer 100 105 1 (5 / 100) (2 / 10) 3 "call"
  = Returned (Num
      (sum_f_R0
         (fun l => INR (Expectation.binomial 3 l)
                   * prob 1 (5 / 100) (2 / 10) 3 ^ (3 - l)
                   * (1 - prob 1 (5 / 100) (2 / 10) 3) ^ l
                   * Rmax 0 (100 * up 1 (2 / 10) 3 ^ (3 - l)
                                 * down 1 (2 / 10) 3 ^ l - 105))
         3
       / discount 1 (5 / 100) 3 ^ 3)).
Proof.
  destruct (price_is_binomial_expectation 100 105 1 (5 / 100) (2 / 10) 3 Call)
    as (Hq & _ & Hprice); try lra; try lia.
  - apply Factors.sample_rate_between_factors.
  - split; [exact Hq | exact Hprice].
Defined.

(** X2.  Where the factors are finite (T > 0, sigma <> 0, N >= 1) both
    grids are [(N+1) x (N+1)] and the pricer writes on and below the
    diagonal only: every slot [(i, j)] with [i < j <= N] of the stock price
    grid and of the option value grid still holds the 0 of [np.zeros]. *)
Theorem grids_are_triangular (S0 K T r sigma : R) (N : Z) (k : kind) :
  0 < T -> sigma <> 0 -> (1 <= N)%Z ->
  exists sp V,
    stock_prices S0 T sigma N = Some sp /\
    option_values (Some sp) K T r sigma N k = Some V /\
    Np.square (Z.to_nat N + 1) sp /\
    Np.square (Z.to_nat N + 1) V /\
    forall i j, (i < j <= Z.to_nat N)%nat -> Np.get sp i j = 0 /\ Np.get V i j = 0.
Proof.
  intros HT Hs HN.
  exists (lattice_prices S0 T sigma N), (lattice_values S0 K T r sigma N k).
  split; [apply Pricer.stock_prices_some; assumption|].
  split.
  { rewrite <- (Pricer.stock_prices_some S0 T sigma N HT HN).
    apply Pricer.option_values_some; assumption. }
  split; [apply Pricer.lattice_prices_square|].
  split; [apply LatticeFacts.lattice_values_square|].
  intros i j Hij. split.
  - apply LatticeFacts.price_grid_above. lia.
  - apply LatticeFacts.lattice_values_above. assumption.
Qed.

Lemma grids_are_triangular_witness :
  exists sp V,
    stock_prices 100 1 (2 / 10) 3 = Some sp /\
    option_values (Some sp) 105 1 (5 / 100) (2 / 10) 3 Put = Some V /\
    Np.get sp 1 2 = 0 /\ Np.get V 0 3 = 0.
Proof.
  destruct (grids_are_triangular 100 105 1 (5 / 100) (2 / 10) 3 Put)
    as (sp & V & Hsp & HV & _ & _ & Hzero); try lra; try lia.
  exists sp, V. repeat split; try assumption.
  - apply (Hzero 1%nat 2%nat). simpl. lia.
  - apply (Hzero 0%nat 3%nat). simpl. lia.
Defined.

(** X3.  Without arbitrage ([d <= R <= u], with T > 0, sigma > 0,
    N >= 1, call or put) the price is homogeneous of degree one in the spot
    and the strike: for [c >= 0], pricing [c * S] against [c * K] returns
    [c] times the price of [S] against [K]. *)
Theorem price_scales (c S0 K T r sigma : R) (N : Z) (k : kind) :
  0 <= c -> 0 < T -> 0 < sigma -> (1 <= N)%Z ->
  down T sigma N <= discount T r N <= up T sigma N ->
  exists price,
    binomial_option_pricer S0 K T r sigma N (option_type_of k) = Returned (Num price) /\
    binomial_option_pricer (c * S0) (c * K) T r sigma N (option_type_of k)
    = Returned (Num (c * price)).
Proof.
  intros Hc HT Hs HN _.
  assert (Hs' : sigma <> 0) by lra.
  exists (Np.get (lattice_values S0 K T r sigma N k) 0 0). split.
  - apply Pricer.pricer_numeric; assumption.
  - rewrite Pricer.pricer_numeric by assumption.
    rewrite PriceFacts.lattice_values_scale by (assumption || lia). reflexivity.
Qed.

Lemma price_scales_witness :
  exists price,
    binomial_option_pricer 100 105 1 (5 / 100) (2 / 10) 3 "put" = Returned (Num price) /\
    binomial_option_pricer (2 * 100) (2 * 105) 1 (5 / 100) (2 / 10) 3 "put"
    = Returned (Num (2 * price)).
Proof.
  apply (price_scales 2 100 105 1 (5 / 100) (2 / 10) 3 Put); try lra; try lia.
  apply Factors.sample_rate_between_factors.
Defined.

(** X4.  Without arbitrage ([d <= R <= u], with S > 0, K > 0, T > 0,
    sigma > 0, N >= 1) the prices respect the static bounds:
    [max(0, S - K/R^N) <= call <= S] and
    [max(0, K/R^N - S) <= put <= K/R^N]. *)
Theorem price_bounds (S0 K T r sigma : R) (N : Z) :
  0 < S0 -> 0 < K -> 0 < T -> 0 < sigma -> (1 <= N)%Z ->
  down T sigma N <= discount T r N <= up T sigma N ->
  exists call_price put_price,
    binomial_option_pricer S0 K T r sigma N "call" = Returned (Num call_price) /\
    binomial_option_pricer S0 K T r sigma N "put" = Returned (Num put_price) /\
    Rmax 0 (S0 - K / discount T r N ^ Z.to_nat N) <= call_price <= S0 /\
    Rmax 0 (K / discount T r N ^ Z.to_nat N - S0) <= put_price
      <= K / discount T r N ^ Z.to_nat N.
Proof.
  intros HS HK HT Hs HN Hna.
  assert (Hs' : sigma <> 0) by lra.
  destruct (Factors.down_lt_up T sigma N HT Hs HN) as [[Hd0 Hd1] Hu1].
  assert (Hud : up T sigma N - down T sigma N <> 0) by lra.
  assert (Hq : 0 <= prob T r sigma N <= 1) by (apply Factors.prob_bounds; [lra | assumption]).
  exists (Np.get (lattice_values S0 K T r sigma N Call) 0 0),
         (Np.get (lattice_values S0 K T r sigma N Put) 0 0).
  split; [apply (Pricer.pricer_numeric S0 K T r sigma N Call); assumption|].
  split; [apply (Pricer.pricer_numeric S0 K T r sigma N Put); assumption|].
  pose proof (Values.lattice_parity S0 K T r sigma N 0 0 Hud ltac:(lia)) as Hpar.
  pose proof (Values.lattice_values_nonneg S0 K T r sigma N Call Hq 0 0 ltac:(lia)) as Hc0.
  pose proof (Values.lattice_values_nonneg S0 K T r sigma N Put Hq 0 0 ltac:(lia)) as Hp0.
  pose proof (PriceFacts.call_le_stock S0 K T r sigma N 0 0
                ltac:(lra) ltac:(lra) Hud Hq ltac:(lia)) as Hcs.
  unfold Lattice.node_price in Hpar, Hcs. rewrite !Nat.sub_0_r in Hpar.
  change (0 - 0)%nat with 0%nat in Hcs. rewrite !pow_O in Hpar, Hcs. unfold Rdiv.
  set (c := Np.get (lattice_values S0 K T r sigma N Call) 0 0) in *.
  set (p := Np.get (lattice_values S0 K T r sigma N Put) 0 0) in *.
  set (D := K * / discount T r N ^ Z.to_nat N) in *.
  repeat split; try (apply Rmax_case); lra.
Qed.

Lemma price_bounds_witness :
  exists call_price put_price,
    binomial_option_pricer 1 1 1 0 1 1 "call" = Returned (Num call_price) /\
    binomial_option_pricer 1 1 1 0 1 1 "put" = Returned (Num put_price) /\
    0 <= call_price <= 1 /\ 0 <= put_price.
Proof.
  assert (HT : 0 < 1) by lra.
  assert (HN : (1 <= 1)%Z) by lia.
  destruct (Factors.down_lt_up 1 1 1 HT HT HN) as [[Hd0 Hd1] Hu1].
  assert (HR : discount 1 0 1 = 1).
  { unfold discount. rewrite Rmult_0_l. apply exp_0. }
  destruct (price_bounds 1 1 1 0 1 1) as (c & p & Hc & Hp & [Hc1 Hc2] & [Hp1 _]);
    try lra; try lia.
  exists c, p. repeat split; try assumption.
  - eapply Rle_trans; [apply Rmax_l | exact Hc1].
  - eapply Rle_trans; [apply Rmax_l | exact Hp1].
Defined.

(** X5.  Without arbitrage ([d <= R <= u], with S > 0, T > 0, sigma > 0,
    N >= 1) an option that is in the money at every node of the last layer
    is priced as a forward: with [K <= S * d^N] the call is worth
    [S - K/R^N] and the put 0; with [S * u^N <= K] the put is worth
    [K/R^N - S] and the call 0. *)
Theorem deep_in_the_money (S0 K T r sigma : R) (N : Z) :
  0 < S0 -> 0 < T -> 0 < sigma -> (1 <= N)%Z ->
  down T sigma N <= discount T r N <= up T sigma N ->
  (K <= S0 * down T sigma N ^ Z.to_nat N ->
     binomial_option_pricer S0 K T r sigma N "call"
     = Returned (Num (S0 - K / discount T r N ^ Z.to_nat N)) /\
     binomial_option_pricer S0 K T r sigma N "put" = Returned (Num 0)) /\
  (S0 * up T sigma N ^ Z.to_nat N <= K ->
     binomial_option_pricer S0 K T r sigma N "put"
     = Returned (Num (K / discount T r N ^ Z.to_nat N - S0)) /\
     binomial_option_pricer S0 K T r sigma N "call" = Returned (Num 0)).
Proof.
  intros HS HT Hs HN _.
  assert (Hs' : sigma <> 0) by lra.
  destruct (Factors.down_lt_up T sigma N HT Hs HN) as [[Hd0 Hd1] Hu1].
  assert (Hud : up T sigma N - down T sigma N <> 0) by lra.
  pose proof (Values.lattice_parity S0 K T r sigma N 0 0 Hud ltac:(lia)) as Hpar.
  unfold Lattice.node_price in Hpar. rewrite !Nat.sub_0_r, !pow_O in Hpar.
  split; intros HK.
  - pose proof (Strike.put_worthless S0 K T r sigma N HS HT Hs HN HK) as Hput.
    split.
    + etransitivity; [apply (Pricer.pricer_numeric _ _ _ _ _ _ Call); assumption|].
      do 2 f_equal. unfold Rdiv. lra.
    + etransitivity; [apply (Pricer.pricer_numeric _ _ _ _ _ _ Put); assumption|].
      rewrite Hput. reflexivity.
  - pose proof (Strike.call_worthless S0 K T r sigma N HS HT Hs HN HK) as Hcall.
    split.
    + etransitivity; [apply (Pricer.pricer_numeric _ _ _ _ _ _ Put); assumption|].
      do 2 f_equal. unfold Rdiv. lra.
    + etransitivity; [apply (Pricer.pricer_numeric _ _ _ _ _ _ Call); assumption|].
      rewrite Hcall. reflexivity.
Qed.

Lemma deep_in_the_money_witness :
  binomial_option_pricer 100 3000 1 (5 / 100) (2 / 10) 3 "put"
  = Returned (Num (3000 / discount 1 (5 / 100) 3 ^ Z.to_nat 3 - 100)) /\
  binomial_option_pricer 100 3000 1 (5 / 100) (2 / 10) 3 "call" = Returned (Num 0).
Proof.
  assert (Hs : sqrt (delta_t 1 3) <= 1).
  { apply Rle_trans with (sqrt 1); [|rewrite sqrt_1; lra].
    apply sqrt_le_1_alt. unfold delta_t. lra. }
  assert (Hu : 0 < up 1 (2 / 10) 3 <= 3).
  { split; [apply exp_pos|]. apply Rle_trans with (exp 1); [|apply exp_le_3].
    unfold up.
    destruct (Rle_lt_or_eq_dec (2 / 10 * sqrt (delta_t 1 3)) 1 ltac:(lra)) as [Hlt|Heq].
    - left. apply exp_increasing. exact Hlt.
    - rewrite Heq. right. reflexivity. }
  assert (Hu3 : 100 * up 1 (2 / 10) 3 ^ Z.to_nat 3 <= 3000).
  { simpl. nra. }
  apply (deep_in_the_money 100 3000 1 (5 / 100) (2 / 10) 3); try lra; try lia.
  apply Factors.sample_rate_between_factors.
Defined.

(** X6.  Without arbitrage ([d <= R <= u], T > 0, sigma > 0, N >= 1) a
    higher spot never lowers the call price and never raises the put
    price, for every strike. *)
Theorem spot_monotone (S1 S2 K T r sigma : R) (N : Z) :
  S1 <= S2 -> 0 < T -> 0 < sigma -> (1 <= N)%Z ->
  down T sigma N <= discount T r N <= up T sigma N ->
  exists c1 c2 p1 p2,
    binomial_option_pricer S1 K T r sigma N "call" = Returned (Num c1) /\
    binomial_option_pricer S2 K T r sigma N "call" = Returned (Num c2) /\
    binomial_option_pricer S1 K T r sigma N "put" = Returned (Num p1) /\
    binomial_option_pricer S2 K T r sigma N "put" = Returned (Num p2) /\
    c1 <= c2 /\ p2 <= p1.
Proof.
  intros HS HT Hs HN Hna.
  assert (Hs' : sigma <> 0) by lra.
  destruct (Factors.down_lt_up T sigma N HT Hs HN) as [[Hd0 Hd1] Hu1].
  assert (Hq : 0 <= prob T r sigma N <= 1) by (apply Factors.prob_bounds; [lra | assumption]).
  exists (Np.get (lattice_values S1 K T r sigma N Call) 0 0),
         (Np.get (lattice_values S2 K T r sigma N Call) 0 0),
         (Np.get (lattice_values S1 K T r sigma N Put) 0 0),
         (Np.get (lattice_values S2 K T r sigma N Put) 0 0).
  split; [apply (Pricer.pricer_numeric S1 K T r sigma N Call); assumption|].
  split; [apply (Pricer.pricer_numeric S2 K T r sigma N Call); assumption|].
  split; [apply (Pricer.pricer_numeric S1 K T r sigma N Put); assumption|].
  split; [apply (Pricer.pricer_numeric S2 K T r sigma N Put); assumption|].
  split.
  - apply PriceFacts.lattice_values_le_terminal; [assumption | | lia].
    intros j Hj.
    rewrite (Pricer.lattice_values_terminal S1), (Pricer.lattice_values_terminal S2)
      by assumption.
    rewrite !Values.lattice_prices_node by lia.
    apply PriceFacts.payoff_call_spot. apply PriceFacts.node_price_le; lra.
  - apply PriceFacts.lattice_values_le_terminal; [assumption | | lia].
    intros j Hj.
    rewrite (Pricer.lattice_values_terminal S2), (Pricer.lattice_values_terminal S1)
      by assumption.
    rewrite !Values.lattice_prices_node by lia.
    apply PriceFacts.payoff_put_spot. apply PriceFacts.node_price_le; lra.
Qed.

Lemma spot_monotone_witness :
  exists c1 c2 p1 p2,
    binomial_option_pricer 1 1 1 0 1 1 "call" = Returned (Num c1) /\
    binomial_option_pricer 2 1 1 0 1 1 "call" = Returned (Num c2) /\
    binomial_option_pricer 1 1 1 0 1 1 "put" = Returned (Num p1) /\
    binomial_option_pricer 2 1 1 0 1 1 "put" = Returned (Num p2) /\
    c1 <= c2 /\ p2 <= p1.
Proof.
  assert (HT : 0 < 1) by lra.
  assert (HN : (1 <= 1)%Z) by lia.
  destruct (Factors.down_lt_up 1 1 1 HT HT HN) as [[Hd0 Hd1] Hu1].
  assert (HR : discount 1 0 1 = 1).
  { unfold discount. rewrite Rmult_0_l. apply exp_0. }
  apply (spot_monotone 1 2 1 1 0 1 1); lra || lia.
Defined.

(** X7.  The pricer takes a negative sigma and prices it as its absolute
    value: without arbitrage at [sigma] ([d <= R <= u], with T > 0,
    sigma > 0, N >= 1) the call and the put at [-sigma] have the prices of
    the call and the put at [sigma] (the tree is the same, read upside
    down, with [1 - q] for [q]). *)
Theorem sigma_sign_is_ignored (S0 K T r sigma : R) (N : Z) (k : kind) :
  0 < T -> 0 < sigma -> (1 <= N)%Z ->
  down T sigma N <= discount T r N <= up T sigma N ->
  prob T r (- sigma) N = 1 - prob T r sigma N /\
  binomial_option_pricer S0 K T r (- sigma) N (option_type_of k)
  = binomial_option_pricer S0 K T r sigma N (option_type_of k) /\
  exists price,
    binomial_option_pricer S0 K T r sigma N (option_type_of k) = Returned (Num price).
Proof.
  intros HT Hs HN _.
  assert (Hs' : sigma <> 0) by lra.
  assert (Hud : up T sigma N - down T sigma N <> 0)
    by (apply Factors.up_neq_down; assumption).
  split; [apply PriceFacts.prob_opp; assumption|].
  split.
  - rewrite !Pricer.pricer_numeric by (assumption || lra).
    rewrite PriceFacts.lattice_values_mirror by (assumption || lia). reflexivity.
  - eexists. apply Pricer.pricer_numeric; assumption.
Qed.

Lemma sigma_sign_is_ignored_witness :
  binomial_option_pricer 100 105 1 (5 / 100) (- (2 / 10)) 3 "call"
  = binomial_option_pricer 100 105 1 (5 / 100) (2 / 10) 3 "call".
Proof.
  apply (sigma_sign_is_ignored 100 105 1 (5 / 100) (2 / 10) 3 Call); try lra; try lia.
  apply Factors.sample_rate_between_factors.
Defined.

(** ** The plot *)

Module PlotFacts.
Import Np Lattice Plot.

Lemma scattered_app (a : axis) (l1 l2 : list call) :
  scattered a (l1 ++ l2) = scattered a l1 ++ scattered a l2.
Proof. apply flat_map_app. Qed.

Lemma axis_eqb_refl (a : axis) : axis_eqb a a = true.
Proof. destruct a; reflexivity. Qed.

Lemma scattered_row_same (a : axis) (color : string) (g : grid) (i : nat) (js : list nat) :
  scattered a (flat_map (fun j => [Scatter a i (get g i j) color;
                                   Text a i (get g i j) (get g i j)]) js)
  = map (fun j => (i, get g i j)) js.
Proof.
  induction js as [|j js IH]; [reflexivity|].
  simpl. unfold scattered in *. simpl. rewrite axis_eqb_refl. simpl.
  f_equal. exact IH.
Qed.

Lemma scattered_row_other (a b : axis) (color : string) (g : grid) (i : nat) (js : list nat) :
  axis_eqb a b = false ->
  scattered a (flat_map (fun j => [Scatter b i (get g i j) color;
                                   Text b i (get g i j) (get g i j)]) js)
  = [].
Proof.
  intros Hab. induction js as [|j js IH]; [reflexivity|].
  simpl. unfold scattered in *. simpl. rewrite Hab. simpl. exact IH.
Qed.

Lemma scattered_draw_same (a : axis) (color : string) (g : grid) (N : nat) :
  scattered a (draw_nodes a color g N) = tree_nodes N (get g).
Proof.
  unfold draw_nodes, tree_nodes.
  induction (seq 0 (N + 1)) as [|i rest IH]; [reflexivity|].
  simpl. rewrite scattered_app, scattered_row_same, IH. reflexivity.
Qed.

Lemma scattered_draw_other (a b : axis) (color : string) (g : grid) (N : nat) :
  axis_eqb a b = false -> scattered a (draw_nodes b color g N) = [].
Proof.
  intros Hab. unfold draw_nodes.
  induction (seq 0 (N + 1)) as [|i rest IH]; [reflexivity|].
  simpl. rewrite scattered_app, scattered_row_other, IH by assumption. reflexivity.
Qed.

Lemma scattered_visualize (sp ov : grid) (N : nat) (option_type : string) :
  scattered Ax0 (visualize_binomial_tree sp ov N option_type) = tree_nodes N (get sp) /\
  scattered Ax1 (visualize_binomial_tree sp ov N option_type) = tree_nodes N (get ov).
Proof.
  unfold visualize_binomial_tree. split.
  - rewrite !scattered_app, scattered_draw_same, scattered_draw_other by reflexivity.
    simpl. apply app_nil_r.
  - rewrite !scattered_app, scattered_draw_same, scattered_draw_other by reflexivity.
    simpl. apply app_nil_r.
Qed.

Lemma tree_nodes_ext (N : nat) (v w : nat -> nat -> R) :
  (forall i j, (j <= i <= N)%nat -> v i j = w i j) -> tree_nodes N v = tree_nodes N w.
Proof.
  intros Hvw. unfold tree_nodes.
  assert (Hin : forall i, In i (seq 0 (N + 1)) -> (i <= N)%nat)
    by (intros i Hi; apply in_seq in Hi; lia).
  induction (seq 0 (N + 1)) as [|i rest IH]; [reflexivity|].
  simpl. f_equal.
  - apply map_ext_in. intros j Hj. apply in_seq in Hj.
    rewrite Hvw; [reflexivity|]. specialize (Hin i (or_introl eq_refl)). lia.
  - apply IH. intros i' Hi'. apply Hin. right. assumption.
Qed.

Lemma tree_nodes_length (N : nat) (v : nat -> nat -> R) :
  (2 * length (tree_nodes N v) = (N + 1) * (N + 2))%nat.
Proof.
  unfold tree_nodes.
  induction N as [|N IH].
  - reflexivity.
  - replace (S N + 1)%nat with (S (N + 1)) by lia.
    rewrite seq_S, flat_map_app, length_app. simpl flat_map.
    rewrite app_nil_r, length_map, length_seq. lia.
Qed.

Lemma tree_nodes_head (N : nat) (v : nat -> nat -> R) :
  hd_error (tree_nodes N v) = Some (0%nat, v 0%nat 0%nat).
Proof.
  unfold tree_nodes. replace (N + 1)%nat with (S N) by lia. reflexivity.
Qed.

End PlotFacts.

(** X8.  Called on the grids of the pricer (T > 0, sigma <> 0, N >= 1),
    [visualize_binomial_tree] scatters on each panel the nodes [(i, j)],
    [j <= i <= N], once each and in order, [(N+1)(N+2)/2] points per
    panel and none from the unused slots: the left panel shows
    [S * u^(i-j) * d^j] at step [i], and the first point of the right
    panel is the price the pricer returns. *)
Theorem plot_shows_the_tree (S0 K T r sigma : R) (N : Z) (k : kind) :
  0 < T -> sigma <> 0 -> (1 <= N)%Z ->
  exists sp V,
    stock_prices S0 T sigma N = Some sp /\
    option_values (Some sp) K T r sigma N k = Some V /\
    let calls := Plot.visualize_binomial_tree sp V (Z.to_nat N) (option_type_of k) in
    Plot.scattered Plot.Ax0 calls
    = Plot.tree_nodes (Z.to_nat N)
        (fun i j => S0 * up T sigma N ^ (i - j) * down T sigma N ^ j) /\
    Plot.scattered Plot.Ax1 calls = Plot.tree_nodes (Z.to_nat N) (Np.get V) /\
    (2 * length (Plot.scattered Plot.Ax0 calls) = (Z.to_nat N + 1) * (Z.to_nat N + 2))%nat /\
    (2 * length (Plot.scattered Plot.Ax1 calls) = (Z.to_nat N + 1) * (Z.to_nat N + 2))%nat /\
    exists price,
      hd_error (Plot.scattered Plot.Ax1 calls) = Some (0%nat, price) /\
      binomial_option_pricer S0 K T r sigma N (option_type_of k) = Returned (Num price).
Proof.
  intros HT Hs HN.
  exists (lattice_prices S0 T sigma N), (lattice_values S0 K T r sigma N k).
  split; [apply Pricer.stock_prices_some; assumption|].
  split.
  { rewrite <- (Pricer.stock_prices_some S0 T sigma N HT HN).
    apply Pricer.option_values_some; assumption. }
  intros calls.
  destruct (PlotFacts.scattered_visualize (lattice_prices S0 T sigma N)
              (lattice_values S0 K T r sigma N k) (Z.to_nat N) (option_type_of k))
    as [H0 H1].
  fold calls in H0, H1. rewrite H0, H1.
  split.
  { apply PlotFacts.tree_nodes_ext. intros i j Hij.
    apply Values.lattice_prices_node. assumption. }
  split; [reflexivity|].
  split; [apply PlotFacts.tree_nodes_length|].
  split; [apply PlotFacts.tree_nodes_length|].
  exists (Np.get (lattice_values S0 K T r sigma N k) 0 0). split.
  - apply PlotFacts.tree_nodes_head.
  - apply Pricer.pricer_numeric; assumption.
Qed.

Lemma plot_shows_the_tree_witness :
  exists sp V,
    stock_prices 100 1 (2 / 10) 3 = Some sp /\
    option_values (Some sp) 105 1 (5 / 100) (2 / 10) 3 Call = Some V /\
    (2 * length (Plot.scattered Plot.Ax0
                   (Plot.visualize_binomial_tree sp V 3 "call")) = 4 * 5)%nat.
Proof.
  destruct (plot_shows_the_tree 100 105 1 (5 / 100) (2 / 10) 3 Call)
    as (sp & V & Hsp & HV & _ & _ & Hlen & _); try lra; try lia.
  exists sp, V. repeat split; assumption.
Defined.

(** ** The closed-form pricers *)

Module PyNumFacts.

Lemma sqrt_some (x : R) : 0 <= x -> Np.sqrt x = Some (sqrt x).
Proof.
  intros Hx. unfold Np.sqrt. destruct (Rlt_dec x 0); [lra | reflexivity].
Qed.

Lemma div_some (x y : R) : y <> 0 -> Np.div x y = Some (x / y).
Proof.
  intros Hy. unfold Np.div. destruct (Req_dec_T y 0); [contradiction | reflexivity].
Qed.

Lemma div_none (x : R) : Np.div x 0 = None.
Proof.
  unfold Np.div. destruct (Req_dec_T 0 0) as [_|H]; [reflexivity | contradiction H; reflexivity].
Qed.

Lemma log_some (x : R) : 0 < x -> PyNum.log x = Some (ln x).
Proof.
  intros Hx. unfold PyNum.log. destruct (Rlt_dec 0 x); [reflexivity | lra].
Qed.

Lemma sigma_sqrt_nonzero (sigma T : R) : 0 < T -> sigma <> 0 -> sigma * sqrt T <> 0.
Proof.
  intros HT Hs H. apply Rmult_integral in H.
  pose proof (sqrt_lt_R0 T HT). destruct H; lra.
Qed.

Lemma ratio_pos (x y : R) : 0 < x -> 0 < y -> 0 < x / y.
Proof. intros Hx Hy. apply Rdiv_lt_0_compat; assumption. Qed.

End PyNumFacts.

Module BlackScholesFacts.
Import PyNumFacts.

Section Normal.
Variable cdf : R -> R.
Variables (S0 K T r sigma : R).
Hypothesis HS : 0 < S0.
Hypothesis HK : 0 < K.
Hypothesis HT : 0 < T.
Hypothesis Hsigma : sigma <> 0.

Lemma bs_d1_some :
  BlackScholes._d1 S0 K T r sigma
  = Some (1 / (sigma * sqrt T) * (ln (S0 / K) + (r + sigma ^ 2 / 2) * T)).
Proof.
  unfold BlackScholes._d1.
  rewrite sqrt_some by lra. simpl.
  rewrite div_some by (apply sigma_sqrt_nonzero; assumption). simpl.
  rewrite div_some by lra. simpl.
  rewrite log_some by (apply ratio_pos; assumption). reflexivity.
Qed.

Lemma bs_d2_some :
  BlackScholes._d2 S0 K T r sigma
  = Some (1 / (sigma * sqrt T) * (ln (S0 / K) + (r + sigma ^ 2 / 2) * T)
          - sigma * sqrt T).
Proof.
  unfold BlackScholes._d2. rewrite bs_d1_some. simpl.
  rewrite sqrt_some by lra. reflexivity.
Qed.

Lemma call_price_some :
  exists d1 d2,
    BlackScholes._d1 S0 K T r sigma = Some d1 /\
    BlackScholes._d2 S0 K T r sigma = Some d2 /\
    d2 = d1 - sigma * sqrt T /\
    BlackScholes.call_price cdf S0 K T r sigma
    = Some (cdf d1 * S0 - cdf d2 * K * exp (- r * T)) /\
    BlackScholes.put_price cdf S0 K T r sigma
    = Some (cdf (- d2) * K * exp (- r * T) - cdf (- d1) * S0).
Proof.
  eexists. eexists.
  split; [apply bs_d1_some|]. split; [apply bs_d2_some|]. split; [reflexivity|].
  unfold BlackScholes.call_price, BlackScholes.put_price.
  rewrite bs_d1_some, bs_d2_some. split; reflexivity.
Qed.

End Normal.
End BlackScholesFacts.

Module RoundFacts.

Lemma round_half_even_near (x : R) :
  x - 1 / 2 <= IZR (PyNum.round_half_even x) <= x + 1 / 2.
Proof.
  unfold PyNum.round_half_even.
  pose proof (Zfloor_bound x) as [Hlo Hhi].
  destruct (Rlt_dec (x - IZR (Zfloor x)) (1 / 2)) as [Hlt|Hge].
  - lra.
  - destruct (Rlt_dec (1 / 2) (x - IZR (Zfloor x))) as [Hgt|Hle].
    + rewrite plus_IZR. lra.
    + destruct (Z.even (Zfloor x)); [lra | rewrite plus_IZR; lra].
Qed.

(** Below the half the floor, above it the next integer. *)
Lemma round_half_even_down (x : R) (z : Z) :
  IZR z <= x < IZR z + 1 / 2 -> PyNum.round_half_even x = z.
Proof.
  intros Hx. unfold PyNum.round_half_even.
  rewrite (Zfloor_eq z x) by lra.
  destruct (Rlt_dec (x - IZR z) (1 / 2)); [reflexivity | lra].
Qed.

Lemma round_half_even_up (x : R) (z : Z) :
  IZR z + 1 / 2 < x < IZR z + 1 -> PyNum.round_half_even x = (z + 1)%Z.
Proof.
  intros Hx. unfold PyNum.round_half_even.
  rewrite (Zfloor_eq z x) by lra.
  destruct (Rlt_dec (x - IZR z) (1 / 2)); [lra|].
  destruct (Rlt_dec (1 / 2) (x - IZR z)); [reflexivity | lra].
Qed.

Lemma round_half_even_between (x : R) (a b : Z) :
  IZR a <= x <= IZR b -> (a <= PyNum.round_half_even x <= b)%Z.
Proof.
  intros [Ha Hb].
  pose proof (Zfloor_bound x) as [Hlo Hhi].
  assert (Hfa : (a <= Zfloor x)%Z) by (apply Zfloor_lub; assumption).
  assert (Hfb : (Zfloor x <= b)%Z).
  { apply le_IZR. lra. }
  unfold PyNum.round_half_even.
  destruct (Rlt_dec (x - IZR (Zfloor x)) (1 / 2)) as [Hlt|Hge]; [lia|].
  assert (Hstrict : (Zfloor x < b)%Z).
  { destruct (Z.eq_dec (Zfloor x) b) as [Heq|Hne]; [|lia].
    rewrite Heq in *. lra. }
  destruct (Rlt_dec (1 / 2) (x - IZR (Zfloor x))); [lia|].
  destruct (Z.even (Zfloor x)); lia.
Qed.

Lemma pow10_pos (n : nat) : 0 < 10 ^ n.
Proof. apply pow_lt. lra. Qed.

Lemma round_near (x : R) (n : nat) :
  x - 1 / (2 * 10 ^ n) <= PyNum.round x n <= x + 1 / (2 * 10 ^ n).
Proof.
  unfold PyNum.round.
  pose proof (pow10_pos n) as Hp.
  pose proof (round_half_even_near (x * 10 ^ n)) as [Hlo Hhi].
  set (z := IZR (PyNum.round_half_even (x * 10 ^ n))) in *.
  pose proof (Rinv_0_lt_compat _ Hp) as Hi.
  assert (E1 : x - 1 / (2 * 10 ^ n) = (x * 10 ^ n - 1 / 2) * / 10 ^ n) by (field; lra).
  assert (E2 : x + 1 / (2 * 10 ^ n) = (x * 10 ^ n + 1 / 2) * / 10 ^ n) by (field; lra).
  unfold Rdiv at 2 3. rewrite E1, E2. unfold Rdiv.
  split; apply Rmult_le_compat_r; lra.
Qed.

Lemma round_between (x : R) (n : nat) (a b : Z) :
  IZR a / 10 ^ n <= x <= IZR b / 10 ^ n ->
  IZR a / 10 ^ n <= PyNum.round x n <= IZR b / 10 ^ n.
Proof.
  intros [Ha Hb]. unfold PyNum.round.
  pose proof (pow10_pos n) as Hp.
  pose proof (Rinv_0_lt_compat _ Hp) as Hi.
  assert (Hx : IZR a <= x * 10 ^ n <= IZR b).
  { split.
    - replace (IZR a) with (IZR a / 10 ^ n * 10 ^ n) by (field; lra).
      apply Rmult_le_compat_r; lra.
    - replace (IZR b) with (IZR b / 10 ^ n * 10 ^ n) by (field; lra).
      apply Rmult_le_compat_r; lra. }
  destruct (round_half_even_between _ _ _ Hx) as [Hza Hzb].
  apply IZR_le in Hza, Hzb.
  unfold Rdiv. split; apply Rmult_le_compat_r; lra.
Qed.

End RoundFacts.

Module BisectFacts.
Import BlackScholes.

Lemma width_open (n : nat) : (n <= 13)%nat -> tolerance < 9999 / 10000 / 2 ^ n.
Proof.
  intros Hn. unfold tolerance.
  assert (Hpow : 2 ^ n <= 2 ^ 13) by (apply Rle_pow; [lra | assumption]).
  assert (Hpos : 0 < 2 ^ n) by (apply pow_lt; lra).
  assert (H13 : 2 ^ 13 = 8192) by (simpl; lra).
  apply Rmult_lt_reg_r with (2 ^ n); [assumption|].
  replace (9999 / 10000 / 2 ^ n * 2 ^ n) with (9999 / 10000) by (field; lra).
  lra.
Qed.

Lemma width_closed : ~ tolerance < 9999 / 10000 / 2 ^ 14.
Proof. unfold tolerance. simpl. lra. Qed.

Lemma width_half (n : nat) (low high : R) :
  high - low = 9999 / 10000 / 2 ^ n ->
  high - (low + high) / 2 = 9999 / 10000 / 2 ^ S n /\
  (low + high) / 2 - low = 9999 / 10000 / 2 ^ S n.
Proof.
  intros Hw. assert (Hpos : 0 < 2 ^ n) by (apply pow_lt; lra).
  assert (E : 9999 / 10000 / 2 ^ S n = (high - low) / 2).
  { rewrite Hw. simpl. field. lra. }
  rewrite E. split; field.
Qed.

Lemma width_pos (n : nat) : 0 < 9999 / 10000 / 2 ^ n.
Proof.
  assert (Hpos : 0 < 2 ^ n) by (apply pow_lt; lra).
  apply Rdiv_lt_0_compat; lra.
Qed.

Section Bisection.
Variable price : R -> option R.
Variable option_price : R.
Variable Inv : R -> R -> option R -> Prop.

Hypothesis Inv_defined :
  forall low high mid, Inv low high mid -> exists p, price ((low + high) / 2) = Some p.
Hypothesis Inv_low :
  forall low high mid p,
    Inv low high mid -> price ((low + high) / 2) = Some p -> p < option_price ->
    Inv ((low + high) / 2) high (Some ((low + high) / 2)).
Hypothesis Inv_high :
  forall low high mid p,
    Inv low high mid -> price ((low + high) / 2) = Some p -> ~ p < option_price ->
    Inv low ((low + high) / 2) (Some ((low + high) / 2)).

(** From width [0.9999 / 2^n] the loop halves [14 - n] times and returns. *)
Lemma bisect_runs (fuel n : nat) (low high : R) (mid : option R) :
  (n <= 14)%nat -> (15 <= fuel + n)%nat ->
  high - low = 9999 / 10000 / 2 ^ n ->
  Inv low high mid ->
  (n = 0%nat \/ exists m, mid = Some m) ->
  exists low' high' m,
    bisect fuel price option_price low high mid = Volatility (PyNum.round m 4) /\
    Inv low' high' (Some m) /\
    high' - low' = 9999 / 10000 / 2 ^ 14.
Proof.
  revert n low high mid.
  induction fuel as [|fuel IH]; intros n low high mid Hn Hfuel Hw HI Hmid; [lia|].
  simpl. destruct (Rlt_dec tolerance (high - low)) as [Hopen|Hclosed].
  - assert (Hn' : (n <= 13)%nat).
    { destruct (Nat.eq_dec n 14) as [->|Hne]; [|lia].
      rewrite Hw in Hopen. exfalso. exact (width_closed Hopen). }
    destruct (Inv_defined _ _ _ HI) as [p Hp]. rewrite Hp.
    destruct (width_half n low high Hw) as [Hup Hdown].
    destruct (Rlt_dec p option_price) as [Hlt|Hge].
    + apply (IH (S n)); try lia; try assumption.
      * eapply Inv_low; eassumption.
      * right. eexists. reflexivity.
    + apply (IH (S n)); try lia; try assumption.
      * eapply Inv_high; eassumption.
      * right. eexists. reflexivity.
  - assert (Hn' : n = 14%nat).
    { destruct (Nat.eq_dec n 14) as [->|Hne]; [reflexivity|].
      exfalso. apply Hclosed. rewrite Hw. apply width_open. lia. }
    subst n. destruct Hmid as [H0|[m ->]]; [lia|].
    exists low, high, m. repeat split; assumption.
Qed.

End Bisection.

(** More fuel does not change a result. *)
Lemma bisect_more_fuel (price : R -> option R) (option_price : R)
    (fuel fuel' : nat) (low high : R) (mid : option R) (v : R) :
  (fuel <= fuel')%nat ->
  bisect fuel price option_price low high mid = Volatility v ->
  bisect fuel' price option_price low high mid = Volatility v.
Proof.
  revert fuel' low high mid.
  induction fuel as [|fuel IH]; intros fuel' low high mid Hle Hrun; [discriminate|].
  destruct fuel' as [|fuel']; [lia|].
  simpl in *. destruct (Rlt_dec tolerance (high - low)); [|exact Hrun].
  destruct (price ((low + high) / 2)) as [p|]; [|discriminate].
  destruct (Rlt_dec p option_price); apply IH; (lia || assumption).
Qed.

(** With less fuel than the fourteen halvings and the last test need, the
    loop has not returned. *)
Lemma bisect_short (price : R -> option R) (option_price : R)
    (fuel n : nat) (low high : R) (mid : option R) :
  (fuel + n <= 14)%nat ->
  high - low = 9999 / 10000 / 2 ^ n ->
  (forall v, bisect fuel price option_price low high mid <> Volatility v) /\
  bisect fuel price option_price low high mid <> UnboundLocalError.
Proof.
  revert n low high mid.
  induction fuel as [|fuel IH]; intros n low high mid Hfuel Hw.
  - split; [intros v|]; discriminate.
  - simpl. destruct (Rlt_dec tolerance (high - low)) as [Hopen|Hclosed].
    + destruct (width_half n low high Hw) as [Hup Hdown].
      destruct (price ((low + high) / 2)) as [p|].
      * destruct (Rlt_dec p option_price); apply (IH (S n)); (lia || assumption).
      * split; [intros v|]; discriminate.
    + exfalso. apply Hclosed. rewrite Hw. apply width_open. lia.
Qed.

End BisectFacts.

Module ImpliedVolatilityFacts.
Import BlackScholes PyNumFacts.

Lemma option_price_some (cdf : R -> R) (S0 K T r : R) (option_type : string) (sigma : R) :
  0 < S0 -> 0 < K -> 0 < T -> sigma <> 0 ->
  exists p, option_price_function cdf S0 K T r option_type sigma = Some p.
Proof.
  intros HS HK HT Hs.
  destruct (BlackScholesFacts.call_price_some cdf S0 K T r sigma HS HK HT Hs)
    as (d1 & d2 & _ & _ & _ & Hc & Hp).
  unfold option_price_function.
  destruct (String.eqb option_type "call"); eexists; eassumption.
Qed.

Lemma start_width : sigma_high_0 - sigma_low_0 = 9999 / 10000 / 2 ^ 0.
Proof. unfold sigma_high_0, sigma_low_0. simpl. field. Qed.

End ImpliedVolatilityFacts.

(** X9.  Put-call parity of the closed form: for S > 0, K > 0, T > 0,
    sigma <> 0 and a [cdf] with [cdf(-x) = 1 - cdf(x)], as the normal
    distribution has, [call_price - put_price = S - K * exp(-r*T)]. *)
Theorem black_scholes_parity (cdf : R -> R) (S0 K T r sigma : R) :
  (forall x, cdf (- x) = 1 - cdf x) ->
  0 < S0 -> 0 < K -> 0 < T -> sigma <> 0 ->
  exists call put,
    BlackScholes.call_price cdf S0 K T r sigma = Some call /\
    BlackScholes.put_price cdf S0 K T r sigma = Some put /\
    call - put = S0 - K * exp (- r * T).
Proof.
  intros Hsym HS HK HT Hs.
  destruct (BlackScholesFacts.call_price_some cdf S0 K T r sigma HS HK HT Hs)
    as (d1 & d2 & _ & _ & _ & Hc & Hp).
  eexists. eexists. split; [exact Hc|]. split; [exact Hp|].
  rewrite !Hsym. ring.
Qed.

Lemma black_scholes_parity_witness :
  exists call put,
    BlackScholes.call_price (fun _ => 1 / 2) 36 35 (2 / 12) (5 / 100) (2 / 10) = Some call /\
    BlackScholes.put_price (fun _ => 1 / 2) 36 35 (2 / 12) (5 / 100) (2 / 10) = Some put /\
    call - put = 36 - 35 * exp (- (5 / 100) * (2 / 12)).
Proof.
  apply (black_scholes_parity (fun _ => 1 / 2) 36 35 (2 / 12) (5 / 100) (2 / 10));
    try lra.
  intros x. lra.
Defined.

(** X10.  For S > 0, K > 0, T > 0, every market price and every option
    type, [implied_volatility] returns: the loop halves the interval
    [[0.0001, 1]] exactly fourteen times (fifteen tests of the loop
    condition, no fewer), and the value returned lies in [[0.0001, 1]]. *)
Theorem implied_volatility_returns
    (cdf : R -> R) (option_price S0 K T r : R) (option_type : string) :
  0 < S0 -> 0 < K -> 0 < T ->
  exists v,
    (forall fuel, (15 <= fuel)%nat ->
       BlackScholes.implied_volatility cdf fuel option_price S0 K T r option_type
       = BlackScholes.Volatility v) /\
    (forall fuel v', (fuel <= 14)%nat ->
       BlackScholes.implied_volatility cdf fuel option_price S0 K T r option_type
       <> BlackScholes.Volatility v') /\
    1 / 10000 <= v <= 1.
Proof.
  intros HS HK HT.
  set (price := BlackScholes.option_price_function cdf S0 K T r option_type).
  destruct (BisectFacts.bisect_runs price option_price
              (fun low high mid =>
                 1 / 10000 <= low /\ low <= high /\ high <= 1 /\
                 forall m, mid = Some m -> 1 / 10000 <= m <= 1)
              ) with (fuel := 15%nat) (n := 0%nat)
              (low := BlackScholes.sigma_low_0) (high := BlackScholes.sigma_high_0)
              (mid := @None R)
    as (low' & high' & m & Hrun & (Hlo & Hlh & Hhi & Hm) & _).
  - intros low high mid (Hlo & Hlh & Hhi & _).
    apply ImpliedVolatilityFacts.option_price_some; try assumption. lra.
  - intros low high mid p (Hlo & Hlh & Hhi & _) _ _.
    split; [lra|]. split; [lra|]. split; [lra|]. intros m0 [= <-]. lra.
  - intros low high mid p (Hlo & Hlh & Hhi & _) _ _.
    split; [lra|]. split; [lra|]. split; [lra|]. intros m0 [= <-]. lra.
  - lia.
  - lia.
  - apply ImpliedVolatilityFacts.start_width.
  - unfold BlackScholes.sigma_low_0, BlackScholes.sigma_high_0.
    split; [lra|]. split; [lra|]. split; [lra|]. intros m0 Hm0. discriminate.
  - left. reflexivity.
  - exists (PyNum.round m 4). split; [|split].
    + intros fuel Hfuel. unfold BlackScholes.implied_volatility.
      apply (BisectFacts.bisect_more_fuel _ _ 15 fuel); assumption.
    + intros fuel v' Hfuel. unfold BlackScholes.implied_volatility.
      apply (BisectFacts.bisect_short _ _ fuel 0); [lia|].
      apply ImpliedVolatilityFacts.start_width.
    + specialize (Hm m eq_refl).
      pose proof (RoundFacts.round_between m 4 1 10000) as Hr.
      simpl in Hr. lra.
Qed.

Lemma implied_volatility_returns_witness :
  exists v,
    BlackScholes.implied_volatility (fun _ => 1 / 2) 15 (15 / 10) 36 35 (2 / 12) (5 / 100) "call"
    = BlackScholes.Volatility v /\
    1 / 10000 <= v <= 1.
Proof.
  destruct (implied_volatility_returns (fun _ => 1 / 2) (15 / 10) 36 35 (2 / 12) (5 / 100) "call")
    as (v & Hrun & _ & Hv); try lra.
  exists v. split; [apply Hrun; lia | exact Hv].
Defined.

(** X11.  Where the model price at sigma = 0.0001 is below the market
    price and the model price at sigma = 1 is not (S > 0, K > 0, T > 0),
    [implied_volatility] returns a value within half a unit of the fourth
    decimal of an interval [[lo, hi]] of [[0.0001, 1]], shorter than the
    tolerance 0.0001, across which the model price crosses the market
    price: price(lo) < market <= price(hi). *)
Theorem implied_volatility_brackets
    (cdf : R -> R) (option_price S0 K T r : R) (option_type : string)
    (price_low price_high : R) :
  0 < S0 -> 0 < K -> 0 < T ->
  BlackScholes.option_price_function cdf S0 K T r option_type (1 / 10000) = Some price_low ->
  price_low < option_price ->
  BlackScholes.option_price_function cdf S0 K T r option_type 1 = Some price_high ->
  option_price <= price_high ->
  exists v lo hi price_lo price_hi,
    (forall fuel, (15 <= fuel)%nat ->
       BlackScholes.implied_volatility cdf fuel option_price S0 K T r option_type
       = BlackScholes.Volatility v) /\
    1 / 10000 <= lo /\ lo < hi /\ hi <= 1 /\ hi - lo < 1 / 10000 /\
    BlackScholes.option_price_function cdf S0 K T r option_type lo = Some price_lo /\
    price_lo < option_price /\
    BlackScholes.option_price_function cdf S0 K T r option_type hi = Some price_hi /\
    option_price <= price_hi /\
    lo - 1 / 20000 <= v <= hi + 1 / 20000.
Proof.
  intros HS HK HT Hpl Hlow Hph Hhigh.
  set (price := BlackScholes.option_price_function cdf S0 K T r option_type) in *.
  destruct (BisectFacts.bisect_runs price option_price
              (fun low high mid =>
                 1 / 10000 <= low /\ low <= high /\ high <= 1 /\
                 (exists p, price low = Some p /\ p < option_price) /\
                 (exists p, price high = Some p /\ option_price <= p) /\
                 forall m, mid = Some m -> m = low \/ m = high)
              ) with (fuel := 15%nat) (n := 0%nat)
              (low := BlackScholes.sigma_low_0) (high := BlackScholes.sigma_high_0)
              (mid := @None R)
    as (lo & hi & m & Hrun & (Hlo & Hlh & Hhi & [plo [Hplo Hplo']] & [phi [Hphi Hphi']] & Hm)
        & Hwidth).
  - intros low high mid (Hlo & Hlh & Hhi & _).
    apply ImpliedVolatilityFacts.option_price_some; try assumption. lra.
  - intros low high mid p (Hlo & Hlh & Hhi & _ & Hup & _) Hp Hlt.
    split; [lra|]. split; [lra|]. split; [lra|].
    split; [exists p; split; assumption|]. split; [exact Hup|].
    intros m0 [= <-]. left. reflexivity.
  - intros low high mid p (Hlo & Hlh & Hhi & Hdown & _ & _) Hp Hge.
    split; [lra|]. split; [lra|]. split; [lra|].
    split; [exact Hdown|]. split; [exists p; split; [assumption | lra]|].
    intros m0 [= <-]. right. reflexivity.
  - lia.
  - lia.
  - apply ImpliedVolatilityFacts.start_width.
  - unfold BlackScholes.sigma_low_0, BlackScholes.sigma_high_0.
    split; [lra|]. split; [lra|]. split; [lra|].
    split; [exists price_low; split; assumption|].
    split; [exists price_high; split; assumption|].
    intros m0 Hm0. discriminate.
  - left. reflexivity.
  - exists (PyNum.round m 4), lo, hi, plo, phi.
    pose proof (BisectFacts.width_pos 14) as Hpos.
    assert (Hsmall : 9999 / 10000 / 2 ^ 14 < 1 / 10000) by (simpl; lra).
    split.
    { intros fuel Hfuel. unfold BlackScholes.implied_volatility.
      apply (BisectFacts.bisect_more_fuel _ _ 15 fuel); assumption. }
    split; [assumption|]. split; [lra|]. split; [assumption|]. split; [lra|].
    split; [assumption|]. split; [assumption|]. split; [assumption|].
    split; [assumption|].
    pose proof (RoundFacts.round_near m 4) as Hr. simpl in Hr.
    destruct (Hm m eq_refl) as [-> | ->]; lra.
Qed.

Lemma implied_volatility_brackets_witness :
  exists v lo hi,
    BlackScholes.implied_volatility (fun x => if Rle_dec 0 x then 1 else 0)
      15 (1 / 2) 1 1 1 (- (1 / 8)) "call"
    = BlackScholes.Volatility v /\
    1 / 10000 <= lo /\ hi <= 1 /\ hi - lo < 1 / 10000 /\
    lo - 1 / 20000 <= v <= hi + 1 / 20000.
Proof.
  set (cdf := fun x : R => if Rle_dec 0 x then 1 else 0).
  assert (H1 : (0 : R) < 1) by lra.
  assert (Hln : ln (1 / 1) = 0) by (replace (1 / 1) with 1 by field; apply ln_1).
  assert (Hlow : BlackScholes.option_price_function cdf 1 1 1 (- (1 / 8)) "call" (1 / 10000)
                 = Some (0 * 1 - 0 * 1 * exp (- - (1 / 8) * 1))).
  { unfold BlackScholes.option_price_function, BlackScholes.call_price. simpl String.eqb.
    cbv iota.
    rewrite (BlackScholesFacts.bs_d1_some 1 1 1 (- (1 / 8)) (1 / 10000)),
            (BlackScholesFacts.bs_d2_some 1 1 1 (- (1 / 8)) (1 / 10000)) by lra.
    simpl PyNum.bind. rewrite Hln, sqrt_1.
    do 2 f_equal; [f_equal|do 2 f_equal]; unfold cdf.
    - destruct (Rle_dec 0 _) as [H|H]; [|reflexivity]. exfalso. simpl in H. lra.
    - destruct (Rle_dec 0 _) as [H|H]; [|reflexivity]. exfalso. simpl in H. lra. }
  assert (Hhigh : BlackScholes.option_price_function cdf 1 1 1 (- (1 / 8)) "call" 1
                  = Some (1 * 1 - 0 * 1 * exp (- - (1 / 8) * 1))).
  { unfold BlackScholes.option_price_function, BlackScholes.call_price. simpl String.eqb.
    cbv iota.
    rewrite (BlackScholesFacts.bs_d1_some 1 1 1 (- (1 / 8)) 1),
            (BlackScholesFacts.bs_d2_some 1 1 1 (- (1 / 8)) 1) by lra.
    simpl PyNum.bind. rewrite Hln, sqrt_1.
    do 2 f_equal; [f_equal|do 2 f_equal]; unfold cdf.
    - destruct (Rle_dec 0 _) as [H|H]; [reflexivity|]. exfalso. apply H. simpl. lra.
    - destruct (Rle_dec 0 _) as [H|H]; [|reflexivity]. exfalso. simpl in H. lra. }
  destruct (implied_volatility_brackets cdf (1 / 2) 1 1 1 (- (1 / 8)) "call" _ _
              H1 H1 H1 Hlow ltac:(lra) Hhigh ltac:(lra))
    as (v & lo & hi & plo & phi & Hrun & Hlo & _ & Hhi & Hw & _ & _ & _ & _ & Hv).
  exists v, lo, hi. split; [apply Hrun; lia|]. repeat split; lra.
Defined.

(** X12.  [implied_volatility] raises nothing when the market price is out
    of reach (S > 0, K > 0, T > 0): if every model price for sigma in
    [[0.0001, 1]] is below the market price it returns 0.9999, and if none
    is below it returns 0.0002. *)
Theorem implied_volatility_saturates
    (cdf : R -> R) (option_price S0 K T r : R) (option_type : string) :
  0 < S0 -> 0 < K -> 0 < T ->
  ((forall sigma p, 1 / 10000 <= sigma <= 1 ->
      BlackScholes.option_price_function cdf S0 K T r option_type sigma = Some p ->
      p < option_price) ->
   forall fuel, (15 <= fuel)%nat ->
     BlackScholes.implied_volatility cdf fuel option_price S0 K T r option_type
     = BlackScholes.Volatility (9999 / 10000)) /\
  ((forall sigma p, 1 / 10000 <= sigma <= 1 ->
      BlackScholes.option_price_function cdf S0 K T r option_type sigma = Some p ->
      option_price <= p) ->
   forall fuel, (15 <= fuel)%nat ->
     BlackScholes.implied_volatility cdf fuel option_price S0 K T r option_type
     = BlackScholes.Volatility (2 / 10000)).
Proof.
  intros HS HK HT.
  set (price := BlackScholes.option_price_function cdf S0 K T r option_type).
  pose proof (BisectFacts.width_pos 14) as Hpos.
  assert (H14 : 9999 / 10000 / 2 ^ 14 = 9999 / 163840000) by (simpl; lra).
  split; intros Hall fuel Hfuel.
  - destruct (BisectFacts.bisect_runs price option_price
                (fun low high mid =>
                   1 / 10000 <= low /\ low <= high /\ high = 1 /\
                   forall m, mid = Some m -> m = low)
                ) with (fuel := 15%nat) (n := 0%nat)
                (low := BlackScholes.sigma_low_0) (high := BlackScholes.sigma_high_0)
                (mid := @None R)
      as (lo & hi & m & Hrun & (Hlo & Hlh & Hhi & Hm) & Hwidth).
    + intros low high mid (Hlo & Hlh & Hhi & _).
      apply ImpliedVolatilityFacts.option_price_some; try assumption. lra.
    + intros low high mid p (Hlo & Hlh & Hhi & _) Hp Hlt.
      split; [lra|]. split; [lra|]. split; [lra|].
      intros m0 [= <-]. reflexivity.
    + intros low high mid p (Hlo & Hlh & Hhi & _) Hp Hge.
      exfalso. apply Hge. apply (Hall ((low + high) / 2)); [lra | exact Hp].
    + lia.
    + lia.
    + apply ImpliedVolatilityFacts.start_width.
    + unfold BlackScholes.sigma_low_0, BlackScholes.sigma_high_0.
      split; [lra|]. split; [lra|]. split; [reflexivity|].
      intros m0 Hm0. discriminate.
    + left. reflexivity.
    + unfold BlackScholes.implied_volatility.
      apply (BisectFacts.bisect_more_fuel _ _ 15 fuel); [assumption|].
      fold price. rewrite Hrun. f_equal.
      rewrite (Hm m eq_refl). unfold PyNum.round.
      rewrite (RoundFacts.round_half_even_down _ 9999); simpl; lra.
  - destruct (BisectFacts.bisect_runs price option_price
                (fun low high mid =>
                   low = 1 / 10000 /\ low <= high /\ high <= 1 /\
                   forall m, mid = Some m -> m = high)
                ) with (fuel := 15%nat) (n := 0%nat)
                (low := BlackScholes.sigma_low_0) (high := BlackScholes.sigma_high_0)
                (mid := @None R)
      as (lo & hi & m & Hrun & (Hlo & Hlh & Hhi & Hm) & Hwidth).
    + intros low high mid (Hlo & Hlh & Hhi & _).
      apply ImpliedVolatilityFacts.option_price_some; try assumption. lra.
    + intros low high mid p (Hlo & Hlh & Hhi & _) Hp Hlt.
      exfalso. assert (option_price <= p); [|lra].
      apply (Hall ((low + high) / 2)); [lra | exact Hp].
    + intros low high mid p (Hlo & Hlh & Hhi & _) Hp Hge.
      split; [lra|]. split; [lra|]. split; [lra|].
      intros m0 [= <-]. reflexivity.
    + lia.
    + lia.
    + apply ImpliedVolatilityFacts.start_width.
    + unfold BlackScholes.sigma_low_0, BlackScholes.sigma_high_0.
      split; [reflexivity|]. split; [lra|]. split; [lra|].
      intros m0 Hm0. discriminate.
    + left. reflexivity.
    + unfold BlackScholes.implied_volatility.
      apply (BisectFacts.bisect_more_fuel _ _ 15 fuel); [assumption|].
      fold price. rewrite Hrun. f_equal.
      rewrite (Hm m eq_refl). unfold PyNum.round.
      rewrite (RoundFacts.round_half_even_up _ 1); simpl; lra.
Qed.

Lemma implied_volatility_saturates_witness :
  BlackScholes.implied_volatility (fun _ => 1 / 2) 15 1 1 1 1 0 "put"
  = BlackScholes.Volatility (9999 / 10000).
Proof.
  destruct (implied_volatility_saturates (fun _ => 1 / 2) 1 1 1 1 0 "put") as [Habove _];
    try lra.
  apply Habove; [|lia].
  intros sigma p Hsigma Hp.
  unfold BlackScholes.option_price_function, BlackScholes.put_price in Hp.
  simpl String.eqb in Hp. cbv iota in Hp.
  rewrite (BlackScholesFacts.bs_d1_some 1 1 1 0 sigma),
          (BlackScholesFacts.bs_d2_some 1 1 1 0 sigma) in Hp by lra.
  simpl PyNum.bind in Hp. injection Hp as <-.
  replace (- 0 * 1) with 0 by ring. rewrite exp_0. lra.
Defined.

Module DividendFacts.
Import PyNumFacts.
Import BlackScholesPeriodicDividend.

Lemma discount_some (S0 q T periods : R) :
  periods <> 0 ->
  _discount_for_dividends S0 q T periods = Some (S0 * exp (- q * T)).
Proof.
  intros Hp. unfold _discount_for_dividends.
  rewrite div_some by assumption. simpl. do 2 f_equal.
  unfold Rpower. rewrite ln_exp. f_equal. field. assumption.
Qed.

Lemma discount_zero_yield (S0 T periods : R) :
  periods <> 0 -> _discount_for_dividends S0 0 T periods = Some S0.
Proof.
  intros Hp. rewrite discount_some by assumption. f_equal.
  replace (- 0 * T) with 0 by ring. rewrite exp_0. ring.
Qed.

Lemma dividend_d1_some (S0 K T r sigma q periods : R) :
  0 < S0 -> 0 < K -> 0 < T -> sigma <> 0 -> periods <> 0 ->
  _d1 S0 K T r sigma q periods
  = Some (1 / (sigma * sqrt T)
          * (ln (S0 * exp (- q * T) / K) + (r + sigma ^ 2 / 2) * T)).
Proof.
  intros HS HK HT Hs Hp. unfold _d1.
  rewrite discount_some by assumption. simpl.
  rewrite sqrt_some by lra. simpl.
  rewrite div_some by (apply sigma_sqrt_nonzero; assumption). simpl.
  rewrite div_some by lra. simpl.
  rewrite log_some; [reflexivity|].
  apply ratio_pos; [|assumption].
  apply Rmult_lt_0_compat; [assumption | apply exp_pos].
Qed.

Lemma dividend_d2_some (S0 K T r sigma q periods : R) :
  0 < S0 -> 0 < K -> 0 < T -> sigma <> 0 -> periods <> 0 ->
  _d2 S0 K T r sigma q periods
  = Some (1 / (sigma * sqrt T)
          * (ln (S0 * exp (- q * T) / K) + (r + sigma ^ 2 / 2) * T)
          - sigma * sqrt T).
Proof.
  intros HS HK HT Hs Hp. unfold _d2.
  rewrite dividend_d1_some by assumption. simpl.
  rewrite sqrt_some by lra. reflexivity.
Qed.

Lemma ln_discounted (S0 K T q : R) :
  0 < S0 -> 0 < K -> ln (S0 * exp (- q * T) / K) = ln (S0 / K) - q * T.
Proof.
  intros HS HK.
  replace (S0 * exp (- q * T) / K) with (S0 / K * exp (- q * T)) by (field; lra).
  rewrite ln_mult by (try apply exp_pos; apply ratio_pos; assumption).
  rewrite ln_exp. ring.
Qed.

End DividendFacts.

(** X13.  The number of dividend periods does not enter the price: for
    every [periods <> 0] the stock price adjusted for dividends is
    [S * exp(-q*T)], so the call and the put of
    [BlackScholesPeriodicDividend] are the same for any two non-zero
    numbers of periods. *)
Theorem dividend_periods_cancel
    (cdf : R -> R) (S0 K T r sigma q periods periods' : R) :
  periods <> 0 -> periods' <> 0 ->
  BlackScholesPeriodicDividend._discount_for_dividends S0 q T periods
  = Some (S0 * exp (- q * T)) /\
  BlackScholesPeriodicDividend.call_price cdf S0 K T r sigma q periods
  = BlackScholesPeriodicDividend.call_price cdf S0 K T r sigma q periods' /\
  BlackScholesPeriodicDividend.put_price cdf S0 K T r sigma q periods
  = BlackScholesPeriodicDividend.put_price cdf S0 K T r sigma q periods'.
Proof.
  intros Hp Hp'.
  split; [apply DividendFacts.discount_some; assumption|].
  unfold BlackScholesPeriodicDividend.call_price, BlackScholesPeriodicDividend.put_price,
    BlackScholesPeriodicDividend._d2, BlackScholesPeriodicDividend._d1.
  rewrite !(DividendFacts.discount_some S0 q T periods) by assumption.
  rewrite !(DividendFacts.discount_some S0 q T periods') by assumption.
  split; reflexivity.
Qed.

Lemma dividend_periods_cancel_witness :
  BlackScholesPeriodicDividend.call_price (fun _ => 1 / 2) 50 55 1 (5 / 100) (2 / 10) (3 / 100) 4
  = BlackScholesPeriodicDividend.call_price (fun _ => 1 / 2) 50 55 1 (5 / 100) (2 / 10) (3 / 100) 12.
Proof.
  apply (dividend_periods_cancel (fun _ => 1 / 2) 50 55 1 (5 / 100) (2 / 10) (3 / 100) 4 12);
    lra.
Defined.

(** X14.  Without dividends the dividend pricer is the plain one: for
    S > 0, K > 0, T > 0, sigma <> 0, [q = 0] and [periods <> 0],
    [BlackScholesPeriodicDividend] gives the call and the put of
    [BlackScholes]. *)
Theorem dividend_free_is_black_scholes (cdf : R -> R) (S0 K T r sigma periods : R) :
  0 < S0 -> 0 < K -> 0 < T -> sigma <> 0 -> periods <> 0 ->
  exists call put,
    BlackScholes.call_price cdf S0 K T r sigma = Some call /\
    BlackScholesPeriodicDividend.call_price cdf S0 K T r sigma 0 periods = Some call /\
    BlackScholes.put_price cdf S0 K T r sigma = Some put /\
    BlackScholesPeriodicDividend.put_price cdf S0 K T r sigma 0 periods = Some put.
Proof.
  intros HS HK HT Hs Hp.
  unfold BlackScholesPeriodicDividend.call_price, BlackScholesPeriodicDividend.put_price,
    BlackScholesPeriodicDividend._d2, BlackScholesPeriodicDividend._d1.
  rewrite !(DividendFacts.discount_zero_yield S0 T periods) by assumption.
  unfold BlackScholes.call_price, BlackScholes.put_price,
    BlackScholes._d2, BlackScholes._d1.
  rewrite !PyNumFacts.sqrt_some by lra. simpl PyNum.bind.
  rewrite !(PyNumFacts.div_some 1)
    by (apply PyNumFacts.sigma_sqrt_nonzero; assumption).
  simpl PyNum.bind.
  rewrite !(PyNumFacts.div_some S0 K) by lra. simpl PyNum.bind.
  rewrite !PyNumFacts.log_some by (apply PyNumFacts.ratio_pos; assumption).
  simpl PyNum.bind.
  eexists. eexists. repeat split; reflexivity.
Qed.

Lemma dividend_free_is_black_scholes_witness :
  exists call,
    BlackScholes.call_price (fun _ => 1 / 2) 50 55 1 (5 / 100) (2 / 10) = Some call /\
    BlackScholesPeriodicDividend.call_price (fun _ => 1 / 2) 50 55 1 (5 / 100) (2 / 10) 0 4
    = Some call.
Proof.
  destruct (dividend_free_is_black_scholes (fun _ => 1 / 2) 50 55 1 (5 / 100) (2 / 10) 4)
    as (call & put & Hc & Hc' & _); try lra.
  exists call. split; assumption.
Defined.

(** X15.  Put-call parity with dividends: for S > 0, K > 0, T > 0,
    sigma <> 0, periods <> 0 and a [cdf] with [cdf(-x) = 1 - cdf(x)],
    [call_price - put_price = S * exp(-q*T) - K * exp(-r*T)]. *)
Theorem dividend_parity (cdf : R -> R) (S0 K T r sigma q periods : R) :
  (forall x, cdf (- x) = 1 - cdf x) ->
  0 < S0 -> 0 < K -> 0 < T -> sigma <> 0 -> periods <> 0 ->
  exists call put,
    BlackScholesPeriodicDividend.call_price cdf S0 K T r sigma q periods = Some call /\
    BlackScholesPeriodicDividend.put_price cdf S0 K T r sigma q periods = Some put /\
    call - put = S0 * exp (- q * T) - K * exp (- r * T).
Proof.
  intros Hsym HS HK HT Hs Hp.
  unfold BlackScholesPeriodicDividend.call_price, BlackScholesPeriodicDividend.put_price.
  rewrite DividendFacts.dividend_d1_some, DividendFacts.dividend_d2_some, DividendFacts.discount_some
    by assumption.
  simpl PyNum.bind.
  eexists. eexists. split; [reflexivity|]. split; [reflexivity|].
  rewrite !Hsym. ring.
Qed.

Lemma dividend_parity_witness :
  exists call put,
    BlackScholesPeriodicDividend.call_price (fun _ => 1 / 2)
      50 55 1 (5 / 100) (2 / 10) (3 / 100) 4 = Some call /\
    BlackScholesPeriodicDividend.put_price (fun _ => 1 / 2)
      50 55 1 (5 / 100) (2 / 10) (3 / 100) 4 = Some put /\
    call - put = 50 * exp (- (3 / 100) * 1) - 55 * exp (- (5 / 100) * 1).
Proof.
  apply (dividend_parity (fun _ => 1 / 2) 50 55 1 (5 / 100) (2 / 10) (3 / 100) 4);
    try lra.
  intros x. lra.
Defined.

Module GreeksFacts.
Import PyNumFacts.
Import BlackScholesGreeks.

Section Normal.
Variables cdf pdf : R -> R.
Variable self : greeks.
Hypothesis HS : 0 < S0 self.
Hypothesis HK : 0 < K self.
Hypothesis HT : 0 < T self.
Hypothesis Hsigma : sigma self <> 0.

Lemma greeks_d1_some :
  _d1 self
  = Some ((ln (S0 self / K self)
           + (r self - q self + 5 / 10 * sigma self ^ 2) * T self)
          / (sigma self * sqrt (T self))).
Proof.
  unfold _d1.
  rewrite div_some by lra. simpl.
  rewrite log_some by (apply ratio_pos; assumption). simpl.
  rewrite sqrt_some by lra. simpl.
  rewrite div_some by (apply sigma_sqrt_nonzero; assumption). reflexivity.
Qed.

Lemma greeks_d2_some :
  _d2 self
  = Some ((ln (S0 self / K self)
           + (r self - q self + 5 / 10 * sigma self ^ 2) * T self)
          / (sigma self * sqrt (T self))
          - sigma self * sqrt (T self)).
Proof.
  unfold _d2. rewrite greeks_d1_some. simpl. rewrite sqrt_some by lra. reflexivity.
Qed.

Lemma sqrt_T_pos : 0 < sqrt (T self).
Proof. apply sqrt_lt_R0. assumption. Qed.

End Normal.
End GreeksFacts.

(** X16.  The Greeks are evaluated at the [d1] and [d2] of the dividend
    pricer: for S > 0, K > 0, T > 0, sigma <> 0 and periods <> 0,
    [BlackScholesGreeks._d1] and [_d2] equal
    [BlackScholesPeriodicDividend._d1] and [_d2] on the same arguments. *)
Theorem greeks_share_d1 (self : BlackScholesGreeks.greeks) (periods : R) :
  0 < BlackScholesGreeks.S0 self -> 0 < BlackScholesGreeks.K self ->
  0 < BlackScholesGreeks.T self -> BlackScholesGreeks.sigma self <> 0 ->
  periods <> 0 ->
  exists d1 d2,
    BlackScholesGreeks._d1 self = Some d1 /\
    BlackScholesPeriodicDividend._d1
      (BlackScholesGreeks.S0 self) (BlackScholesGreeks.K self) (BlackScholesGreeks.T self)
      (BlackScholesGreeks.r self) (BlackScholesGreeks.sigma self)
      (BlackScholesGreeks.q self) periods = Some d1 /\
    BlackScholesGreeks._d2 self = Some d2 /\
    BlackScholesPeriodicDividend._d2
      (BlackScholesGreeks.S0 self) (BlackScholesGreeks.K self) (BlackScholesGreeks.T self)
      (BlackScholesGreeks.r self) (BlackScholesGreeks.sigma self)
      (BlackScholesGreeks.q self) periods = Some d2.
Proof.
  intros HS HK HT Hs Hp.
  pose proof (sqrt_lt_R0 _ HT) as Hsq.
  eexists. eexists.
  split; [apply GreeksFacts.greeks_d1_some; assumption|].
  split.
  { rewrite DividendFacts.dividend_d1_some by assumption. f_equal.
    rewrite DividendFacts.ln_discounted by assumption. field. split; lra. }
  split; [apply GreeksFacts.greeks_d2_some; assumption|].
  rewrite DividendFacts.dividend_d2_some by assumption. f_equal.
  rewrite DividendFacts.ln_discounted by assumption. field. split; lra.
Qed.

Lemma greeks_share_d1_witness :
  exists d1,
    BlackScholesGreeks._d1
      (BlackScholesGreeks.Build_greeks 40 30 (5 / 12) (5 / 100) (15 / 100) (5 / 100))
    = Some d1 /\
    BlackScholesPeriodicDividend._d1 40 30 (5 / 12) (5 / 100) (15 / 100) (5 / 100) 4
    = Some d1.
Proof.
  destruct (greeks_share_d1
              (BlackScholesGreeks.Build_greeks 40 30 (5 / 12) (5 / 100) (15 / 100) (5 / 100)) 4)
    as (d1 & d2 & H1 & H2 & _); simpl; try lra.
  exists d1. split; assumption.
Defined.

(** X17.  Call and put Greeks differ by fixed amounts: for S > 0, K > 0,
    T > 0, sigma <> 0 and a [cdf] with [cdf(-x) = 1 - cdf(x)],
    [call_delta - put_delta = exp(-q*T)],
    [call_theta - put_theta = -r*K*exp(-r*T)] and
    [call_rho - put_rho = K*T*exp(-r*T)]. *)
Theorem greeks_parity (cdf pdf : R -> R) (self : BlackScholesGreeks.greeks) :
  (forall x, cdf (- x) = 1 - cdf x) ->
  0 < BlackScholesGreeks.S0 self -> 0 < BlackScholesGreeks.K self ->
  0 < BlackScholesGreeks.T self -> BlackScholesGreeks.sigma self <> 0 ->
  exists cd pd ct pt cr pr,
    BlackScholesGreeks.call_delta cdf self = Some cd /\
    BlackScholesGreeks.put_delta cdf self = Some pd /\
    BlackScholesGreeks.call_theta cdf pdf self = Some ct /\
    BlackScholesGreeks.put_theta cdf pdf self = Some pt /\
    BlackScholesGreeks.call_rho cdf self = Some cr /\
    BlackScholesGreeks.put_rho cdf self = Some pr /\
    cd - pd = exp (- BlackScholesGreeks.q self * BlackScholesGreeks.T self) /\
    ct - pt = - BlackScholesGreeks.r self * BlackScholesGreeks.K self
              * exp (- BlackScholesGreeks.r self * BlackScholesGreeks.T self) /\
    cr - pr = BlackScholesGreeks.K self * BlackScholesGreeks.T self
              * exp (- BlackScholesGreeks.r self * BlackScholesGreeks.T self).
Proof.
  intros Hsym HS HK HT Hs.
  pose proof (GreeksFacts.sqrt_T_pos self HT) as Hsq.
  unfold BlackScholesGreeks.call_delta, BlackScholesGreeks.put_delta,
    BlackScholesGreeks.call_theta, BlackScholesGreeks.put_theta,
    BlackScholesGreeks.call_rho, BlackScholesGreeks.put_rho.
  rewrite !GreeksFacts.greeks_d1_some, !GreeksFacts.greeks_d2_some by assumption.
  simpl PyNum.bind.
  rewrite !PyNumFacts.sqrt_some by lra. simpl PyNum.bind.
  rewrite !PyNumFacts.div_some by lra. simpl PyNum.bind.
  do 6 eexists.
  do 6 (split; [reflexivity|]).
  rewrite !Hsym. repeat split; ring.
Qed.

Lemma greeks_parity_witness :
  exists cd pd,
    BlackScholesGreeks.call_delta (fun _ => 1 / 2)
      (BlackScholesGreeks.Build_greeks 40 30 (5 / 12) (5 / 100) (15 / 100) (5 / 100))
    = Some cd /\
    BlackScholesGreeks.put_delta (fun _ => 1 / 2)
      (BlackScholesGreeks.Build_greeks 40 30 (5 / 12) (5 / 100) (15 / 100) (5 / 100))
    = Some pd /\
    cd - pd = exp (- (5 / 100) * (5 / 12)).
Proof.
  destruct (greeks_parity (fun _ => 1 / 2) (fun _ => 1)
              (BlackScholesGreeks.Build_greeks 40 30 (5 / 12) (5 / 100) (15 / 100) (5 / 100)))
    as (cd & pd & ct & pt & cr & pr & H1 & H2 & _ & _ & _ & _ & Hd & _); simpl; try lra.
  - intros x. lra.
  - exists cd, pd. repeat split; assumption.
Defined.

(** X18.  Vega and gamma are tied: for S > 0, K > 0, T > 0, sigma <> 0,
    [call_vega = S^2 * sigma * T * call_gamma], and the put has the vega
    and the gamma of the call. *)
Theorem vega_gamma (cdf pdf : R -> R) (self : BlackScholesGreeks.greeks) :
  0 < BlackScholesGreeks.S0 self -> 0 < BlackScholesGreeks.K self ->
  0 < BlackScholesGreeks.T self -> BlackScholesGreeks.sigma self <> 0 ->
  exists gamma vega,
    BlackScholesGreeks.call_gamma pdf self = Some gamma /\
    BlackScholesGreeks.put_gamma pdf self = Some gamma /\
    BlackScholesGreeks.call_vega pdf self = Some vega /\
    BlackScholesGreeks.put_vega pdf self = Some vega /\
    vega = BlackScholesGreeks.S0 self ^ 2 * BlackScholesGreeks.sigma self
           * BlackScholesGreeks.T self * gamma.
Proof.
  intros HS HK HT Hs.
  pose proof (GreeksFacts.sqrt_T_pos self HT) as Hsq.
  pose proof (PyNumFacts.sigma_sqrt_nonzero _ _ HT Hs) as Hden.
  unfold BlackScholesGreeks.put_gamma, BlackScholesGreeks.put_vega,
    BlackScholesGreeks.call_gamma, BlackScholesGreeks.call_vega.
  rewrite !GreeksFacts.greeks_d1_some by assumption. simpl PyNum.bind.
  rewrite !PyNumFacts.sqrt_some by lra. simpl PyNum.bind.
  rewrite PyNumFacts.div_some.
  2:{ intros H. apply Hden.
      replace (BlackScholesGreeks.S0 self * BlackScholesGreeks.sigma self
               * sqrt (BlackScholesGreeks.T self))
        with (BlackScholesGreeks.S0 self
              * (BlackScholesGreeks.sigma self * sqrt (BlackScholesGreeks.T self)))
        in H by ring.
      apply Rmult_integral in H. destruct H; [lra | assumption]. }
  do 2 eexists. do 4 (split; [reflexivity|]).
  pose proof (sqrt_sqrt (BlackScholesGreeks.T self) ltac:(lra)) as HTT.
  set (p := pdf _).
  set (s := sqrt (BlackScholesGreeks.T self)) in *.
  rewrite <- HTT. field. split; lra.
Qed.

Lemma vega_gamma_witness :
  exists gamma vega,
    BlackScholesGreeks.call_gamma (fun _ => 1)
      (BlackScholesGreeks.Build_greeks 40 30 (5 / 12) (5 / 100) (15 / 100) (5 / 100))
    = Some gamma /\
    BlackScholesGreeks.call_vega (fun _ => 1)
      (BlackScholesGreeks.Build_greeks 40 30 (5 / 12) (5 / 100) (15 / 100) (5 / 100))
    = Some vega /\
    vega = 40 ^ 2 * (15 / 100) * (5 / 12) * gamma.
Proof.
  destruct (vega_gamma (fun _ => 1 / 2) (fun _ => 1)
              (BlackScholesGreeks.Build_greeks 40 30 (5 / 12) (5 / 100) (15 / 100) (5 / 100)))
    as (g & v & H1 & _ & H3 & _ & Hv); simpl; try lra.
  exists g, v. repeat split; assumption.
Defined.

(** X19.  The signs of the Greeks: for S > 0, K > 0, T > 0, sigma > 0, a
    [cdf] with values in [[0, 1]] and a [pdf] that is not negative, the
    call delta lies in [[0, exp(-q*T)]], the put delta in
    [[-exp(-q*T), 0]], gamma and vega are not negative, the call rho is
    not negative and the put rho is not positive. *)
Theorem greeks_signs (cdf pdf : R -> R) (self : BlackScholesGreeks.greeks) :
  (forall x, 0 <= cdf x <= 1) -> (forall x, 0 <= pdf x) ->
  0 < BlackScholesGreeks.S0 self -> 0 < BlackScholesGreeks.K self ->
  0 < BlackScholesGreeks.T self -> 0 < BlackScholesGreeks.sigma self ->
  exists cd pd gamma vega cr pr,
    BlackScholesGreeks.call_delta cdf self = Some cd /\
    BlackScholesGreeks.put_delta cdf self = Some pd /\
    BlackScholesGreeks.call_gamma pdf self = Some gamma /\
    BlackScholesGreeks.call_vega pdf self = Some vega /\
    BlackScholesGreeks.call_rho cdf self = Some cr /\
    BlackScholesGreeks.put_rho cdf self = Some pr /\
    0 <= cd <= exp (- BlackScholesGreeks.q self * BlackScholesGreeks.T self) /\
    - exp (- BlackScholesGreeks.q self * BlackScholesGreeks.T self) <= pd <= 0 /\
    0 <= gamma /\ 0 <= vega /\ 0 <= cr /\ pr <= 0.
Proof.
  intros Hcdf Hpdf HS HK HT Hs.
  assert (Hs' : BlackScholesGreeks.sigma self <> 0) by lra.
  pose proof (GreeksFacts.sqrt_T_pos self HT) as Hsq.
  unfold BlackScholesGreeks.call_delta, BlackScholesGreeks.put_delta,
    BlackScholesGreeks.call_gamma, BlackScholesGreeks.call_vega,
    BlackScholesGreeks.call_rho, BlackScholesGreeks.put_rho.
  rewrite !GreeksFacts.greeks_d1_some, !GreeksFacts.greeks_d2_some by assumption.
  simpl PyNum.bind.
  rewrite !PyNumFacts.sqrt_some by lra. simpl PyNum.bind.
  set (d1 := (ln _ + _) / _).
  set (s := sqrt (BlackScholesGreeks.T self)) in *.
  assert (Hden : 0 < BlackScholesGreeks.S0 self * BlackScholesGreeks.sigma self * s).
  { apply Rmult_lt_0_compat; [apply Rmult_lt_0_compat|]; assumption. }
  rewrite PyNumFacts.div_some by lra.
  do 6 eexists. do 6 (split; [reflexivity|]).
  pose proof (exp_pos (- BlackScholesGreeks.q self * BlackScholesGreeks.T self)) as He.
  pose proof (exp_pos (- BlackScholesGreeks.r self * BlackScholesGreeks.T self)) as Hr.
  pose proof (Hcdf d1) as [Hc0 Hc1].
  pose proof (Hcdf (d1 - BlackScholesGreeks.sigma self * s)) as [Hd0 Hd1].
  pose proof (Hcdf (- (d1 - BlackScholesGreeks.sigma self * s))) as [Hn0 Hn1].
  pose proof (Hpdf d1) as Hp0.
  assert (HKT : 0 < BlackScholesGreeks.K self * BlackScholesGreeks.T self
                    * exp (- BlackScholesGreeks.r self * BlackScholesGreeks.T self)).
  { apply Rmult_lt_0_compat; [apply Rmult_lt_0_compat|]; assumption. }
  split; [split; nra|]. split; [split; nra|].
  split.
  { unfold Rdiv. apply Rmult_le_pos; [assumption|].
    left. apply Rinv_0_lt_compat. assumption. }
  split.
  { apply Rmult_le_pos; [apply Rmult_le_pos|]; lra. }
  split.
  { apply Rmult_le_pos; lra. }
  replace (- BlackScholesGreeks.K self * BlackScholesGreeks.T self
           * exp (- BlackScholesGreeks.r self * BlackScholesGreeks.T self)
           * cdf (- (d1 - BlackScholesGreeks.sigma self * s)))
    with (- (BlackScholesGreeks.K self * BlackScholesGreeks.T self
             * exp (- BlackScholesGreeks.r self * BlackScholesGreeks.T self)
             * cdf (- (d1 - BlackScholesGreeks.sigma self * s)))) by ring.
  assert (0 <= BlackScholesGreeks.K self * BlackScholesGreeks.T self
               * exp (- BlackScholesGreeks.r self * BlackScholesGreeks.T self)
               * cdf (- (d1 - BlackScholesGreeks.sigma self * s)));
    [apply Rmult_le_pos; lra | lra].
Qed.

Lemma greeks_signs_witness :
  exists cd gamma,
    BlackScholesGreeks.call_delta (fun _ => 1 / 2)
      (BlackScholesGreeks.Build_greeks 40 30 (5 / 12) (5 / 100) (15 / 100) (5 / 100))
    = Some cd /\
    BlackScholesGreeks.call_gamma (fun _ => 1)
      (BlackScholesGreeks.Build_greeks 40 30 (5 / 12) (5 / 100) (15 / 100) (5 / 100))
    = Some gamma /\
    0 <= cd /\ 0 <= gamma.
Proof.
  destruct (greeks_signs (fun _ => 1 / 2) (fun _ => 1)
              (BlackScholesGreeks.Build_greeks 40 30 (5 / 12) (5 / 100) (15 / 100) (5 / 100)))
    as (cd & pd & g & v & cr & pr & H1 & _ & H3 & _ & _ & _ & [Hcd _] & _ & Hg & _);
    simpl; try lra.
  - intros x. lra.
  - intros x. lra.
  - exists cd, g. repeat split; assumption.
Defined.

(** X20.  Bounds of the closed form: for S > 0, K > 0, T > 0, sigma <> 0
    and a [cdf] with values in [[0, 1]], the call is worth at most [S],
    the put at most [K * exp(-r*T)], and the probabilities that the call
    and that the put end in the money lie in [[0, 1]] and add up to 1. *)
Theorem black_scholes_bounds (cdf : R -> R) (S0 K T r sigma : R) :
  (forall x, 0 <= cdf x <= 1) ->
  0 < S0 -> 0 < K -> 0 < T -> sigma <> 0 ->
  exists call put call_itm put_itm,
    BlackScholes.call_price cdf S0 K T r sigma = Some call /\
    BlackScholes.put_price cdf S0 K T r sigma = Some put /\
    BlackScholes.call_in_the_money cdf S0 K T r sigma = Some call_itm /\
    BlackScholes.put_in_the_money cdf S0 K T r sigma = Some put_itm /\
    call <= S0 /\ put <= K * exp (- r * T) /\
    0 <= call_itm <= 1 /\ 0 <= put_itm <= 1 /\ call_itm + put_itm = 1.
Proof.
  intros Hcdf HS HK HT Hs.
  unfold BlackScholes.call_price, BlackScholes.put_price,
    BlackScholes.call_in_the_money, BlackScholes.put_in_the_money.
  rewrite !BlackScholesFacts.bs_d1_some, !BlackScholesFacts.bs_d2_some by assumption.
  simpl PyNum.bind.
  set (d1 := 1 / _ * _). set (d2 := d1 - _).
  do 4 eexists. do 4 (split; [reflexivity|]).
  pose proof (exp_pos (- r * T)) as He.
  pose proof (Hcdf d1) as [Ha0 Ha1]. pose proof (Hcdf d2) as [Hb0 Hb1].
  pose proof (Hcdf (- d1)) as [Hc0 Hc1]. pose proof (Hcdf (- d2)) as [Hd0 Hd1].
  assert (HKe : 0 < K * exp (- r * T)) by (apply Rmult_lt_0_compat; assumption).
  split; [nra|]. split; [nra|]. split; [lra|]. split; [lra|]. ring.
Qed.

Lemma black_scholes_bounds_witness :
  exists call put,
    BlackScholes.call_price (fun _ => 1 / 2) 36 35 (2 / 12) (5 / 100) (2 / 10) = Some call /\
    BlackScholes.put_price (fun _ => 1 / 2) 36 35 (2 / 12) (5 / 100) (2 / 10) = Some put /\
    call <= 36 /\ put <= 35 * exp (- (5 / 100) * (2 / 12)).
Proof.
  destruct (black_scholes_bounds (fun _ => 1 / 2) 36 35 (2 / 12) (5 / 100) (2 / 10))
    as (c & p & ci & pi & H1 & H2 & _ & _ & Hc & Hp & _); try lra.
  - intros x. lra.
  - exists c, p. repeat split; assumption.
Defined.

(** ** The interest calculator *)

Module InterestFacts.
Import Interest InterestCalculator.

Lemma div_ok (x y : R) : y <> 0 -> div x y = Ok (x / y).
Proof.
  intros Hy. unfold div. destruct (Req_dec_T y 0); [contradiction | reflexivity].
Qed.

Lemma div_zero (x : R) : div x 0 = Raise ZeroDivisionError.
Proof.
  unfold div. destruct (Req_dec_T 0 0) as [_|H]; [reflexivity | contradiction H; reflexivity].
Qed.


Lemma log_domain (x : R) : x <= 0 -> log x = Raise ValueError.
Proof.
  intros Hx. unfold log. destruct (Rlt_dec 0 x); [lra | reflexivity].
Qed.

Lemma pow_ok (b e : R) : 0 < b -> pow b e = Ok (Rpower b e).
Proof.
  intros Hb. unfold pow. destruct (Rlt_dec 0 b); [reflexivity | lra].
Qed.

Lemma ln_pos (x : R) : 1 < x -> 0 < ln x.
Proof.
  intros Hx. rewrite <- ln_1. apply ln_increasing; lra.
Qed.

Lemma Rpower_ge_1 (b e : R) : 1 <= b -> 0 <= e -> 1 <= Rpower b e.
Proof.
  intros Hb He. unfold Rpower.
  assert (Hln : 0 <= ln b).
  { destruct Hb as [Hb|<-]; [left; apply ln_pos; assumption | rewrite ln_1; lra]. }
  assert (Hprod : 0 <= e * ln b) by (apply Rmult_le_pos; assumption).
  destruct Hprod as [Hprod|<-].
  - left. rewrite <- exp_0. apply exp_increasing. assumption.
  - rewrite exp_0. lra.
Qed.



(** Rounding a product and then its quotient brings back the factor to
    within two half-units of the last digit. *)
Lemma round_trip (F pv : R) :
  1 <= F ->
  - (1 / 100) <= PyNum.round (PyNum.round (F * pv) 2 / F) 2 - pv <= 1 / 100.
Proof.
  intros HF.
  pose proof (RoundFacts.round_near (F * pv) 2) as H1.
  pose proof (RoundFacts.round_near (PyNum.round (F * pv) 2 / F) 2) as H2.
  simpl in H1, H2.
  set (fv := PyNum.round (F * pv) 2) in *.
  set (pv' := PyNum.round (fv / F) 2) in *.
  assert (HFi : 0 < / F <= 1).
  { split; [apply Rinv_0_lt_compat; lra|].
    rewrite <- Rinv_1. apply Rinv_le_contravar; lra. }
  assert (Hq : fv / F - pv = (fv - F * pv) * / F) by (field; lra).
  assert (Hb : - (1 / 200) <= (fv - F * pv) * / F <= 1 / 200) by nra.
  lra.
Qed.

End InterestFacts.

(** X21.  [calculate_missing] writes only into an empty box: whenever it
    inserts a value, the box it writes to was empty, the other three held
    numbers, and the years (box b) are written as an integer, the other
    values as rounded floats.  With a known interest type and numbers or
    nothing in every box, it shows the "exactly three values" error, and
    inserts nothing, as soon as the number of empty boxes is not one. *)
Theorem calculator_fills_the_blank
    (a b c d : Interest.entry) (it : string) :
  (forall bx v,
     InterestCalculator.calculate_missing a b c d it = Interest.Insert bx v ->
     match bx with
     | Interest.a_entry =>
         a = Interest.Blank /\
         (exists n r fv, b = Interest.Number n /\ c = Interest.Number r
                         /\ d = Interest.Number fv) /\
         exists x, v = Interest.FloatText x
     | Interest.b_entry =>
         b = Interest.Blank /\
         (exists pv r fv, a = Interest.Number pv /\ c = Interest.Number r
                          /\ d = Interest.Number fv) /\
         exists n, v = Interest.IntText n
     | Interest.c_entry =>
         c = Interest.Blank /\
         (exists pv n fv, a = Interest.Number pv /\ b = Interest.Number n
                          /\ d = Interest.Number fv) /\
         exists x, v = Interest.FloatText x
     | Interest.d_entry =>
         d = Interest.Blank /\
         (exists pv n r, a = Interest.Number pv /\ b = Interest.Number n
                         /\ c = Interest.Number r) /\
         exists x, v = Interest.FloatText x
     end) /\
  (a <> Interest.Garbage -> b <> Interest.Garbage ->
   c <> Interest.Garbage -> d <> Interest.Garbage ->
   it = "Simple"%string \/ it = "Compound"%string \/ it = "Monthly Compound"%string ->
   blank_boxes a b c d <> 1%nat ->
   InterestCalculator.calculate_missing a b c d it = Interest.three_values).
Proof.
  split.
  - intros bx v.
    unfold InterestCalculator.calculate_missing, InterestCalculator.body.
    destruct a as [|pv|], b as [|n|], c as [|r|], d as [|fv|]; simpl;
      try discriminate;
      (destruct (String.eqb it "Simple");
       [|destruct (String.eqb it "Compound");
         [|destruct (String.eqb it "Monthly Compound")]]);
      unfold InterestCalculator.simple, InterestCalculator.compound,
        InterestCalculator.monthly_compound, Interest.three_values;
      simpl; try discriminate;
      repeat match goal with
             | |- context [Interest.div ?x ?y] =>
                 destruct (Interest.div x y) as [?|[]]; simpl; try discriminate
             | |- context [Interest.log ?x] =>
                 destruct (Interest.log x) as [?|[]]; simpl; try discriminate
             | |- context [Interest.pow ?x ?y] =>
                 destruct (Interest.pow x y) as [?|[]]; simpl; try discriminate
             end;
      intros [= <- <-]; repeat split; eauto 10.
  - intros Ha Hb Hc Hd Hit Hblank.
    unfold InterestCalculator.calculate_missing, InterestCalculator.body.
    destruct a as [|pv|], b as [|n|], c as [|r|], d as [|fv|];
      try contradiction; unfold blank_boxes in Hblank; simpl in Hblank;
      try (exfalso; apply Hblank; reflexivity);
      destruct Hit as [->|[->| ->]]; reflexivity.
Qed.

Lemma calculator_fills_the_blank_witness :
  exists x,
    InterestCalculator.calculate_missing
      (Interest.Number 100) (Interest.Number 2) (Interest.Number 5) Interest.Blank "Simple"
    = Interest.Insert Interest.d_entry (Interest.FloatText x).
Proof.
  destruct (calculator_fills_the_blank
              (Interest.Number 100) (Interest.Number 2) (Interest.Number 5) Interest.Blank
              "Simple") as [Hins _].
  specialize (Hins Interest.d_entry _ eq_refl). simpl in Hins.
  destruct Hins as (_ & _ & x & Hx).
  eexists. reflexivity.
Defined.

(** X22.  How [calculate_missing] reports failures.  Text that is not a
    number in any box gives "Please enter valid numbers." whatever the
    interest type, known or not; with numbers or nothing in every box an
    unknown interest type gives the "Operation Error".  When the years are
    asked for, the logarithm of a ratio [fv / pv <= 0] (compound types) is
    caught and reported as "Please enter valid numbers.", while a starting
    capital of 0 raises a ZeroDivisionError that the handler does not
    catch. *)
Theorem calculator_errors (a b c d : Interest.entry) (it : string) :
  (a = Interest.Garbage \/ b = Interest.Garbage \/ c = Interest.Garbage
   \/ d = Interest.Garbage ->
   InterestCalculator.calculate_missing a b c d it
   = Interest.ShowError "Input Error" "Please enter valid numbers.") /\
  (a <> Interest.Garbage -> b <> Interest.Garbage ->
   c <> Interest.Garbage -> d <> Interest.Garbage ->
   it <> "Simple"%string -> it <> "Compound"%string ->
   it <> "Monthly Compound"%string ->
   InterestCalculator.calculate_missing a b c d it
   = Interest.ShowError "Operation Error" "Please select a valid operation.") /\
  (forall pv r fv,
     it = "Compound"%string \/ it = "Monthly Compound"%string ->
     pv <> 0 -> fv / pv <= 0 ->
     InterestCalculator.calculate_missing
       (Interest.Number pv) Interest.Blank (Interest.Number r) (Interest.Number fv) it
     = Interest.ShowError "Input Error" "Please enter valid numbers.") /\
  (forall r fv,
     it = "Simple"%string \/ it = "Compound"%string \/ it = "Monthly Compound"%string ->
     InterestCalculator.calculate_missing
       (Interest.Number 0) Interest.Blank (Interest.Number r) (Interest.Number fv) it
     = Interest.Uncaught Interest.ZeroDivisionError).
Proof.
  split; [|split; [|split]].
  - unfold InterestCalculator.calculate_missing, InterestCalculator.body.
    destruct a, b, c, d; intros [H|[H|[H|H]]]; try discriminate H; reflexivity.
  - intros Ha Hb Hc Hd H1 H2 H3.
    apply String.eqb_neq in H1, H2, H3.
    unfold InterestCalculator.calculate_missing, InterestCalculator.body.
    destruct a, b, c, d; try contradiction; simpl; rewrite H1, H2, H3; reflexivity.
  - intros pv r fv Hit Hpv Hratio.
    unfold InterestCalculator.calculate_missing, InterestCalculator.body.
    destruct Hit as [->| ->]; simpl;
      rewrite InterestFacts.div_ok by assumption; simpl;
      rewrite InterestFacts.log_domain by assumption; reflexivity.
  - intros r fv Hit.
    unfold InterestCalculator.calculate_missing, InterestCalculator.body.
    destruct Hit as [->|[->| ->]]; simpl;
      rewrite InterestFacts.div_zero; reflexivity.
Qed.

Lemma calculator_errors_witness :
  InterestCalculator.calculate_missing
    (Interest.Number 100) Interest.Blank (Interest.Number 5) (Interest.Number (-200))
    "Compound"
  = Interest.ShowError "Input Error" "Please enter valid numbers.".
Proof.
  destruct (calculator_errors (Interest.Number 100) Interest.Blank (Interest.Number 5)
              (Interest.Number (-200)) "Compound") as (_ & _ & Hlog & _).
  apply Hlog; [left; reflexivity | lra | lra].
Defined.







(** X26.  Round trip (r >= 0, n >= 0, any of the three interest types):
    the final capital computed from (pv, n, r), fed back with the same n
    and r, gives a starting capital within 0.01 of pv. *)
Theorem capital_round_trip (pv n r : R) (it : string) :
  0 <= r -> 0 <= n ->
  it = "Simple"%string \/ it = "Compound"%string \/ it = "Monthly Compound"%string ->
  exists fv pv',
    InterestCalculator.calculate_missing
      (Interest.Number pv) (Interest.Number n) (Interest.Number r) Interest.Blank it
    = Interest.Insert Interest.d_entry (Interest.FloatText fv) /\
    InterestCalculator.calculate_missing
      Interest.Blank (Interest.Number n) (Interest.Number r) (Interest.Number fv) it
    = Interest.Insert Interest.a_entry (Interest.FloatText pv') /\
    - (1 / 100) <= pv' - pv <= 1 / 100.
Proof.
  intros Hr Hn Hit.
  unfold InterestCalculator.calculate_missing, InterestCalculator.body.
  destruct Hit as [->|[->| ->]]; simpl.
  - assert (HF : 1 <= 1 + r / 100 * n) by nra.
    eexists. eexists. split; [reflexivity|].
    rewrite InterestFacts.div_ok by lra. simpl. split; [reflexivity|].
    apply InterestFacts.round_trip. assumption.
  - assert (HF : 1 <= Rpower (1 + r / 100) n)
      by (apply InterestFacts.Rpower_ge_1; lra).
    eexists. eexists. rewrite !InterestFacts.pow_ok by lra. simpl.
    split; [reflexivity|].
    rewrite InterestFacts.div_ok by lra. simpl. split; [reflexivity|].
    rewrite (Rmult_comm pv). apply InterestFacts.round_trip. assumption.
  - assert (HF : 1 <= Rpower (1 + r / 1200) (12 * n))
      by (apply InterestFacts.Rpower_ge_1; lra).
    eexists. eexists. rewrite !InterestFacts.pow_ok by lra. simpl.
    split; [reflexivity|].
    rewrite InterestFacts.div_ok by lra. simpl. split; [reflexivity|].
    apply InterestFacts.round_trip. assumption.
Qed.

Lemma capital_round_trip_witness :
  exists fv pv',
    InterestCalculator.calculate_missing
      (Interest.Number 1000) (Interest.Number 3) (Interest.Number 5) Interest.Blank "Compound"
    = Interest.Insert Interest.d_entry (Interest.FloatText fv) /\
    InterestCalculator.calculate_missing
      Interest.Blank (Interest.Number 3) (Interest.Number 5) (Interest.Number fv) "Compound"
    = Interest.Insert Interest.a_entry (Interest.FloatText pv') /\
    - (1 / 100) <= pv' - 1000 <= 1 / 100.
Proof.
  apply (capital_round_trip 1000 3 5 "Compound"); try lra.
  right. left. reflexivity.
Defined.
